(** * ClipTurbo orchestration core: render supervisor and workflow scheduler

    A shallow embedding of [src/manim_engine/render_manager.py] and
    [src/core/workflow_engine.py], with the properties of the two
    components stated and proved over it.

    Conventions of the embedding.
    - Python objects that are mutated in place live in a store that is
      passed explicitly: the [RenderManager] instance, the file system it
      writes to, the workflow registry.
    - [time.time()] readings are rationals ([Q]); a float difference is the
      rational difference.
    - Everything the code obtains from outside (the clock, the child
      processes, the step handlers) is an argument of the embedded function.
    - [raise]/[try ... except Exception] is the result type [Exc]. *)

From Stdlib Require Import ZArith QArith Qround Qminmax String List Lia.
From stdpp Require Import base gmap strings list pretty.

Open Scope string_scope.
Open Scope list_scope.

(** ** Exceptions

    The exceptions derived from [Exception], the ones an
    [except Exception] clause catches. *)

Inductive PyExc :=
| KeyError (key : string)
| TypeError (msg : string)
| OSError (msg : string)
| Exception (msg : string).

(** [str(e)]: a [KeyError] prints the repr of its key. *)
Definition str_exc (e : PyExc) : string :=
  match e with
  | KeyError k => "'" +:+ k +:+ "'"
  | TypeError m => m
  | OSError m => m
  | Exception m => m
  end.

Inductive Exc (A : Type) :=
| Return (a : A)
| Raise (e : PyExc).
Arguments Return {A} a.
Arguments Raise {A} e.

Definition bindE {A B} (m : Exc A) (k : A -> Exc B) : Exc B :=
  match m with
  | Return a => k a
  | Raise e => Raise e
  end.

Notation "x <-! m ; k" := (bindE m (fun x => k))
  (at level 100, m at next level, right associativity, only parsing).

Definition Time := Q.

(** [int(x)] on a float: truncation towards zero. *)
Definition py_int (x : Q) : Z :=
  if Qle_bool 0 x then Qfloor x else Qceiling x.

(** Truthiness of a [str]. *)
Definition truthy_str (s : string) : bool :=
  match s with
  | EmptyString => false
  | _ => true
  end.

(** [a or b] on strings. *)
Definition str_or (a b : string) : string :=
  if truthy_str a then a else b.

(** ** Enumerations of render_manager.py *)

Module RenderQuality.
Inductive t := LOW | MEDIUM | HIGH | PRODUCTION.

Definition value (q : t) : string :=
  match q with
  | LOW => "low_quality"
  | MEDIUM => "medium_quality"
  | HIGH => "high_quality"
  | PRODUCTION => "production_quality"
  end.

#[global] Instance RenderQuality_eq_dec : EqDecision t.
Proof. solve_decision. Defined.
End RenderQuality.

Module RenderStatus.
Inductive t := PENDING | RUNNING | COMPLETED | FAILED | CANCELLED.

Definition value (s : t) : string :=
  match s with
  | PENDING => "pending"
  | RUNNING => "running"
  | COMPLETED => "completed"
  | FAILED => "failed"
  | CANCELLED => "cancelled"
  end.

#[global] Instance RenderStatus_eq_dec : EqDecision t.
Proof. solve_decision. Defined.
End RenderStatus.

(** ** Data classes of render_manager.py *)

Module RenderConfig.
Record t := mk {
  quality : RenderQuality.t;
  resolution : Z * Z;
  frame_rate : Z;
  aspect_ratio : string;
  background_color : string;
  output_format : string;
  audio_enabled : bool;
  preview_mode : bool;
  custom_flags : list string
}.

(** The dataclass defaults. *)
Definition default : t :=
  mk RenderQuality.MEDIUM (1920, 1080)%Z 30%Z "16:9" "BLACK" "mp4" true false [].
End RenderConfig.

(** A scene class, as far as the supervisor looks at it: its [__name__] and
    what [inspect.getsource] gives for it ([None] when it raises). *)
Record SceneClass := {
  scene_name : string;
  scene_source : option string
}.

(** A [subprocess.Popen] handle.  The state of the child process belongs to
    the operating system and is read through [OS] below. *)
Record Popen := { pid : nat }.

Module RenderJob.
Record t := mk {
  id : string;
  scene_class : SceneClass;
  scene_file : string;
  config : RenderConfig.t;
  output_path : string;
  status : RenderStatus.t;
  progress : Q;
  start_time : option Time;
  end_time : option Time;
  error_message : option string;
  process : option Popen
}.

Definition set_status (v : RenderStatus.t) (j : t) : t :=
  mk (id j) (scene_class j) (scene_file j) (config j) (output_path j)
     v (progress j) (start_time j) (end_time j) (error_message j) (process j).

Definition set_progress (v : Q) (j : t) : t :=
  mk (id j) (scene_class j) (scene_file j) (config j) (output_path j)
     (status j) v (start_time j) (end_time j) (error_message j) (process j).

Definition set_start_time (v : option Time) (j : t) : t :=
  mk (id j) (scene_class j) (scene_file j) (config j) (output_path j)
     (status j) (progress j) v (end_time j) (error_message j) (process j).

Definition set_end_time (v : option Time) (j : t) : t :=
  mk (id j) (scene_class j) (scene_file j) (config j) (output_path j)
     (status j) (progress j) (start_time j) v (error_message j) (process j).

Definition set_error_message (v : option string) (j : t) : t :=
  mk (id j) (scene_class j) (scene_file j) (config j) (output_path j)
     (status j) (progress j) (start_time j) (end_time j) v (process j).

Definition set_process (v : option Popen) (j : t) : t :=
  mk (id j) (scene_class j) (scene_file j) (config j) (output_path j)
     (status j) (progress j) (start_time j) (end_time j) (error_message j) v.
End RenderJob.

Module RenderResult.
Record t := mk {
  job_id : string;
  success : bool;
  output_file : string;
  duration : Q;
  file_size : Z;
  resolution : Z * Z;
  frame_count : Z;
  error_message : option string
}.
End RenderResult.

(** ** The quality preset table

    [self.quality_presets] is a [dict] whose keys are the members of the
    [RenderQuality] enum.  [RenderQuality] derives from [Enum] only (not from
    [str]), so a member and its string value are different keys: they
    neither hash nor compare equal.  A key of the table is therefore one of
    two kinds of Python object. *)

Inductive DictKey :=
| KEnum (q : RenderQuality.t)
| KStr (s : string).

#[global] Instance DictKey_eq_dec : EqDecision DictKey.
Proof. solve_decision. Defined.

(** [repr(key)], as [KeyError] shows it. *)
Definition repr_key (k : DictKey) : string :=
  match k with
  | KEnum RenderQuality.LOW => "<RenderQuality.LOW: 'low_quality'>"
  | KEnum RenderQuality.MEDIUM => "<RenderQuality.MEDIUM: 'medium_quality'>"
  | KEnum RenderQuality.HIGH => "<RenderQuality.HIGH: 'high_quality'>"
  | KEnum RenderQuality.PRODUCTION =>
      "<RenderQuality.PRODUCTION: 'production_quality'>"
  | KStr s => "'" +:+ s +:+ "'"
  end.

Record QualityPreset := {
  pixel_height : Z;
  pixel_width : Z;
  preset_frame_rate : Z;
  preset_quality : string
}.

(** A [dict] in insertion order. *)
Definition PresetDict := list (DictKey * QualityPreset).

Fixpoint dict_get (d : PresetDict) (k : DictKey) : option QualityPreset :=
  match d with
  | [] => None
  | (k', v) :: d' => if decide (k' = k) then Some v else dict_get d' k
  end.

(** [d[k]] *)
Definition dict_getitem (d : PresetDict) (k : DictKey) : Exc QualityPreset :=
  match dict_get d k with
  | Some v => Return v
  | None =>
      Raise (KeyError (match k with KStr s => s | _ => repr_key k end))
  end.

(** The literal of [RenderManager.__init__]. *)
Definition quality_presets_literal : PresetDict :=
  [ (KEnum RenderQuality.LOW,
     {| pixel_height := 480; pixel_width := 854;
        preset_frame_rate := 15; preset_quality := "low_quality" |});
    (KEnum RenderQuality.MEDIUM,
     {| pixel_height := 720; pixel_width := 1280;
        preset_frame_rate := 24; preset_quality := "medium_quality" |});
    (KEnum RenderQuality.HIGH,
     {| pixel_height := 1080; pixel_width := 1920;
        preset_frame_rate := 30; preset_quality := "high_quality" |});
    (KEnum RenderQuality.PRODUCTION,
     {| pixel_height := 1080; pixel_width := 1920;
        preset_frame_rate := 60; preset_quality := "production_quality" |}) ].

(** ** The operating system, as the supervisor sees it *)

Record OS := {
  (** [time.time()] *)
  time_now : Time;
  (** [subprocess.Popen(cmd, ...)]: a handle, or the error of the spawn *)
  popen : list string -> Exc Popen;
  (** [process.poll()], which also sets [process.returncode] *)
  proc_poll : Popen -> option Z;
  (** the standard-error text of [process.communicate()] *)
  proc_stderr : Popen -> string;
  (** [process.terminate()] *)
  proc_terminate : Popen -> Exc unit
}.

(** The files on disk: path to size in bytes. *)
Abbreviation Files := (gmap string Z).

Definition nl : string := String (Ascii.ascii_of_nat 10) EmptyString.

(** [str(dir / name)] *)
Definition path_join (dir name : string) : string := dir +:+ "/" +:+ name.

(** The name of [path] when it is an entry of [dir] itself. *)
Definition dir_entry (dir path : string) : option string :=
  let d := dir +:+ "/" in
  if String.prefix d path then
    let name :=
      String.substring (String.length d)
        (String.length path - String.length d) path in
    match String.index 0 "/" name with
    | None => Some name
    | Some _ => None
    end
  else None.

(** The ids that [Path.glob] reads literally in the pattern
    ["*" + job_id + "*"]: not empty, and without the wildcard characters of
    [fnmatch] (star, question mark, opening bracket) and without a path
    separator. *)
Definition glob_special (c : Ascii.ascii) : bool :=
  existsb (Ascii.eqb c) (list_ascii_of_string "*?[/").

Definition glob_literal (job_id : string) : bool :=
  negb (String.eqb job_id "")
  && forallb (fun c => negb (glob_special c)) (list_ascii_of_string job_id).

(** [dir.glob("*" + job_id + "*")] for a literal [job_id]: the entries of
    [dir] whose name contains [job_id].  An id that is not literal is read
    by [Path.glob] as a pattern of its own, or refused with a [ValueError];
    what the glob selects then is not modelled, and a property that depends
    on the selection is stated for literal ids. *)
Definition glob_matches (dir job_id path : string) : bool :=
  match dir_entry dir path with
  | Some name =>
      match String.index 0 job_id name with
      | Some _ => true
      | None => false
      end
  | None => false
  end.

(** ** class RenderManager *)

Module RenderManager.

Record t := mk {
  render_queue : list RenderJob.t;
  active_jobs : gmap string RenderJob.t;
  completed_jobs : gmap string RenderResult.t;
  max_concurrent_renders : Z;
  current_renders : Z;
  output_dir : string;
  temp_dir : string;
  quality_presets : PresetDict
}.

Definition set_render_queue (v : list RenderJob.t) (m : t) : t :=
  mk v (active_jobs m) (completed_jobs m) (max_concurrent_renders m)
     (current_renders m) (output_dir m) (temp_dir m) (quality_presets m).

Definition set_active_jobs (v : gmap string RenderJob.t) (m : t) : t :=
  mk (render_queue m) v (completed_jobs m) (max_concurrent_renders m)
     (current_renders m) (output_dir m) (temp_dir m) (quality_presets m).

Definition set_completed_jobs (v : gmap string RenderResult.t) (m : t) : t :=
  mk (render_queue m) (active_jobs m) v (max_concurrent_renders m)
     (current_renders m) (output_dir m) (temp_dir m) (quality_presets m).

Definition set_current_renders (v : Z) (m : t) : t :=
  mk (render_queue m) (active_jobs m) (completed_jobs m)
     (max_concurrent_renders m) v (output_dir m) (temp_dir m)
     (quality_presets m).

(** The supervisor object together with the disk it works on. *)
Record World := {
  self : t;
  fs : Files
}.

Definition on_self (f : t -> t) (w : World) : World :=
  {| self := f (self w); fs := fs w |}.

Definition set_fs (v : Files) (w : World) : World :=
  {| self := self w; fs := v |}.

(** The [config] dict of the constructor: the three keys it reads. *)
Record Settings := {
  cfg_max_concurrent_renders : option Z;
  cfg_output_dir : option string;
  cfg_temp_dir : option string
}.

(** [tempfile.gettempdir()] *)
Definition gettempdir : string := "/tmp".

Definition __init__ (config : Settings) : t :=
  {| render_queue := [];
     active_jobs := ∅;
     completed_jobs := ∅;
     max_concurrent_renders := default 2%Z (cfg_max_concurrent_renders config);
     current_renders := 0;
     (* str(Path('./output')) is 'output' *)
     output_dir := default "output" (cfg_output_dir config);
     temp_dir :=
       path_join (default gettempdir (cfg_temp_dir config)) "clipturbo_render";
     quality_presets := quality_presets_literal |}.

(** *** _build_manim_command *)

Definition _build_manim_command (m : t) (job : RenderJob.t) : Exc (list string) :=
  let config := RenderJob.config job in
  quality_preset <-!
    dict_getitem (quality_presets m)
      (KStr (RenderQuality.value (RenderConfig.quality config)));
  let cmd :=
    [ "manim";
      RenderJob.scene_file job;
      "RenderScene";
      "--quality=" +:+ preset_quality quality_preset;
      "--resolution=" +:+ pretty (fst (RenderConfig.resolution config)) +:+ ","
        +:+ pretty (snd (RenderConfig.resolution config));
      "--frame_rate=" +:+ pretty (RenderConfig.frame_rate config);
      "--output_file=" +:+ RenderJob.output_path job ] in
  let cmd :=
    if RenderConfig.preview_mode config then cmd ++ ["--preview"] else cmd in
  let cmd :=
    if truthy_str (RenderConfig.background_color config)
    then cmd ++ ["--background_color=" +:+ RenderConfig.background_color config]
    else cmd in
  Return (cmd ++ RenderConfig.custom_flags config).

(** *** _create_render_result *)

Definition _create_render_result (files : Files) (job : RenderJob.t)
  : Exc RenderResult.t :=
  match files !! RenderJob.output_path job with
  | Some size =>
      duration <-!
        match RenderJob.start_time job with
        | Some s =>
            if Qeq_bool s 0 then Return 0%Q
            else
              match RenderJob.end_time job with
              | Some e => Return (e - s)%Q
              | None => Raise (TypeError "unsupported operand type(s) for -")
              end
        | None => Return 0%Q
        end;
      Return
        {| RenderResult.job_id := RenderJob.id job;
           RenderResult.success := true;
           RenderResult.output_file := RenderJob.output_path job;
           RenderResult.duration := duration;
           RenderResult.file_size := size;
           RenderResult.resolution :=
             RenderConfig.resolution (RenderJob.config job);
           RenderResult.frame_count := 0;
           RenderResult.error_message := None |}
  | None =>
      Raise (Exception ("输出文件不存在: " +:+ RenderJob.output_path job))
  end.

(** *** _cleanup_job_files *)

Definition _cleanup_job_files (temp : string) (job : RenderJob.t)
    (files : Files) : Files :=
  let files := delete (RenderJob.scene_file job) files in
  filter (fun kv => glob_matches temp (RenderJob.id job) (fst kv) = false) files.

(** *** _handle_job_completion

    At both call sites [job] is the object registered at
    [active_jobs[job.id]]; when the method leaves it registered, the
    registered entry carries the attributes written here. *)

Definition write_back (job : RenderJob.t) (m : t) : t :=
  match active_jobs m !! RenderJob.id job with
  | Some _ => set_active_jobs (<[RenderJob.id job := job]> (active_jobs m)) m
  | None => m
  end.

(** The statements after the [if job.process:] block. *)
Definition release_job (job : RenderJob.t) (w : World) : World :=
  let m := self w in
  let m := set_active_jobs (delete (RenderJob.id job) (active_jobs m)) m in
  let m := set_current_renders (current_renders m - 1) m in
  {| self := m; fs := _cleanup_job_files (temp_dir m) job (fs w) |}.

Definition failed_result (job : RenderJob.t) : RenderResult.t :=
  {| RenderResult.job_id := RenderJob.id job;
     RenderResult.success := false;
     RenderResult.output_file := "";
     RenderResult.duration := 0;
     RenderResult.file_size := 0;
     RenderResult.resolution := (0, 0)%Z;
     RenderResult.frame_count := 0;
     RenderResult.error_message := RenderJob.error_message job |}.

Definition record_result (r : RenderResult.t) (m : t) : t :=
  set_completed_jobs (<[RenderResult.job_id r := r]> (completed_jobs m)) m.

Definition _handle_job_completion (os : OS) (job : RenderJob.t) (w : World)
  : World :=
  let job := RenderJob.set_end_time (Some (time_now os)) job in
  match RenderJob.process job with
  | Some p =>
      if decide (proc_poll os p = Some 0%Z) then
        let job :=
          RenderJob.set_progress 100 (RenderJob.set_status RenderStatus.COMPLETED job) in
        match _create_render_result (fs w) job with
        | Return result => release_job job (on_self (record_result result) w)
        | Raise _ =>
            (* except Exception: only logged *)
            on_self (write_back job) w
        end
      else
        let job := RenderJob.set_status RenderStatus.FAILED job in
        let job :=
          RenderJob.set_error_message
            (Some (str_or (proc_stderr os p) "渲染进程异常退出")) job in
        release_job job (on_self (record_result (failed_result job)) w)
  | None => release_job job w
  end.

(** *** _start_render_job *)

Definition register_job (job : RenderJob.t) (m : t) : t :=
  set_active_jobs (<[RenderJob.id job := job]> (active_jobs m)) m.

Definition _start_render_job (os : OS) (job : RenderJob.t) (w : World)
  : World :=
  let job := RenderJob.set_status RenderStatus.RUNNING job in
  let job := RenderJob.set_start_time (Some (time_now os)) job in
  let w :=
    on_self (fun m =>
      set_current_renders (current_renders m + 1) (register_job job m)) w in
  match (cmd <-! _build_manim_command (self w) job; popen os cmd) with
  | Return p =>
      on_self (register_job (RenderJob.set_process (Some p) job)) w
  | Raise e =>
      let job := RenderJob.set_status RenderStatus.FAILED job in
      let job := RenderJob.set_error_message (Some (str_exc e)) job in
      _handle_job_completion os job (on_self (register_job job) w)
  end.

(** *** _start_pending_jobs

    The [while] loop pops the head of the queue in each iteration and
    [_start_render_job] leaves the queue alone, so the loop is a recursion
    on the queue.  The first component of the result is the sequence of jobs
    handed to [_start_render_job], in call order. *)

Fixpoint start_pending_loop (os : OS) (queue : list RenderJob.t) (w : World)
  : list RenderJob.t * World :=
  match queue with
  | [] => ([], w)
  | job :: rest =>
      if (current_renders (self w) <? max_concurrent_renders (self w))%Z then
        (* job = self.render_queue.pop(0) *)
        let w := on_self (set_render_queue rest) w in
        let (started, w) :=
          start_pending_loop os rest (_start_render_job os job w) in
        (job :: started, w)
      else ([], w)
  end.

Definition _start_pending_jobs (os : OS) (w : World) : World :=
  snd (start_pending_loop os (render_queue (self w)) w).

Definition started_by (os : OS) (w : World) : list RenderJob.t :=
  fst (start_pending_loop os (render_queue (self w)) w).

(** *** _update_job_progress *)

Definition _update_job_progress (os : OS) (job : RenderJob.t) : RenderJob.t :=
  match RenderJob.process job, RenderJob.start_time job with
  | Some _, Some s =>
      if Qeq_bool s 0 then job
      else
        let elapsed := (time_now os - s)%Q in
        RenderJob.set_progress (Qmin (elapsed / 30 * 100) 95) job
  | _, _ => job
  end.

(** *** _monitor_renders: one pass of the loop body *)

Definition monitor_job (os : OS) (w : World) (entry : string * RenderJob.t)
  : World :=
  let job := entry.2 in
  match RenderJob.process job with
  | Some p =>
      match proc_poll os p with
      | Some _ => _handle_job_completion os job w
      | None => on_self (write_back (_update_job_progress os job)) w
      end
  | None => w
  end.

Definition poll_active_jobs (os : OS) (w : World) : World :=
  fold_left (monitor_job os) (map_to_list (active_jobs (self w))) w.

Definition monitor_tick (os : OS) (w : World) : World :=
  _start_pending_jobs os (poll_active_jobs os w).

(** *** submit_render_job *)

Definition scene_code (scene_class : SceneClass) (source : string) : string :=
  nl +:+ "from manim import *" +:+ nl +:+ nl
  +:+ "class RenderScene(Scene):" +:+ nl
  +:+ "    def construct(self):" +:+ nl
  +:+ "        # 动态创建的场景" +:+ nl
  +:+ "        scene_instance = " +:+ scene_name scene_class +:+ "()" +:+ nl
  +:+ "        scene_instance.construct()" +:+ nl +:+ nl
  +:+ "# 将场景类复制到文件中" +:+ nl
  +:+ source +:+ nl.

Definition _create_scene_file (scene_class : SceneClass) (job_id : string)
    (w : World) : Exc string * World :=
  let scene_file := path_join (temp_dir (self w)) ("scene_" +:+ job_id +:+ ".py") in
  match scene_source scene_class with
  | Some source =>
      let code := scene_code scene_class source in
      (Return scene_file,
       set_fs (<[scene_file := Z.of_nat (String.length code)]> (fs w)) w)
  | None => (Raise (OSError "could not get source code"), w)
  end.

Definition submit_render_job (os : OS) (scene_class : SceneClass)
    (config : RenderConfig.t) (job_id : option string) (w : World)
  : Exc string * World :=
  let job_id :=
    match job_id with
    | Some i => i
    | None => "render_" +:+ pretty (py_int (time_now os * 1000))
    end in
  match _create_scene_file scene_class job_id w with
  | (Return scene_file, w) =>
      let output_filename := job_id +:+ "." +:+ RenderConfig.output_format config in
      let output_path := path_join (output_dir (self w)) output_filename in
      let job :=
        RenderJob.mk job_id scene_class scene_file config output_path
          RenderStatus.PENDING 0 None None None None in
      (Return job_id,
       on_self (fun m => set_render_queue (render_queue m ++ [job]) m) w)
  | (Raise e, w) => (Raise e, w)
  end.

(** *** get_job_status *)

Inductive JobStatus :=
| LiveStatus (id status : string) (progress : Q) (start_time : option Time)
    (error_message : option string)
| ResultStatus (id status : string) (progress : Q) (output_file : string)
    (duration : Q) (file_size : Z) (error_message : option string).

Definition status_of (d : JobStatus) : string :=
  match d with
  | LiveStatus _ s _ _ _ => s
  | ResultStatus _ s _ _ _ _ _ => s
  end.

Definition find_queued (job_id : string) (queue : list RenderJob.t)
  : option RenderJob.t :=
  List.find (fun job => bool_decide (RenderJob.id job = job_id)) queue.

Definition get_job_status (m : t) (job_id : string) : option JobStatus :=
  match active_jobs m !! job_id with
  | Some job =>
      Some (LiveStatus (RenderJob.id job)
              (RenderStatus.value (RenderJob.status job))
              (RenderJob.progress job) (RenderJob.start_time job)
              (RenderJob.error_message job))
  | None =>
      match completed_jobs m !! job_id with
      | Some result =>
          Some (ResultStatus (RenderResult.job_id result)
                  (if RenderResult.success result then "completed" else "failed")
                  (if RenderResult.success result then 100 else 0)
                  (RenderResult.output_file result)
                  (RenderResult.duration result)
                  (RenderResult.file_size result)
                  (RenderResult.error_message result))
      | None =>
          match find_queued job_id (render_queue m) with
          | Some job =>
              Some (LiveStatus (RenderJob.id job)
                      (RenderStatus.value (RenderJob.status job)) 0 None None)
          | None => None
          end
      end
  end.

(** *** cancel_job *)

(** [for i, job in enumerate(queue): if job.id == job_id: queue.pop(i)]:
    the first queued job with that id is dropped. *)
Fixpoint remove_queued (job_id : string) (queue : list RenderJob.t)
  : option (list RenderJob.t) :=
  match queue with
  | [] => None
  | job :: rest =>
      if decide (RenderJob.id job = job_id) then Some rest
      else cons job <$> remove_queued job_id rest
  end.

Definition cancel_queued (job_id : string) (m : t) : bool * t :=
  match remove_queued job_id (render_queue m) with
  | Some queue => (true, set_render_queue queue m)
  | None => (false, m)
  end.

Definition cancel_job (os : OS) (job_id : string) (m : t) : bool * t :=
  match active_jobs m !! job_id with
  | Some job =>
      match RenderJob.process job with
      | Some p =>
          match proc_terminate os p with
          | Return _ =>
              (true,
               set_active_jobs
                 (<[job_id := RenderJob.set_status RenderStatus.CANCELLED job]>
                    (active_jobs m)) m)
          | Raise _ => (false, m)
          end
      | None => cancel_queued job_id m
      end
  | None => cancel_queued job_id m
  end.

(** *** clear_completed_jobs *)

Definition clear_completed_jobs (m : t) : t := set_completed_jobs ∅ m.

(** *** get_queue_status *)

Record QueueStatus := {
  pending_jobs : nat;
  n_active_jobs : nat;
  n_completed_jobs : nat;
  max_concurrent : Z;
  n_current_renders : Z
}.

Definition get_queue_status (m : t) : QueueStatus :=
  {| pending_jobs := length (render_queue m);
     n_active_jobs := size (active_jobs m);
     n_completed_jobs := size (completed_jobs m);
     max_concurrent := max_concurrent_renders m;
     n_current_renders := current_renders m |}.

End RenderManager.


(** * workflow_engine.py *)

(** ** Enumerations *)

Module StepStatus.
Inductive t := PENDING | RUNNING | COMPLETED | FAILED | SKIPPED.

Definition value (s : t) : string :=
  match s with
  | PENDING => "pending"
  | RUNNING => "running"
  | COMPLETED => "completed"
  | FAILED => "failed"
  | SKIPPED => "skipped"
  end.

#[global] Instance StepStatus_eq_dec : EqDecision t.
Proof. solve_decision. Defined.
End StepStatus.

Module WorkflowStatus.
Inductive t := CREATED | RUNNING | COMPLETED | FAILED | CANCELLED.

Definition value (s : t) : string :=
  match s with
  | CREATED => "created"
  | RUNNING => "running"
  | COMPLETED => "completed"
  | FAILED => "failed"
  | CANCELLED => "cancelled"
  end.

#[global] Instance WorkflowStatus_eq_dec : EqDecision t.
Proof. solve_decision. Defined.
End WorkflowStatus.

(** ** Values the scheduler stores and passes on without looking inside *)

Inductive PyVal :=
| VNone
| VBool (b : bool)
| VStr (s : string)
| VObj (address : N).

(** The shared context of a workflow: a [dict] from names to values. *)
Abbreviation Context := (gmap string PyVal).

(** ** Data classes *)

Module WorkflowStep.
Record t := mk {
  id : string;
  name : string;
  description : string;
  (** the handler, by its key in [self.step_handlers] *)
  handler : string;
  dependencies : list string;
  status : StepStatus.t;
  start_time : option Time;
  end_time : option Time;
  result : PyVal;
  error : option string;
  progress : Q
}.

(** A step as the dataclass defaults leave it. *)
Definition new (id name description handler : string)
    (dependencies : list string) : t :=
  mk id name description handler dependencies StepStatus.PENDING None None
     VNone None 0.

Definition set_status (v : StepStatus.t) (s : t) : t :=
  mk (id s) (name s) (description s) (handler s) (dependencies s)
     v (start_time s) (end_time s) (result s) (error s) (progress s).

Definition set_start_time (v : option Time) (s : t) : t :=
  mk (id s) (name s) (description s) (handler s) (dependencies s)
     (status s) v (end_time s) (result s) (error s) (progress s).

Definition set_end_time (v : option Time) (s : t) : t :=
  mk (id s) (name s) (description s) (handler s) (dependencies s)
     (status s) (start_time s) v (result s) (error s) (progress s).

Definition set_result (v : PyVal) (s : t) : t :=
  mk (id s) (name s) (description s) (handler s) (dependencies s)
     (status s) (start_time s) (end_time s) v (error s) (progress s).

Definition set_error (v : option string) (s : t) : t :=
  mk (id s) (name s) (description s) (handler s) (dependencies s)
     (status s) (start_time s) (end_time s) (result s) v (progress s).

Definition set_progress (v : Q) (s : t) : t :=
  mk (id s) (name s) (description s) (handler s) (dependencies s)
     (status s) (start_time s) (end_time s) (result s) (error s) v.
End WorkflowStep.

Module WorkflowResult.
Record t := mk {
  workflow_id : string;
  status : WorkflowStatus.t;
  (** the [steps] dict, in insertion order; the key of a step is its [id] *)
  steps : list WorkflowStep.t;
  start_time : Time;
  end_time : option Time;
  total_duration : Q;
  output_files : list string;
  error_message : option string;
  (** the [context] attribute, attached after construction; [None] stands
      for a missing attribute *)
  context : option Context
}.

Definition set_status (v : WorkflowStatus.t) (w : t) : t :=
  mk (workflow_id w) v (steps w) (start_time w) (end_time w)
     (total_duration w) (output_files w) (error_message w) (context w).

Definition set_steps (v : list WorkflowStep.t) (w : t) : t :=
  mk (workflow_id w) (status w) v (start_time w) (end_time w)
     (total_duration w) (output_files w) (error_message w) (context w).

Definition set_end_time (v : option Time) (w : t) : t :=
  mk (workflow_id w) (status w) (steps w) (start_time w) v
     (total_duration w) (output_files w) (error_message w) (context w).

Definition set_total_duration (v : Q) (w : t) : t :=
  mk (workflow_id w) (status w) (steps w) (start_time w) (end_time w)
     v (output_files w) (error_message w) (context w).

Definition set_error_message (v : option string) (w : t) : t :=
  mk (workflow_id w) (status w) (steps w) (start_time w) (end_time w)
     (total_duration w) (output_files w) v (context w).

Definition set_context (v : option Context) (w : t) : t :=
  mk (workflow_id w) (status w) (steps w) (start_time w) (end_time w)
     (total_duration w) (output_files w) (error_message w) v.

(** [workflow.steps[step_id]] *)
Definition find_step (step_id : string) (w : t) : option WorkflowStep.t :=
  List.find (fun s => bool_decide (WorkflowStep.id s = step_id)) (steps w).

(** An attribute write on the step object registered under [step_id]. *)
Definition update_step (step_id : string) (f : WorkflowStep.t -> WorkflowStep.t)
    (w : t) : t :=
  set_steps
    ((fun s => if decide (WorkflowStep.id s = step_id) then f s else s)
       <$> steps w) w.

(** The keys of a [dict] are pairwise different. *)
Definition distinct_ids (w : t) : Prop := NoDup (WorkflowStep.id <$> steps w).
End WorkflowResult.

(** ** Step handlers

    A handler is an awaitable taking the shared context and the step.  What
    one call of it does, as far as the scheduler can tell: it returns a
    value or raises, it may have written to the context and to
    [step.progress], and it is over at some time. *)

Record HandlerRun := {
  outcome : Exc PyVal;
  context_after : Context;
  progress_after : Q;
  finished_at : Time
}.

(** The handlers, by their key in [self.step_handlers]. *)
Definition Handlers := string -> Context -> WorkflowStep.t -> HandlerRun.

(** ** class WorkflowEngine: the scheduler on one workflow *)

Module WorkflowEngine.

(** *** _execute_step

    The coroutine in its two halves: up to the [await] of the handler, and
    from the handler's return or exception on. *)

(** The attribute writes before the [await]. *)
Definition started (now : Time) (s : WorkflowStep.t) : WorkflowStep.t :=
  let s := WorkflowStep.set_status StepStatus.RUNNING s in
  WorkflowStep.set_start_time (Some now) s.

(** The attribute writes after it: the rest of the [try] block when the
    handler returned, the [except Exception] block when it raised. *)
Definition finished (run : HandlerRun) (s : WorkflowStep.t) : WorkflowStep.t :=
  (* what the handler itself wrote to step.progress *)
  let s := WorkflowStep.set_progress (progress_after run) s in
  match outcome run with
  | Return result =>
      let s := WorkflowStep.set_result result s in
      let s := WorkflowStep.set_status StepStatus.COMPLETED s in
      let s := WorkflowStep.set_progress 100 s in
      WorkflowStep.set_end_time (Some (finished_at run)) s
  | Raise e =>
      let s := WorkflowStep.set_status StepStatus.FAILED s in
      let s := WorkflowStep.set_error (Some (str_exc e)) s in
      WorkflowStep.set_end_time (Some (finished_at run)) s
  end.

Definition begin_step (now : Time) (step_id : string) (w : WorkflowResult.t)
  : WorkflowResult.t :=
  WorkflowResult.update_step step_id (started now) w.

Definition end_step (run : HandlerRun) (step_id : string)
    (w : WorkflowResult.t) : WorkflowResult.t :=
  (* the handler wrote to the context dict in place *)
  let w :=
    match WorkflowResult.context w with
    | Some _ => WorkflowResult.set_context (Some (context_after run)) w
    | None => w
    end in
  WorkflowResult.update_step step_id (finished run) w.

(** The handler call in between: [await step.handler(context, step)] with
    [context = getattr(workflow, 'context', {})]. *)
Definition call_handler (handlers : Handlers) (step : WorkflowStep.t)
    (w : WorkflowResult.t) : HandlerRun :=
  handlers (WorkflowStep.handler step) (default ∅ (WorkflowResult.context w)) step.

Definition _execute_step (handlers : Handlers) (now : Time) (step_id : string)
    (w : WorkflowResult.t) : WorkflowResult.t :=
  let w := begin_step now step_id w in
  match WorkflowResult.find_step step_id w with
  | Some step => end_step (call_handler handlers step w) step_id w
  | None => w
  end.

(** *** _execute_workflow *)

(** The condition of [ready_steps.append(step)]. *)
Definition is_ready (executed_steps : gset string) (step : WorkflowStep.t)
  : bool :=
  bool_decide (WorkflowStep.id step ∉ executed_steps)
  && bool_decide (WorkflowStep.status step = StepStatus.PENDING)
  && forallb (fun dep => bool_decide (dep ∈ executed_steps))
       (WorkflowStep.dependencies step).

(** [ready_steps], as references (ids) to the step objects. *)
Definition ready_steps (w : WorkflowResult.t) (executed_steps : gset string)
  : list string :=
  WorkflowStep.id <$> List.filter (is_ready executed_steps) (WorkflowResult.steps w).

Definition failed_steps (w : WorkflowResult.t) : list WorkflowStep.t :=
  List.filter (fun s => bool_decide (WorkflowStep.status s = StepStatus.FAILED))
    (WorkflowResult.steps w).

(** [', '.join(names)] *)
Fixpoint join_comma (names : list string) : string :=
  match names with
  | [] => ""
  | [n] => n
  | n :: rest => n +:+ ", " +:+ join_comma rest
  end.

Definition deadlock_message : string := "工作流存在循环依赖或无法执行的步骤".

Definition failure_message (failed : list WorkflowStep.t) : string :=
  "步骤失败: " +:+ join_comma (WorkflowStep.name <$> failed).

(** The branch [if not ready_steps:]. *)
Definition fail_no_ready (w : WorkflowResult.t) : WorkflowResult.t :=
  let w := WorkflowResult.set_status WorkflowStatus.FAILED w in
  match failed_steps w with
  | [] => WorkflowResult.set_error_message (Some deadlock_message) w
  | failed => WorkflowResult.set_error_message (Some (failure_message failed)) w
  end.

Definition is_executed_status (s : StepStatus.t) : bool :=
  match s with
  | StepStatus.COMPLETED | StepStatus.FAILED | StepStatus.SKIPPED => true
  | _ => false
  end.

(** The loop [for step in ready_steps: if step.status in [...]:
    executed_steps.add(step.id)]. *)
Definition mark_executed (ready : list string) (w : WorkflowResult.t)
    (executed_steps : gset string) : gset string :=
  fold_left
    (fun executed step_id =>
       match WorkflowResult.find_step step_id w with
       | Some step =>
           if is_executed_status (WorkflowStep.status step)
           then executed ∪ {[ WorkflowStep.id step ]}
           else executed
       | None => executed
       end)
    ready executed_steps.

(** The statements after the loop. *)
Definition finish (now : Time) (w : WorkflowResult.t) : WorkflowResult.t :=
  let w := WorkflowResult.set_end_time (Some now) w in
  let w :=
    WorkflowResult.set_total_duration (now - WorkflowResult.start_time w)%Q w in
  if decide (WorkflowResult.status w = WorkflowStatus.RUNNING)
  then WorkflowResult.set_status WorkflowStatus.COMPLETED w
  else w.

(** One pass of the body of the [while] loop, the tasks of the ready steps
    running one after the other. *)
Inductive LoopStep :=
| Break (w : WorkflowResult.t)
| Continue (w : WorkflowResult.t) (executed_steps : gset string).

Definition loop_body (handlers : Handlers) (now : Time) (w : WorkflowResult.t)
    (executed_steps : gset string) : LoopStep :=
  match ready_steps w executed_steps with
  | [] => Break (fail_no_ready w)
  | ready =>
      let w :=
        fold_left (fun w step_id => _execute_step handlers now step_id w)
          ready w in
      Continue w (mark_executed ready w executed_steps)
  end.

(** The [while] loop.  [clock n] is the reading of the clock in the [n]-th
    pass; [fuel] bounds the number of passes. *)
Fixpoint workflow_loop (handlers : Handlers) (clock : nat -> Time)
    (fuel n : nat) (w : WorkflowResult.t) (executed_steps : gset string)
  : option (WorkflowResult.t * nat) :=
  if (size executed_steps <? length (WorkflowResult.steps w))%nat then
    match fuel with
    | O => None
    | S fuel =>
        match loop_body handlers (clock n) w executed_steps with
        | Break w => Some (w, S n)
        | Continue w executed_steps =>
            workflow_loop handlers clock fuel (S n) w executed_steps
        end
    end
  else Some (w, n).

Definition _execute_workflow (handlers : Handlers) (clock : nat -> Time)
    (fuel : nat) (w : WorkflowResult.t) : option WorkflowResult.t :=
  let w := WorkflowResult.set_status WorkflowStatus.RUNNING w in
  match workflow_loop handlers clock fuel 0 w ∅ with
  | Some (w, n) => Some (finish (clock n) w)
  | None => None
  end.

(** *** get_workflow_status *)

Record StepReport := {
  report_name : string;
  report_status : string;
  report_progress : Q;
  report_error : option string
}.

Record StatusReport := {
  st_id : string;
  st_status : string;
  st_start_time : Time;
  st_end_time : option Time;
  st_total_duration : Q;
  st_steps : list (string * StepReport);
  st_output_files : list string;
  st_error_message : option string
}.

Definition report_of (w : WorkflowResult.t) : StatusReport :=
  {| st_id := WorkflowResult.workflow_id w;
     st_status := WorkflowStatus.value (WorkflowResult.status w);
     st_start_time := WorkflowResult.start_time w;
     st_end_time := WorkflowResult.end_time w;
     st_total_duration := WorkflowResult.total_duration w;
     st_steps :=
       (fun s =>
          (WorkflowStep.id s,
           {| report_name := WorkflowStep.name s;
              report_status := StepStatus.value (WorkflowStep.status s);
              report_progress := WorkflowStep.progress s;
              report_error := WorkflowStep.error s |}))
         <$> WorkflowResult.steps w;
     st_output_files := WorkflowResult.output_files w;
     st_error_message := WorkflowResult.error_message w |}.

(** *** The engine object *)

Record t := mk {
  active_workflows : gmap string WorkflowResult.t;
  render_manager : RenderManager.t
}.

Definition get_workflow_status (e : t) (workflow_id : string)
  : option StatusReport :=
  report_of <$> active_workflows e !! workflow_id.

(** *** cancel_workflow

    The only writer of the context key 'render_job_id' stores the id of a
    render job, a string; any other value there names no job. *)
Definition cancel_render_job (os : OS) (w : WorkflowResult.t)
    (m : RenderManager.t) : RenderManager.t :=
  match default ∅ (WorkflowResult.context w) !! "render_job_id" with
  | Some (VStr job_id) =>
      if truthy_str job_id then (RenderManager.cancel_job os job_id m).2 else m
  | _ => m
  end.

Definition mark_cancelled (now : Time) (w : WorkflowResult.t)
  : WorkflowResult.t :=
  let w := WorkflowResult.set_status WorkflowStatus.CANCELLED w in
  let w := WorkflowResult.set_end_time (Some now) w in
  WorkflowResult.set_total_duration (now - WorkflowResult.start_time w)%Q w.

Definition cancel_workflow (os : OS) (workflow_id : string) (e : t)
  : bool * t :=
  match active_workflows e !! workflow_id with
  | None => (false, e)
  | Some w =>
      (true,
       {| active_workflows :=
            <[workflow_id := mark_cancelled (time_now os) w]> (active_workflows e);
          render_manager := cancel_render_job os w (render_manager e) |})
  end.

(** *** create_video_workflow *)

(** [content_input]: a topic string, or a dict with the content. *)
Inductive ContentInput :=
| Topic (topic : string)
| Content (dict : N).

Definition content_steps (use_ai_generation : bool) : list WorkflowStep.t :=
  if use_ai_generation then
    [ WorkflowStep.new "content_generation" "内容生成" "使用AI生成视频内容"
        "content_generation" [];
      WorkflowStep.new "template_selection" "模板选择" "选择合适的视频模板"
        "template_selection" ["content_generation"];
      WorkflowStep.new "parameter_preparation" "参数准备" "准备模板参数"
        "parameter_preparation" ["content_generation"; "template_selection"] ]
  else
    [ WorkflowStep.new "content_preparation" "内容准备" "处理用户提供的视频内容"
        "content_preparation" [];
      WorkflowStep.new "template_selection" "模板选择" "选择合适的视频模板"
        "template_selection" ["content_preparation"];
      WorkflowStep.new "parameter_preparation" "参数准备" "准备模板参数"
        "parameter_preparation" ["content_preparation"; "template_selection"] ].

Definition common_steps : list WorkflowStep.t :=
  [ WorkflowStep.new "scene_creation" "场景创建" "创建Manim场景"
      "scene_creation" ["parameter_preparation"];
    WorkflowStep.new "video_rendering" "视频渲染" "渲染最终视频"
      "video_rendering" ["scene_creation"];
    WorkflowStep.new "post_processing" "后期处理" "视频后期处理"
      "post_processing" ["video_rendering"] ].

Definition initial_context (content_input : ContentInput) (requirements : N)
  : Context :=
  let use_ai_generation :=
    match content_input with Topic _ => true | Content _ => false end in
  <["content_input" :=
      match content_input with Topic s => VStr s | Content d => VObj d end]>
  (<["requirements" := VObj requirements]>
  (<["video_content" := VNone]>
  (<["selected_template" := VNone]>
  (<["template_parameters" := VNone]>
  (<["scene_class" := VNone]>
  (<["render_job_id" := VNone]>
  (<["use_ai_generation" := VBool use_ai_generation]> ∅))))))).

Definition new_workflow (now : Time) (content_input : ContentInput)
    (requirements : N) (workflow_id : string) : WorkflowResult.t :=
  let use_ai_generation :=
    match content_input with Topic _ => true | Content _ => false end in
  {| WorkflowResult.workflow_id := workflow_id;
     WorkflowResult.status := WorkflowStatus.CREATED;
     WorkflowResult.steps := content_steps use_ai_generation ++ common_steps;
     WorkflowResult.start_time := now;
     WorkflowResult.end_time := None;
     WorkflowResult.total_duration := 0;
     WorkflowResult.output_files := [];
     WorkflowResult.error_message := None;
     WorkflowResult.context := Some (initial_context content_input requirements) |}.

(** Registers the workflow and returns its id; the scheduler task it creates
    has not run yet when the call returns. *)
Definition create_video_workflow (now : Time) (content_input : ContentInput)
    (requirements : N) (workflow_id : option string) (e : t) : string * t :=
  let workflow_id :=
    match workflow_id with
    | Some i => i
    | None => "workflow_" +:+ pretty (py_int (now * 1000))
    end in
  (workflow_id,
   {| active_workflows :=
        <[workflow_id := new_workflow now content_input requirements workflow_id]>
          (active_workflows e);
      render_manager := render_manager e |}).

End WorkflowEngine.

(** * Runs of the render supervisor

    The supervisor is driven from one event loop: what happens to it is a
    sequence of calls of [submit_render_job], [cancel_job] and
    [clear_completed_jobs], passes of the monitor loop, and changes of the
    disk made by others (the child processes write the videos).  None of the
    methods suspends in the middle, so the states between two events are all
    the states there are to observe. *)

Module Supervisor.
Import RenderManager.

Inductive Event :=
| Submit (scene_class : SceneClass) (config : RenderConfig.t)
    (job_id : option string)
| Cancel (job_id : string)
| Tick
| ClearCompleted
| DiskChange (files : Files).

(** A run records, next to the world, the ids of the accepted submissions
    and the ids of the jobs handed to [_start_render_job], both in order. *)
Record Run := {
  world : World;
  submitted : list string;
  launched : list string
}.

Definition step (r : Run) (e : OS * Event) : Run :=
  let os := e.1 in
  let w := world r in
  match e.2 with
  | Submit scene_class config job_id =>
      match submit_render_job os scene_class config job_id w with
      | (Return i, w') =>
          {| world := w'; submitted := submitted r ++ [i];
             launched := launched r |}
      | (Raise _, w') =>
          {| world := w'; submitted := submitted r; launched := launched r |}
      end
  | Cancel job_id =>
      {| world := on_self (fun m => (cancel_job os job_id m).2) w;
         submitted := submitted r; launched := launched r |}
  | Tick =>
      let polled := poll_active_jobs os w in
      {| world := _start_pending_jobs os polled;
         submitted := submitted r;
         launched := launched r ++ (RenderJob.id <$> started_by os polled) |}
  | ClearCompleted =>
      {| world := on_self clear_completed_jobs w;
         submitted := submitted r; launched := launched r |}
  | DiskChange files =>
      {| world := set_fs files w;
         submitted := submitted r; launched := launched r |}
  end.

Definition run (events : list (OS * Event)) (r : Run) : Run :=
  fold_left step events r.

(** The supervisor right after its constructor. *)
Definition boot (config : Settings) (files : Files) : Run :=
  {| world := {| self := __init__ config; fs := files |};
     submitted := [];
     launched := [] |}.

(** The two ways [_handle_job_completion] ends: the job is released (with or
    without a recorded result), or the handler of the [try] swallowed an
    exception and the job stays registered. *)
Inductive completion_outcome (job : RenderJob.t) (w w' : World) : Prop :=
| released (result : option RenderResult.t) :
    active_jobs (self w') = delete (RenderJob.id job) (active_jobs (self w)) ->
    current_renders (self w') = (current_renders (self w) - 1)%Z ->
    completed_jobs (self w')
    = match result with
      | Some r => <[RenderJob.id job := r]> (completed_jobs (self w))
      | None => completed_jobs (self w)
      end ->
    fs w' = _cleanup_job_files (temp_dir (self w)) job (fs w) ->
    completion_outcome job w w'
| kept (job' : RenderJob.t) :
    RenderJob.id job' = RenderJob.id job ->
    w' = on_self (write_back job') w ->
    completion_outcome job w w'.

(** Every job of the active table is registered under its own id. *)
Definition keyed_by_id (a : gmap string RenderJob.t) : Prop :=
  forall k j, a !! k = Some j -> RenderJob.id j = k.

(** The active table is no larger than the counter of running renders, and
    the counter is no larger than the configured limit. *)
Definition within_limit (m : t) : Prop :=
  (Z.of_nat (size (active_jobs m)) <= current_renders m
   /\ current_renders m <= max_concurrent_renders m)%Z.

Definition well_kept (m : t) : Prop :=
  keyed_by_id (active_jobs m) /\ within_limit m.

(** The queued jobs are waiting: pending, without a process. *)
Definition queue_waiting (m : t) : Prop :=
  forall j, j ∈ render_queue m ->
            RenderJob.status j = RenderStatus.PENDING
            /\ RenderJob.process j = None.

(** The supervisor knows no job called [job_id]: none is active, finished or
    queued under that id. *)
Definition unknown (job_id : string) (m : t) : Prop :=
  (forall k j, active_jobs m !! k = Some j ->
               k <> job_id /\ RenderJob.id j <> job_id)
  /\ completed_jobs m !! job_id = None
  /\ (forall j, j ∈ render_queue m -> RenderJob.id j <> job_id).

(** What every run keeps: the supervisor is well kept, and the launched
    jobs followed by the queued ones are in submission order. *)
Definition run_ok (r : Run) : Prop :=
  well_kept (self (world r))
  /\ launched r ++ (RenderJob.id <$> render_queue (self (world r)))
       `sublist_of` submitted r.

(** The id a submission ends up with. *)
Definition effective_id (e : OS * Event) : option string :=
  match e.2 with
  | Submit _ _ (Some i) => Some i
  | Submit _ _ None => Some ("render_" +:+ pretty (py_int (time_now e.1 * 1000)))
  | _ => None
  end.

End Supervisor.

(** ** Concrete supervisor scenarios *)

Module RenderScenario.
Import RenderManager Supervisor.

(** An operating system where every spawn succeeds, every process has
    already exited with code 0 and printed nothing. *)
Definition os_all_exit_zero : OS :=
  {| time_now := 100%Q;
     popen := fun _ => Return {| pid := 1 |};
     proc_poll := fun _ => Some 0%Z;
     proc_stderr := fun _ => "";
     proc_terminate := fun _ => Return tt |}.

Definition default_settings : Settings :=
  {| cfg_max_concurrent_renders := None;
     cfg_output_dir := None;
     cfg_temp_dir := None |}.

Definition demo_scene : SceneClass :=
  {| scene_name := "Demo"; scene_source := Some "class Demo(Scene): pass" |}.

(** One job, "job-a", submitted to a fresh supervisor and still queued. *)
Definition one_queued : World :=
  (submit_render_job os_all_exit_zero demo_scene RenderConfig.default
     (Some "job-a") (world (boot default_settings ∅))).2.

(** A job whose process was spawned: running, registered, script on disk,
    but no output file. *)
Definition running_job : RenderJob.t :=
  RenderJob.mk "job-a" demo_scene "/tmp/clipturbo_render/scene_job-a.py"
    RenderConfig.default "output/job-a.mp4" RenderStatus.RUNNING 0 (Some 90%Q)
    None None (Some {| pid := 1 |}).

Definition one_running : World :=
  {| self :=
       set_current_renders 1
         (set_active_jobs {[ "job-a" := running_job ]} (__init__ default_settings));
     fs := {[ "/tmp/clipturbo_render/scene_job-a.py" := 224%Z ]} |}.

Definition three_submissions : list (OS * Event) :=
  [ (os_all_exit_zero, Submit demo_scene RenderConfig.default (Some "job-a"));
    (os_all_exit_zero, Submit demo_scene RenderConfig.default (Some "job-b"));
    (os_all_exit_zero, Submit demo_scene RenderConfig.default (Some "job-c"));
    (os_all_exit_zero, Tick) ].

End RenderScenario.

(** * The scheduler task among other tasks

    [_execute_workflow] runs as a task of the event loop.  It suspends in
    one place, the [await] of [asyncio.gather] of a pass; while it is
    suspended the step tasks run, and so may a caller of [cancel_workflow].
    The machine below has the scheduler task of one workflow, with its
    program point and its local [executed_steps], next to the engine. *)

Module Scheduling.
Import WorkflowEngine.

Inductive Pc :=
| AtStart
| AwaitGather (ready : list string)
| Returned.

Record Task := {
  workflow_id : string;
  pc : Pc;
  executed_steps : gset string
}.

Record System := {
  engine : WorkflowEngine.t;
  task : Task
}.

Inductive Event :=
(** the scheduler task is resumed and runs to its next suspension *)
| Resume (now : Time)
(** the handler awaited by the task of a launched step is over *)
| HandlerDone (step_id : string) (run : HandlerRun)
(** somebody calls [cancel_workflow] on the workflow *)
| CancelWorkflow (os : OS).

(** The step tasks created by a pass, each up to the [await] of its
    handler. *)
Definition launch (now : Time) (ready : list string) (w : WorkflowResult.t)
  : WorkflowResult.t :=
  fold_left (fun w step_id => begin_step now step_id w) ready w.

(** From the loop condition to the next suspension or to the end. *)
Definition loop_head (now : Time) (w : WorkflowResult.t)
    (executed : gset string) : WorkflowResult.t * Pc :=
  if (size executed <? length (WorkflowResult.steps w))%nat then
    match ready_steps w executed with
    | [] => (finish now (fail_no_ready w), Returned)
    | ready => (launch now ready w, AwaitGather ready)
    end
  else (finish now w, Returned).

Definition step_status (step_id : string) (w : WorkflowResult.t)
  : option StepStatus.t :=
  WorkflowStep.status <$> WorkflowResult.find_step step_id w.

(** [gather] is over when none of the launched steps is still running. *)
Definition gather_done (ready : list string) (w : WorkflowResult.t) : bool :=
  forallb
    (fun step_id =>
       bool_decide (step_status step_id w <> Some StepStatus.RUNNING))
    ready.

Definition resume (now : Time) (w : WorkflowResult.t) (t : Task)
  : WorkflowResult.t * Task :=
  match pc t with
  | AtStart =>
      let (w, pc) :=
        loop_head now (WorkflowResult.set_status WorkflowStatus.RUNNING w) ∅ in
      (w, {| workflow_id := workflow_id t; pc := pc; executed_steps := ∅ |})
  | AwaitGather ready =>
      if gather_done ready w then
        let executed := mark_executed ready w (executed_steps t) in
        let (w, pc) := loop_head now w executed in
        (w, {| workflow_id := workflow_id t; pc := pc;
               executed_steps := executed |})
      else (w, t)
  | Returned => (w, t)
  end.

Definition handler_done (step_id : string) (run : HandlerRun)
    (w : WorkflowResult.t) (t : Task) : WorkflowResult.t :=
  match pc t with
  | AwaitGather ready =>
      if bool_decide (step_id ∈ ready)
         && bool_decide (step_status step_id w = Some StepStatus.RUNNING)
      then end_step run step_id w
      else w
  | _ => w
  end.

Definition set_workflow (workflow_id : string) (w : WorkflowResult.t)
    (e : WorkflowEngine.t) : WorkflowEngine.t :=
  {| active_workflows := <[workflow_id := w]> (active_workflows e);
     render_manager := render_manager e |}.

Definition step (s : System) (ev : Event) : System :=
  let i := workflow_id (task s) in
  match ev with
  | Resume now =>
      match active_workflows (engine s) !! i with
      | Some w =>
          let (w, t) := resume now w (task s) in
          {| engine := set_workflow i w (engine s); task := t |}
      | None => s
      end
  | HandlerDone step_id run =>
      match active_workflows (engine s) !! i with
      | Some w =>
          {| engine := set_workflow i (handler_done step_id run w (task s)) (engine s);
             task := task s |}
      | None => s
      end
  | CancelWorkflow os =>
      {| engine := (cancel_workflow os i (engine s)).2; task := task s |}
  end.

Definition run (events : list Event) (s : System) : System :=
  fold_left step events s.

(** The workflow of the scheduler task. *)
Definition workflow (s : System) : option WorkflowResult.t :=
  active_workflows (engine s) !! workflow_id (task s).

(** What the scheduler goes by: the steps of its workflow and its own
    locals. *)
Definition schedule_view (s : System)
  : option (list WorkflowStep.t) * Task :=
  (WorkflowResult.steps <$> workflow s, task s).

End Scheduling.

(** * The dependency graph of a workflow *)

(** An attribute write that leaves the id, the name and the declared
    dependencies of a step alone. *)
Definition keeps_identity (f : WorkflowStep.t -> WorkflowStep.t) : Prop :=
  forall s, WorkflowStep.id (f s) = WorkflowStep.id s
            /\ WorkflowStep.dependencies (f s) = WorkflowStep.dependencies s
            /\ WorkflowStep.name (f s) = WorkflowStep.name s.

Module Graph.

(** What of a workflow the graph is made of: the id of each step with the
    ids it declares as dependencies. *)
Definition shape (w : WorkflowResult.t) : list (string * list string) :=
  (fun s => (WorkflowStep.id s, WorkflowStep.dependencies s))
    <$> WorkflowResult.steps w.

(** [a] declares a dependency on [b]. *)
Definition depends_on (g : list (string * list string)) (a b : string) : Prop :=
  exists deps, (a, deps) ∈ g /\ b ∈ deps.

(** A dependency cycle: a step that depends on itself through one or more
    declared dependencies. *)
Definition has_cycle (w : WorkflowResult.t) : Prop :=
  exists a, tc (depends_on (shape w)) a a.

(** A dependency on a step that is not in the graph. *)
Definition has_dangling_dependency (w : WorkflowResult.t) : Prop :=
  exists a deps d, (a, deps) ∈ shape w /\ d ∈ deps /\ d ∉ (shape w).*1.

(** The steps that can ever be executed: those of the graph all of whose
    dependencies can. *)
Inductive runnable (g : list (string * list string)) : string -> Prop :=
| runnable_step (a : string) (deps : list string) :
    (a, deps) ∈ g ->
    (forall d, d ∈ deps -> runnable g d) ->
    runnable g a.

(** Every step of the graph can be executed: no cycle, no dependency on a
    step outside. *)
Definition satisfiable (w : WorkflowResult.t) : Prop :=
  forall a, a ∈ (shape w).*1 -> runnable (shape w) a.

(** What holds of [executed_steps] at the head of every pass. *)
Definition all_runnable (g : list (string * list string))
    (executed : gset string) : Prop :=
  forall a, a ∈ executed -> runnable g a.

End Graph.

(** Membership in a graph written out, and runnability of a step of such a
    graph, by following its dependencies. *)
Ltac in_graph :=
  repeat first [apply list_elem_of_here | apply list_elem_of_further].

Ltac solve_runnable :=
  eapply Graph.runnable_step;
  [ in_graph
  | let d := fresh "d" in
    let Hd := fresh "Hd" in
    intros d Hd;
    repeat (apply elem_of_cons in Hd as [-> | Hd]; [solve_runnable|]);
    inversion Hd ].

(** * Notions about one pass of the scheduler *)

Module Pass.
Import WorkflowEngine.

(** A step is settled when it is registered with a status that counts as
    executed. *)
Definition settled (w : WorkflowResult.t) (step_id : string) : Prop :=
  exists s, WorkflowResult.find_step step_id w = Some s
            /\ is_executed_status (WorkflowStep.status s) = true.

(** The tasks of a pass, run one after the other. *)
Definition run_tasks (handlers : Handlers) (now : Time) (ready : list string)
    (w : WorkflowResult.t) : WorkflowResult.t :=
  fold_left (fun w step_id => _execute_step handlers now step_id w) ready w.

(** What holds at the head of every pass on a satisfiable graph that was
    started with all its steps pending. *)
Definition on_track (w : WorkflowResult.t) (executed : gset string) : Prop :=
  WorkflowResult.distinct_ids w
  /\ Graph.satisfiable w
  /\ (forall a, a ∈ executed -> a ∈ (Graph.shape w).*1)
  /\ (forall s, s ∈ WorkflowResult.steps w -> WorkflowStep.id s ∉ executed ->
                WorkflowStep.status s = StepStatus.PENDING)
  /\ (forall s, s ∈ WorkflowResult.steps w -> WorkflowStep.id s ∈ executed ->
                is_executed_status (WorkflowStep.status s) = true).

End Pass.

(** * Concrete workflows *)

Module WorkflowScenario.
Import WorkflowEngine Scheduling.

Definition ok_run (ctx : Context) (step : WorkflowStep.t) : HandlerRun :=
  {| outcome := Return VNone;
     context_after := ctx;
     progress_after := WorkflowStep.progress step;
     finished_at := 2%Q |}.

Definition failing_run (msg : string) (ctx : Context) (step : WorkflowStep.t)
  : HandlerRun :=
  {| outcome := Raise (Exception msg);
     context_after := ctx;
     progress_after := WorkflowStep.progress step;
     finished_at := 2%Q |}.

(** Handlers of which the one for content generation raises and all the
    others return. *)
Definition generation_fails : Handlers :=
  fun key ctx step =>
    if decide (key = "content_generation")
    then failing_run "AI service unavailable" ctx step
    else ok_run ctx step.

Definition all_succeed : Handlers := fun _ ctx step => ok_run ctx step.

(** Handlers that all raise. *)
Definition all_fail : Handlers :=
  fun key ctx step => failing_run ("no " +:+ key) ctx step.

Definition tick_clock (n : nat) : Time := inject_Z (Z.of_nat n).

(** The workflow [create_video_workflow] builds for a topic. *)
Definition topic_workflow : WorkflowResult.t :=
  new_workflow 0%Q (Topic "rocq") 0%N "wf-1".

Definition empty_engine : WorkflowEngine.t :=
  {| active_workflows := ∅;
     render_manager := RenderManager.__init__ RenderScenario.default_settings |}.

Definition topic_engine : WorkflowEngine.t :=
  (create_video_workflow 0%Q (Topic "rocq") 0%N (Some "wf-1") empty_engine).2.

(** The scheduler task of "wf-1", created and not yet run. *)
Definition topic_system : System :=
  {| engine := topic_engine;
     task := {| workflow_id := "wf-1"; pc := AtStart; executed_steps := ∅ |} |}.

(** A step "lone" without dependencies, and two steps "ping" and "pong"
    that wait for each other. *)
Definition cyclic_workflow : WorkflowResult.t :=
  {| WorkflowResult.workflow_id := "wf-cyclic";
     WorkflowResult.status := WorkflowStatus.CREATED;
     WorkflowResult.steps :=
       [ WorkflowStep.new "lone" "Lone" "" "lone" [];
         WorkflowStep.new "ping" "Ping" "" "ping" ["pong"];
         WorkflowStep.new "pong" "Pong" "" "pong" ["ping"] ];
     WorkflowResult.start_time := 0%Q;
     WorkflowResult.end_time := None;
     WorkflowResult.total_duration := 0;
     WorkflowResult.output_files := [];
     WorkflowResult.error_message := None;
     WorkflowResult.context := Some ∅ |}.

Definition lone_fails : Handlers :=
  fun key ctx step =>
    if decide (key = "lone") then failing_run "boom" ctx step
    else ok_run ctx step.

(** A workflow that has run to completion. *)
Definition completed_workflow : WorkflowResult.t :=
  default topic_workflow
    (_execute_workflow all_succeed tick_clock 6 topic_workflow).

Definition completed_engine : WorkflowEngine.t :=
  {| active_workflows := {[ "wf-1" := completed_workflow ]};
     render_manager := RenderManager.__init__ RenderScenario.default_settings |}.

End WorkflowScenario.

(** * More of the render supervisor *)

Module SupervisorMore.
Import RenderManager Supervisor.

(** *** shutdown

    [shutil.rmtree(temp_dir)] removes every file below the directory; the
    cancellation of the monitor task has no state of its own here: after
    [shutdown] no pass of the monitor follows. *)
Definition rmtree (dir : string) (files : Files) : Files :=
  filter (fun kv => String.prefix (dir +:+ "/") (fst kv) = false) files.

(** [for job_id in keys: self.cancel_job(job_id)] *)
Definition cancel_all (os : OS) (keys : list string) (m : t) : t :=
  fold_left (fun m job_id => (cancel_job os job_id m).2) keys m.

Definition shutdown (os : OS) (w : World) : World :=
  {| self := cancel_all os (map_to_list (active_jobs (self w))).*1 (self w);
     fs := rmtree (temp_dir (self w)) (fs w) |}.

(** Every registered job has a process, and the process can be told to
    terminate. *)
Definition terminable (os : OS) (a : gmap string RenderJob.t) : Prop :=
  forall k j, a !! k = Some j ->
    exists p, RenderJob.process j = Some p /\ proc_terminate os p = Return tt.

(** *** render_preview *)

Definition preview_config (config : option RenderConfig.t) : RenderConfig.t :=
  match config with
  | None =>
      RenderConfig.mk RenderQuality.LOW (640, 360)%Z 30%Z "16:9" "BLACK" "mp4"
        true true []
  | Some c =>
      RenderConfig.mk RenderQuality.LOW (RenderConfig.resolution c)
        (RenderConfig.frame_rate c) (RenderConfig.aspect_ratio c)
        (RenderConfig.background_color c) (RenderConfig.output_format c)
        (RenderConfig.audio_enabled c) true (RenderConfig.custom_flags c)
  end.

Definition render_preview (os : OS) (scene_class : SceneClass)
    (config : option RenderConfig.t) (w : World) : Exc string * World :=
  let job_id := "preview_" +:+ pretty (py_int (time_now os * 1000)) in
  submit_render_job os scene_class (preview_config config) (Some job_id) w.

(** ** Notions for the properties below *)

Definition is_cancel (e : OS * Event) : bool :=
  match e.2 with
  | Cancel _ => true
  | _ => false
  end.

(** A supervisor on which nothing runs and nothing has finished, with the
    preset table of the constructor. *)
Definition idle (m : t) : Prop :=
  quality_presets m = quality_presets_literal
  /\ active_jobs m = ∅
  /\ completed_jobs m = ∅
  /\ current_renders m = 0%Z
  /\ queue_waiting m.

(** No job of the table that is running shows more than 95 percent. *)
Definition capped (a : gmap string RenderJob.t) : Prop :=
  forall k j, a !! k = Some j ->
              RenderJob.status j = RenderStatus.RUNNING ->
              (RenderJob.progress j <= 95)%Q.

Definition progress_capped (m : t) : Prop :=
  capped (active_jobs m)
  /\ (forall j, j ∈ render_queue m -> (RenderJob.progress j <= 95)%Q).

(** The only job of the active table is [job_id], its process is [p], its
    output file is not on disk, and no slot is free. *)
Definition blocked (job_id : string) (p : Popen) (output : string) (w : World)
  : Prop :=
  (exists job,
     active_jobs (self w) = {[ job_id := job ]}
     /\ RenderJob.id job = job_id
     /\ RenderJob.process job = Some p
     /\ RenderJob.output_path job = output)
  /\ fs w !! output = None
  /\ (max_concurrent_renders (self w) <= current_renders (self w))%Z.

Definition ticks (oss : list OS) (w : World) : World :=
  fold_left (fun w os => monitor_tick os w) oss w.

End SupervisorMore.

(** ** More supervisor scenarios *)

Module RenderScenarioMore.
Import RenderManager Supervisor SupervisorMore RenderScenario.

(** An operating system where every process is still running and
    terminates on request. *)
Definition os_all_running : OS :=
  {| time_now := 100%Q;
     popen := fun _ => Return {| pid := 2 |};
     proc_poll := fun _ => None;
     proc_stderr := fun _ => "";
     proc_terminate := fun _ => Return tt |}.

(** An operating system where every process has been killed. *)
Definition os_all_killed : OS :=
  {| time_now := 101%Q;
     popen := fun _ => Return {| pid := 2 |};
     proc_poll := fun _ => Some (-15)%Z;
     proc_stderr := fun _ => "terminated";
     proc_terminate := fun _ => Return tt |}.

Definition queued_job (job_id : string) : RenderJob.t :=
  RenderJob.mk job_id demo_scene
    ("/tmp/clipturbo_render/scene_" +:+ job_id +:+ ".py")
    RenderConfig.default ("output/" +:+ job_id +:+ ".mp4")
    RenderStatus.PENDING 0 None None None None.

(** A supervisor with one slot, taken by "job-a", and "job-b" waiting. *)
Definition busy_world : World :=
  {| self :=
       RenderManager.mk [queued_job "job-b"] {[ "job-a" := running_job ]} ∅
         1 1 "output" "/tmp/clipturbo_render" quality_presets_literal;
     fs := {[ "/tmp/clipturbo_render/scene_job-a.py" := 224%Z;
              "/tmp/clipturbo_render/scene_job-b.py" := 224%Z ]} |}.

Definition busy_run : Run :=
  {| world := busy_world; submitted := ["job-a"; "job-b"]; launched := ["job-a"] |}.

(** The supervisor with "job-a" running and its video written. *)
Definition rendered_run : Run :=
  {| world :=
       set_fs (<["output/job-a.mp4" := 1000%Z]> (fs one_running)) one_running;
     submitted := ["job-a"];
     launched := ["job-a"] |}.

(** A second scene, with a source text of its own. *)
Definition other_scene : SceneClass :=
  {| scene_name := "OtherScene";
     scene_source := Some "class OtherScene(Scene): pass" |}.

End RenderScenarioMore.

(** * More of the workflow engine *)

Module WorkflowMore.
Import RenderManager Supervisor WorkflowEngine.

(** *** _handle_video_rendering: the submission and the waiting loop

    [scene_class] and [render_config] are the values the first statements of
    the handler have built from the context.  The loop polls the supervisor
    and sleeps two seconds between polls; while it sleeps the other tasks
    of the event loop run: [sleeps] gives, for each sleep in turn, what
    happens to the supervisor meanwhile.  [None]: the handler is still
    waiting when [sleeps] is used up. *)

Definition progress_of (d : JobStatus) : Q :=
  match d with
  | LiveStatus _ _ p _ _ => p
  | ResultStatus _ _ p _ _ _ _ => p
  end.

Definition error_message_of (d : JobStatus) : option string :=
  match d with
  | LiveStatus _ _ _ _ e => e
  | ResultStatus _ _ _ _ _ _ e => e
  end.

(** An optional string inside an f-string. *)
Definition format_opt (x : option string) : string :=
  match x with
  | Some s => s
  | None => "None"
  end.

Record Rendering := {
  rendering_outcome : Exc PyVal;
  rendering_context : Context;
  (* step.progress *)
  rendering_progress : Q;
  rendering_run : Run
}.

Fixpoint wait_for_render (job_id : string) (sleeps : list (list (OS * Event)))
    (context : Context) (progress : Q) (r : Run) : option Rendering :=
  match get_job_status (self (world r)) job_id with
  | None =>
      Some {| rendering_outcome := Raise (Exception ("渲染任务不存在: " +:+ job_id));
              rendering_context := context;
              rendering_progress := progress;
              rendering_run := r |}
  | Some status =>
      let progress := progress_of status in
      if decide (status_of status = "completed") then
        let context := <["render_job_id" := VStr job_id]> context in
        Some {| rendering_outcome :=
                  (* status['output_file'] *)
                  match status with
                  | ResultStatus _ _ _ output_file _ _ _ => Return (VStr output_file)
                  | LiveStatus _ _ _ _ _ => Raise (KeyError "output_file")
                  end;
                rendering_context := context;
                rendering_progress := progress;
                rendering_run := r |}
      else if decide (status_of status = "failed") then
        Some {| rendering_outcome :=
                  Raise (Exception ("渲染失败: "
                                    +:+ format_opt (error_message_of status)));
                rendering_context := context;
                rendering_progress := progress;
                rendering_run := r |}
      else
        match sleeps with
        | [] => None
        | events :: sleeps =>
            wait_for_render job_id sleeps context progress (run events r)
        end
  end.

Definition _handle_video_rendering (os : OS) (scene_class : SceneClass)
    (render_config : RenderConfig.t) (sleeps : list (list (OS * Event)))
    (context : Context) (progress : Q) (r : Run) : option Rendering :=
  match submit_render_job os scene_class render_config None (world r) with
  | (Return job_id, w) =>
      wait_for_render job_id sleeps context progress
        {| world := w; submitted := submitted r ++ [job_id];
           launched := launched r |}
  | (Raise e, w) =>
      Some {| rendering_outcome := Raise e;
              rendering_context := context;
              rendering_progress := progress;
              rendering_run :=
                {| world := w; submitted := submitted r;
                   launched := launched r |} |}
  end.

(** The job the handler waits for is the one job of the supervisor: it is
    running in process [p], and nothing is queued. *)
Definition renders_alone (job : RenderJob.t) (p : Popen) (w : World) : Prop :=
  active_jobs (self w) = {[ RenderJob.id job := job ]}
  /\ RenderJob.process job = Some p
  /\ RenderJob.status job = RenderStatus.RUNNING
  /\ render_queue (self w) = [].

(** *** list_active_workflows

    The entries come in the order of the dict; the finite map keeps no
    insertion order, so the list here is in the order in which the map
    enumerates its keys. *)

Record ActiveEntry := {
  entry_id : string;
  entry_status : string;
  entry_start_time : Time;
  entry_total_duration : Q
}.

Definition is_active_status (s : WorkflowStatus.t) : bool :=
  match s with
  | WorkflowStatus.CREATED | WorkflowStatus.RUNNING => true
  | _ => false
  end.

Definition list_active_workflows (e : WorkflowEngine.t) : list ActiveEntry :=
  (fun kv : string * WorkflowResult.t =>
     {| entry_id := kv.1;
        entry_status := WorkflowStatus.value (WorkflowResult.status kv.2);
        entry_start_time := WorkflowResult.start_time kv.2;
        entry_total_duration := WorkflowResult.total_duration kv.2 |})
    <$> List.filter
          (fun kv : string * WorkflowResult.t =>
             is_active_status (WorkflowResult.status kv.2))
          (map_to_list (active_workflows e)).

(** *** cleanup_completed_workflows *)

Definition is_finished_status (s : WorkflowStatus.t) : bool :=
  match s with
  | WorkflowStatus.COMPLETED | WorkflowStatus.FAILED
  | WorkflowStatus.CANCELLED => true
  | _ => false
  end.

(** The condition of [to_remove.append(workflow_id)]; an [end_time] of
    [None] or [0.0] is falsy. *)
Definition to_remove (cutoff_time : Q) (w : WorkflowResult.t) : bool :=
  is_finished_status (WorkflowResult.status w)
  && match WorkflowResult.end_time w with
     | Some t =>
         negb (Qeq_bool t 0) && (if Qlt_le_dec t cutoff_time then true else false)
     | None => false
     end.

Definition cleanup_completed_workflows (now : Time) (max_age_hours : Z)
    (e : WorkflowEngine.t) : WorkflowEngine.t :=
  let cutoff_time := (now - inject_Z max_age_hours * 3600)%Q in
  {| active_workflows :=
       filter (fun kv => to_remove cutoff_time kv.2 = false) (active_workflows e);
     render_manager := render_manager e |}.

End WorkflowMore.

(** * Workflows whose steps form a chain *)

Module Chain.
Import WorkflowEngine.



End Chain.

(** ** More workflow scenarios *)

Module WorkflowScenarioMore.
Import WorkflowEngine WorkflowScenario.

(** The first step of the workflow built for a topic. *)
Definition generation_step : WorkflowStep.t :=
  WorkflowStep.new "content_generation" "内容生成" "使用AI生成视频内容"
    "content_generation" [].

End WorkflowScenarioMore.
(** * Properties of the render supervisor *)

Section BuildCommand.
Import RenderManager.

(** No string is a key of the table the constructor builds. *)
Lemma quality_presets_literal_no_str_key (s : string) :
  dict_get quality_presets_literal (KStr s) = None.
Proof.
  unfold quality_presets_literal; simpl.
  repeat (destruct (decide _) as [Heq | _]; [discriminate Heq |]).
  reflexivity.
Qed.

(** C3: on a supervisor built by the constructor, [_build_manim_command]
    raises [KeyError] for every job and every quality value: the preset
    table is keyed by the enum members and is indexed with the member's
    string value.  No command line is produced. *)
Theorem C3_build_command_raises_KeyError (config : Settings) (job : RenderJob.t) :
  _build_manim_command (__init__ config) job
  = Raise (KeyError (RenderQuality.value
                       (RenderConfig.quality (RenderJob.config job)))).
Proof.
  unfold _build_manim_command, dict_getitem.
  change (quality_presets (__init__ config)) with quality_presets_literal.
  rewrite quality_presets_literal_no_str_key.
  reflexivity.
Qed.

(** What the lookup gives once a preset is found under the string key: the
    preset's quality flag, with the resolution and frame rate of the
    request (the preset's own numbers are not used). *)
Lemma build_command_flags (m : t) (job : RenderJob.t) (preset : QualityPreset) :
  dict_get (quality_presets m)
    (KStr (RenderQuality.value (RenderConfig.quality (RenderJob.config job))))
  = Some preset ->
  exists rest,
    _build_manim_command m job
    = Return
        ([ "manim"; RenderJob.scene_file job; "RenderScene";
           "--quality=" +:+ preset_quality preset;
           "--resolution="
             +:+ pretty (fst (RenderConfig.resolution (RenderJob.config job)))
             +:+ ","
             +:+ pretty (snd (RenderConfig.resolution (RenderJob.config job)));
           "--frame_rate="
             +:+ pretty (RenderConfig.frame_rate (RenderJob.config job));
           "--output_file=" +:+ RenderJob.output_path job ] ++ rest).
Proof.
  intros Hget.
  unfold _build_manim_command, dict_getitem. rewrite Hget. simpl.
  destruct (RenderConfig.preview_mode _), (truthy_str _);
    rewrite <- ?app_assoc; eexists; reflexivity.
Qed.

End BuildCommand.

(** ** How one finalization changes the supervisor *)

Section Finalization.
Import RenderManager Supervisor.

Lemma release_job_self (job : RenderJob.t) (w : World) :
  self (release_job job w)
  = set_current_renders (current_renders (self w) - 1)
      (set_active_jobs (delete (RenderJob.id job) (active_jobs (self w))) (self w)).
Proof. reflexivity. Qed.

Lemma handle_job_completion_outcome (os : OS) (job : RenderJob.t) (w : World) :
  completion_outcome job w (_handle_job_completion os job w).
Proof.
  unfold _handle_job_completion.
  destruct (RenderJob.process _) as [p|] eqn:Hp; simpl in Hp.
  - destruct (decide _) as [Hrc|Hrc].
    + destruct (_create_render_result _ _) as [result|e] eqn:Hres.
      * assert (RenderResult.job_id result = RenderJob.id job) as Hid.
        { unfold _create_render_result, bindE in Hres.
          repeat case_match; simplify_eq; done. }
        apply (released _ _ _ (Some result)); [done|done| |done].
        simpl. unfold record_result. simpl. by rewrite Hid.
      * by apply (kept _ _ _
          (RenderJob.set_progress 100
             (RenderJob.set_status RenderStatus.COMPLETED
                (RenderJob.set_end_time (Some (time_now os)) job)))).
    + by apply (released _ _ _ (Some (failed_result
        (RenderJob.set_error_message
           (Some (str_or (proc_stderr os p) "渲染进程异常退出"))
           (RenderJob.set_status RenderStatus.FAILED
              (RenderJob.set_end_time (Some (time_now os)) job)))))).
  - by apply (released _ _ _ None).
Qed.

Lemma write_back_queue (job : RenderJob.t) (m : t) :
  render_queue (write_back job m) = render_queue m.
Proof. unfold write_back. by destruct (active_jobs m !! RenderJob.id job). Qed.

Lemma write_back_max (job : RenderJob.t) (m : t) :
  max_concurrent_renders (write_back job m) = max_concurrent_renders m.
Proof. unfold write_back. by destruct (active_jobs m !! RenderJob.id job). Qed.

Lemma write_back_current (job : RenderJob.t) (m : t) :
  current_renders (write_back job m) = current_renders m.
Proof. unfold write_back. by destruct (active_jobs m !! RenderJob.id job). Qed.

Lemma write_back_completed (job : RenderJob.t) (m : t) :
  completed_jobs (write_back job m) = completed_jobs m.
Proof. unfold write_back. by destruct (active_jobs m !! RenderJob.id job). Qed.

Lemma write_back_lookup_ne (job : RenderJob.t) (m : t) (k : string) :
  k <> RenderJob.id job ->
  active_jobs (write_back job m) !! k = active_jobs m !! k.
Proof.
  intros Hne. unfold write_back. destruct (active_jobs m !! RenderJob.id job); [|done].
  simpl. by rewrite lookup_insert_ne.
Qed.

Lemma write_back_size (job : RenderJob.t) (m : t) :
  size (active_jobs (write_back job m)) = size (active_jobs m).
Proof.
  unfold write_back. destruct (active_jobs m !! RenderJob.id job) eqn:Hl; [|done].
  simpl. by rewrite map_size_insert_Some.
Qed.

Lemma write_back_keyed (job : RenderJob.t) (m : t) :
  keyed_by_id (active_jobs m) -> keyed_by_id (active_jobs (write_back job m)).
Proof.
  intros Hk k j. unfold write_back. destruct (active_jobs m !! RenderJob.id job) eqn:Hl; [|apply Hk].
  simpl. rewrite lookup_insert. case_decide; [|apply Hk].
  intros [= <-]. done.
Qed.

Lemma write_back_well_kept (job : RenderJob.t) (m : t) :
  well_kept m -> well_kept (write_back job m).
Proof.
  intros [Hk [Hs Hc]]. split; [by apply write_back_keyed|].
  unfold within_limit.
  by rewrite write_back_size, write_back_current, write_back_max.
Qed.

Lemma handle_job_completion_static (os : OS) (job : RenderJob.t) (w : World) :
  let w' := _handle_job_completion os job w in
  render_queue (self w') = render_queue (self w)
  /\ max_concurrent_renders (self w') = max_concurrent_renders (self w)
  /\ temp_dir (self w') = temp_dir (self w)
  /\ quality_presets (self w') = quality_presets (self w).
Proof.
  unfold _handle_job_completion.
  repeat (first [ destruct (RenderJob.process _)
                | destruct (decide _)
                | destruct (_create_render_result _ _) ]; simpl);
    unfold write_back; simpl; try case_match; done.
Qed.

Lemma handle_job_completion_lookup_ne (os : OS) (job : RenderJob.t) (w : World)
    (k : string) :
  k <> RenderJob.id job ->
  active_jobs (self (_handle_job_completion os job w)) !! k
  = active_jobs (self w) !! k.
Proof.
  intros Hne.
  destruct (handle_job_completion_outcome os job w) as [r Ha _ _ _|j' Hid ->].
  - rewrite Ha. by apply lookup_delete_ne.
  - simpl. apply write_back_lookup_ne. by rewrite Hid.
Qed.

Lemma handle_job_completion_well_kept (os : OS) (job : RenderJob.t) (w : World) :
  well_kept (self w) ->
  is_Some (active_jobs (self w) !! RenderJob.id job) ->
  well_kept (self (_handle_job_completion os job w)).
Proof.
  intros [Hk [Hs Hc]] Hin.
  pose proof (handle_job_completion_static os job w) as (_ & Hmax & _).
  destruct (handle_job_completion_outcome os job w) as [r Ha Hcur _ _|j' Hid Hw].
  - split.
    + intros k j. rewrite Ha. intros [_ Hl]%lookup_delete_Some. by apply Hk.
    + unfold within_limit. rewrite Ha, Hcur, Hmax.
      pose proof (map_size_delete_Some _ (active_jobs (self w)) Hin) as Hsz.
      assert (size (active_jobs (self w)) <> 0%nat) as Hnz.
      { destruct Hin as [j Hj]. intros Hz%map_size_empty_iff.
        by rewrite Hz, lookup_empty in Hj. }
      lia.
  - rewrite Hw. simpl. by apply write_back_well_kept.
Qed.

End Finalization.

(** ** Launching *)

Section Launching.
Import RenderManager Supervisor.

Lemma start_render_job_static (os : OS) (job : RenderJob.t) (w : World) :
  let w' := _start_render_job os job w in
  render_queue (self w') = render_queue (self w)
  /\ max_concurrent_renders (self w') = max_concurrent_renders (self w).
Proof.
  unfold _start_render_job.
  destruct (bindE _ _) as [p|e]; [done|].
  match goal with
  | |- context [_handle_job_completion os ?j ?w0] =>
      pose proof (handle_job_completion_static os j w0) as (Hq & Hm & _)
  end.
  cbv zeta. rewrite Hq, Hm. done.
Qed.

Lemma register_job_well_kept (job : RenderJob.t) (m : t) :
  well_kept m ->
  (current_renders m < max_concurrent_renders m)%Z ->
  well_kept (set_current_renders (current_renders m + 1) (register_job job m)).
Proof.
  intros [Hk [Hs Hc]] Hlt. split.
  - intros k j. simpl. rewrite lookup_insert. case_decide; [|apply Hk].
    by intros [= <-].
  - unfold within_limit. simpl.
    pose proof (map_size_insert (RenderJob.id job) job (active_jobs m)) as Hsz.
    destruct (active_jobs m !! RenderJob.id job); simpl in Hsz; lia.
Qed.

Lemma register_job_again_well_kept (job : RenderJob.t) (m : t) :
  well_kept m ->
  is_Some (active_jobs m !! RenderJob.id job) ->
  well_kept (register_job job m).
Proof.
  intros [Hk [Hs Hc]] Hin. split.
  - intros k j. simpl. rewrite lookup_insert. case_decide; [|apply Hk].
    by intros [= <-].
  - unfold within_limit. simpl. by rewrite map_size_insert_Some.
Qed.

(** A launch keeps the supervisor within its limit when a slot is free. *)
Lemma start_render_job_well_kept (os : OS) (job : RenderJob.t) (w : World) :
  well_kept (self w) ->
  (current_renders (self w) < max_concurrent_renders (self w))%Z ->
  well_kept (self (_start_render_job os job w)).
Proof.
  intros Hw Hlt. unfold _start_render_job.
  set (job1 := RenderJob.set_start_time _ _).
  pose proof (register_job_well_kept job1 (self w) Hw Hlt) as Hw1.
  assert (is_Some (active_jobs
                     (set_current_renders (current_renders (self w) + 1)
                        (register_job job1 (self w))) !! RenderJob.id job)) as Hin.
  { simpl. change (RenderJob.id job) with (RenderJob.id job1).
    rewrite lookup_insert_eq. by eexists. }
  destruct (bindE _ _) as [p|e].
  - simpl. by apply register_job_again_well_kept.
  - apply handle_job_completion_well_kept; simpl.
    + by apply register_job_again_well_kept.
    + rewrite lookup_insert_eq. by eexists.
Qed.

(** The loop of [_start_pending_jobs] takes the jobs it starts from the head
    of the queue, in queue order, and leaves the rest queued as it was. *)
Lemma start_pending_loop_prefix (os : OS) (queue : list RenderJob.t) :
  forall w,
    render_queue (self w) = queue ->
    (start_pending_loop os queue w).1
      ++ render_queue (self (start_pending_loop os queue w).2)
    = queue.
Proof.
  induction queue as [|job rest IH]; intros w Hq; simpl.
  - by rewrite Hq.
  - destruct (_ <? _)%Z; simpl; [|by rewrite Hq].
    destruct (start_pending_loop os rest _) as [started w'] eqn:Hloop.
    simpl. f_equal.
    specialize (IH (_start_render_job os job (on_self (set_render_queue rest) w))).
    rewrite Hloop in IH. apply IH.
    by rewrite (proj1 (start_render_job_static os job _)).
Qed.

Lemma start_pending_loop_well_kept (os : OS) (queue : list RenderJob.t) :
  forall w,
    well_kept (self w) ->
    well_kept (self (start_pending_loop os queue w).2).
Proof.
  induction queue as [|job rest IH]; intros w Hw; simpl; [done|].
  destruct (_ <? _)%Z eqn:Hlt; simpl; [|done].
  destruct (start_pending_loop os rest _) as [started w'] eqn:Hloop.
  simpl.
  specialize (IH (_start_render_job os job (on_self (set_render_queue rest) w))).
  rewrite Hloop in IH. apply IH.
  apply start_render_job_well_kept; simpl; [done|lia].
Qed.

Lemma start_pending_loop_max (os : OS) (queue : list RenderJob.t) :
  forall w,
    max_concurrent_renders (self (start_pending_loop os queue w).2)
    = max_concurrent_renders (self w).
Proof.
  induction queue as [|job rest IH]; intros w; simpl; [done|].
  destruct (_ <? _)%Z; simpl; [|done].
  destruct (start_pending_loop os rest _) as [started w'] eqn:Hloop.
  simpl.
  specialize (IH (_start_render_job os job (on_self (set_render_queue rest) w))).
  rewrite Hloop in IH. simpl in IH. rewrite IH.
  by rewrite (proj2 (start_render_job_static os job _)).
Qed.

End Launching.

(** ** The pass over the active jobs *)

Section Polling.
Import RenderManager Supervisor.

Lemma monitor_job_static (os : OS) (w : World) (entry : string * RenderJob.t) :
  let w' := monitor_job os w entry in
  render_queue (self w') = render_queue (self w)
  /\ max_concurrent_renders (self w') = max_concurrent_renders (self w).
Proof.
  unfold monitor_job. destruct (RenderJob.process _); [|done].
  destruct (proc_poll _ _).
  - pose proof (handle_job_completion_static os entry.2 w) as (? & ? & _). done.
  - simpl. by rewrite write_back_queue, write_back_max.
Qed.

Lemma monitor_job_lookup_ne (os : OS) (w : World) (entry : string * RenderJob.t)
    (k : string) :
  k <> RenderJob.id entry.2 ->
  active_jobs (self (monitor_job os w entry)) !! k = active_jobs (self w) !! k.
Proof.
  intros Hne. unfold monitor_job. destruct (RenderJob.process _) eqn:Hp; [|done].
  destruct (proc_poll _ _).
  - by apply handle_job_completion_lookup_ne.
  - simpl. apply write_back_lookup_ne.
    unfold _update_job_progress. rewrite Hp.
    by repeat case_match.
Qed.

Lemma monitor_job_well_kept (os : OS) (w : World) (entry : string * RenderJob.t) :
  well_kept (self w) ->
  is_Some (active_jobs (self w) !! RenderJob.id entry.2) ->
  well_kept (self (monitor_job os w entry)).
Proof.
  intros Hw Hin. unfold monitor_job. destruct (RenderJob.process _); [|done].
  destruct (proc_poll _ _).
  - by apply handle_job_completion_well_kept.
  - simpl. by apply write_back_well_kept.
Qed.

Lemma poll_fold_well_kept (os : OS) (entries : list (string * RenderJob.t)) :
  forall w,
    well_kept (self w) ->
    NoDup entries.*1 ->
    (forall k j, (k, j) ∈ entries ->
                 RenderJob.id j = k /\ is_Some (active_jobs (self w) !! k)) ->
    well_kept (self (fold_left (monitor_job os) entries w)).
Proof.
  induction entries as [|[k j] entries IH]; intros w Hw Hnd Hin; simpl; [done|].
  apply NoDup_cons in Hnd as [Hk Hnd].
  destruct (Hin k j) as [Hid Hsome]; [left|].
  apply IH; [|done|].
  - apply monitor_job_well_kept; [done|]. simpl. by rewrite Hid.
  - intros k' j' Hel.
    destruct (Hin k' j') as [Hid' Hsome']; [by right|].
    split; [done|].
    rewrite monitor_job_lookup_ne; [done|].
    simpl. rewrite Hid. intros ->.
    apply Hk. apply list_elem_of_fmap. by exists (k, j').
Qed.

Lemma poll_fold_static (os : OS) (entries : list (string * RenderJob.t)) :
  forall w,
    render_queue (self (fold_left (monitor_job os) entries w))
    = render_queue (self w)
    /\ max_concurrent_renders (self (fold_left (monitor_job os) entries w))
       = max_concurrent_renders (self w).
Proof.
  induction entries as [|e entries IH]; intros w; simpl; [done|].
  destruct (IH (monitor_job os w e)) as [-> ->].
  apply monitor_job_static.
Qed.

Lemma poll_active_jobs_well_kept (os : OS) (w : World) :
  well_kept (self w) -> well_kept (self (poll_active_jobs os w)).
Proof.
  intros Hw. apply poll_fold_well_kept; [done| |].
  - apply NoDup_fst_map_to_list.
  - intros k j Hel%elem_of_map_to_list. split.
    + by apply (proj1 Hw).
    + by eexists.
Qed.

End Polling.

(** ** Requests: submit and cancel *)

Section Requests.
Import RenderManager Supervisor.

Lemma remove_queued_sublist (job_id : string) (queue queue' : list RenderJob.t) :
  remove_queued job_id queue = Some queue' -> queue' `sublist_of` queue.
Proof.
  revert queue'. induction queue as [|job rest IH]; intros queue'; simpl; [done|].
  destruct (decide _).
  - intros [= <-]. by apply sublist_cons.
  - destruct (remove_queued job_id rest) as [rest'|]; simpl; [|done].
    intros [= <-]. apply sublist_skip. by apply IH.
Qed.

(** The first queued job with the id is the one that goes. *)
Lemma remove_queued_first (job_id : string) (before after : list RenderJob.t)
    (job : RenderJob.t) :
  (forall j, j ∈ before -> RenderJob.id j <> job_id) ->
  RenderJob.id job = job_id ->
  remove_queued job_id (before ++ job :: after) = Some (before ++ after).
Proof.
  intros Hbefore Hid. induction before as [|b before IH]; simpl.
  - by rewrite decide_True.
  - rewrite decide_False; [|apply Hbefore; left].
    rewrite IH; [done|]. intros j Hj. apply Hbefore. by right.
Qed.

Lemma cancel_queued_static (job_id : string) (m : t) :
  active_jobs (cancel_queued job_id m).2 = active_jobs m
  /\ current_renders (cancel_queued job_id m).2 = current_renders m
  /\ max_concurrent_renders (cancel_queued job_id m).2 = max_concurrent_renders m
  /\ completed_jobs (cancel_queued job_id m).2 = completed_jobs m
  /\ render_queue (cancel_queued job_id m).2 `sublist_of` render_queue m.
Proof.
  unfold cancel_queued.
  destruct (remove_queued _ _) as [queue|] eqn:Hq; simpl; repeat split; try done.
  by eapply remove_queued_sublist.
Qed.

Lemma cancel_job_queue (os : OS) (job_id : string) (m : t) :
  render_queue (cancel_job os job_id m).2 `sublist_of` render_queue m.
Proof.
  unfold cancel_job.
  repeat case_match; simpl; try done; apply cancel_queued_static.
Qed.

Lemma cancel_job_well_kept (os : OS) (job_id : string) (m : t) :
  well_kept m -> well_kept (cancel_job os job_id m).2.
Proof.
  intros Hw. pose proof Hw as [Hk [Hs Hc]].
  pose proof (cancel_queued_static job_id m) as (Ha & Hcur & Hmax & _).
  assert (well_kept (cancel_queued job_id m).2) as Hq.
  { unfold well_kept, within_limit. by rewrite Ha, Hcur, Hmax. }
  unfold cancel_job.
  destruct (active_jobs m !! job_id) as [job|] eqn:Hjob; [|done].
  destruct (RenderJob.process job); [|done].
  destruct (proc_terminate os _); simpl; [|done].
  split.
  - intros k j. simpl. rewrite lookup_insert. case_decide; [|apply Hk].
    intros [= <-]. simpl. subst k. by apply Hk.
  - unfold within_limit. simpl. by rewrite map_size_insert_Some.
Qed.

Lemma submit_render_job_cases (os : OS) (scene_class : SceneClass)
    (config : RenderConfig.t) (job_id : option string) (w : World) :
  let res := submit_render_job os scene_class config job_id w in
  match res.1 with
  | Return i =>
      Some i = effective_id (os, Submit scene_class config job_id)
      /\ exists job,
           RenderJob.id job = i
           /\ RenderJob.status job = RenderStatus.PENDING
           /\ RenderJob.process job = None
           /\ self res.2
              = set_render_queue (render_queue (self w) ++ [job]) (self w)
  | Raise _ => res.2 = w
  end.
Proof.
  unfold submit_render_job, _create_scene_file.
  destruct (scene_source scene_class); simpl; [|done].
  split; [by destruct job_id|].
  eexists. split; [|split; [|split; [|reflexivity]]]; reflexivity.
Qed.

End Requests.

(** ** Invariants of a run *)

Section Runs.
Import RenderManager Supervisor.

Lemma step_run_ok (r : Run) (e : OS * Event) : run_ok r -> run_ok (step r e).
Proof.
  intros [Hw Hsub]. destruct e as [os ev]. unfold step. simpl.
  destruct ev as [scene_class config job_id|job_id| | |files]; simpl.
  - pose proof (submit_render_job_cases os scene_class config job_id (world r))
      as Hcases.
    destruct (submit_render_job _ _ _ _ _) as [[i|e] w']; simpl in *.
    + destruct Hcases as (_ & job & Hid & _ & _ & Hself). split; simpl.
      * rewrite Hself. done.
      * rewrite Hself. simpl. rewrite fmap_app, app_assoc. simpl. rewrite Hid.
        by apply sublist_app.
    + by subst w'.
  - split; simpl.
    + by apply cancel_job_well_kept.
    + etrans; [|exact Hsub].
      apply sublist_app; [done|].
      apply fmap_sublist, cancel_job_queue.
  - unfold _start_pending_jobs, started_by.
    pose proof (poll_active_jobs_well_kept os (world r) Hw) as Hw'.
    pose proof (poll_fold_static os (map_to_list (active_jobs (self (world r))))
                  (world r)) as [Hq _].
    fold (poll_active_jobs os (world r)) in Hq.
    pose proof (start_pending_loop_prefix os _ (poll_active_jobs os (world r))
                  eq_refl) as Hpre.
    split; simpl.
    + by apply start_pending_loop_well_kept.
    + rewrite <- app_assoc, <- fmap_app, Hpre, Hq. done.
  - done.
  - done.
Qed.

Lemma run_run_ok (events : list (OS * Event)) :
  forall r, run_ok r -> run_ok (run events r).
Proof.
  induction events as [|e events IH]; intros r Hr; simpl; [done|].
  apply IH. by apply step_run_ok.
Qed.

Lemma boot_run_ok (config : Settings) (files : Files) :
  (0 <= max_concurrent_renders (__init__ config))%Z ->
  run_ok (boot config files).
Proof.
  intros Hmax. repeat split; simpl; done.
Qed.

Lemma step_queue_waiting (r : Run) (e : OS * Event) :
  queue_waiting (self (world r)) -> queue_waiting (self (world (step r e))).
Proof.
  intros Hq. destruct e as [os ev]. unfold step. simpl.
  destruct ev as [scene_class config job_id|job_id| | |files]; simpl.
  - pose proof (submit_render_job_cases os scene_class config job_id (world r))
      as Hcases.
    destruct (submit_render_job _ _ _ _ _) as [[i|e] w']; simpl in *.
    + destruct Hcases as (_ & job & _ & Hst & Hproc & ->). simpl.
      intros j [Hj|Hj%list_elem_of_singleton]%elem_of_app; [by apply Hq|].
      by subst j.
    + by subst w'.
  - intros j Hj. apply Hq.
    by eapply sublist_subseteq; [apply (cancel_job_queue os job_id)|].
  - pose proof (poll_fold_static os (map_to_list (active_jobs (self (world r))))
                  (world r)) as [Hqueue _].
    fold (poll_active_jobs os (world r)) in Hqueue.
    pose proof (start_pending_loop_prefix os _ (poll_active_jobs os (world r))
                  eq_refl) as Hpre.
    unfold _start_pending_jobs. intros j Hj. apply Hq.
    rewrite <- Hqueue, <- Hpre. apply elem_of_app. by right.
  - done.
  - done.
Qed.

Lemma run_queue_waiting (events : list (OS * Event)) :
  forall r,
    queue_waiting (self (world r)) ->
    queue_waiting (self (world (run events r))).
Proof.
  induction events as [|e events IH]; intros r Hr; simpl; [done|].
  apply IH. by apply step_queue_waiting.
Qed.

(** While the queued jobs are waiting, a status of "running" is the status
    of a job of the active table. *)
Lemma running_status_is_active (m : t) (job_id : string) (d : JobStatus) :
  queue_waiting m ->
  get_job_status m job_id = Some d ->
  status_of d = "running" ->
  is_Some (active_jobs m !! job_id).
Proof.
  intros Hq. unfold get_job_status.
  destruct (active_jobs m !! job_id) as [job|]; [by eexists|].
  destruct (completed_jobs m !! job_id) as [result|].
  { intros [= <-]. simpl. by destruct (RenderResult.success result). }
  unfold find_queued.
  destruct (find _ _) as [job|] eqn:Hfind; [|done].
  apply find_some in Hfind as [Hin%list_elem_of_In _].
  destruct (Hq job Hin) as [Hst _].
  intros [= <-]. simpl. by rewrite Hst.
Qed.

(** C4: the supervisor stays within its limit and launches in the order of
    submission.  Take any state in which the active jobs are registered
    under their ids, the active table is no larger than the counter, the
    counter is no larger than the configured limit, and the queued jobs are
    waiting, in the order of their submission after the jobs launched so
    far: the state the constructor leaves is one ([boot_run_ok]), a state
    with jobs running and others queued is another.  From there on, whatever
    is submitted, cancelled or polled and whatever the processes do, the
    jobs reported as running are jobs of the active table, the active table
    is never larger than the counter of running renders, and the counter
    never exceeds the configured limit; the jobs launched so far followed by
    the jobs still queued appear in the order of their submission; and each
    pass of the dispatcher launches a prefix of the queue, head first,
    leaving the rest queued in order. *)
Theorem C4_running_within_limit_fifo_launch
    (r0 : Run) (events : list (OS * Event)) :
  run_ok r0 ->
  queue_waiting (self (world r0)) ->
  let r := run events r0 in
  (forall job_id d,
     get_job_status (self (world r)) job_id = Some d ->
     status_of d = "running" ->
     is_Some (active_jobs (self (world r)) !! job_id))
  /\ within_limit (self (world r))
  /\ launched r ++ (RenderJob.id <$> render_queue (self (world r)))
       `sublist_of` submitted r
  /\ forall os,
       started_by os (poll_active_jobs os (world r))
         ++ render_queue (self (monitor_tick os (world r)))
       = render_queue (self (world r)).
Proof.
  intros Hok Hwaiting r.
  destruct (run_run_ok events r0 Hok) as [[_ Hlimit] Hsub].
  split; [|split; [exact Hlimit|split; [exact Hsub|]]].
  - intros job_id d. apply running_status_is_active.
    by apply run_queue_waiting.
  - intros os. unfold monitor_tick, _start_pending_jobs, started_by.
    rewrite start_pending_loop_prefix; [|done].
    apply (poll_fold_static os).
Qed.

End Runs.

(** ** A job the supervisor does not know stays unknown *)

Section Unknown.
Import RenderManager Supervisor.

Lemma unknown_status (job_id : string) (m : t) :
  unknown job_id m -> get_job_status m job_id = None.
Proof.
  intros (Ha & Hc & Hq). unfold get_job_status.
  destruct (active_jobs m !! job_id) as [j|] eqn:Hj.
  { by destruct (Ha _ _ Hj). }
  rewrite Hc. unfold find_queued.
  destruct (find _ _) as [j|] eqn:Hf; [|done].
  apply find_some in Hf as [Hin Hid%bool_decide_eq_true].
  apply list_elem_of_In in Hin. by destruct (Hq j Hin).
Qed.

Lemma strangers_insert (job_id k0 : string) (j0 : RenderJob.t)
    (a : gmap string RenderJob.t) :
  (forall k j, a !! k = Some j -> k <> job_id /\ RenderJob.id j <> job_id) ->
  k0 <> job_id ->
  RenderJob.id j0 <> job_id ->
  forall k j, <[k0 := j0]> a !! k = Some j ->
              k <> job_id /\ RenderJob.id j <> job_id.
Proof.
  intros Ha Hk Hj k j. rewrite lookup_insert. case_decide.
  - intros [= <-]. by subst.
  - apply Ha.
Qed.

(** [unknown] only looks at the three job containers. *)
Lemma unknown_ext (job_id : string) (m m' : t) :
  active_jobs m' = active_jobs m ->
  completed_jobs m' = completed_jobs m ->
  render_queue m' = render_queue m ->
  unknown job_id m -> unknown job_id m'.
Proof. unfold unknown. by intros -> -> ->. Qed.

Lemma unknown_write_back (job_id : string) (job : RenderJob.t) (m : t) :
  unknown job_id m -> unknown job_id (write_back job m).
Proof.
  intros (Ha & Hc & Hq). unfold write_back.
  destruct (active_jobs m !! RenderJob.id job) as [j0|] eqn:Hj0; [|done].
  destruct (Ha _ _ Hj0) as [Hne _].
  split; [|done]. simpl. by apply strangers_insert.
Qed.

Lemma unknown_handle_job_completion (job_id : string) (os : OS)
    (job : RenderJob.t) (w : World) :
  unknown job_id (self w) ->
  RenderJob.id job <> job_id ->
  unknown job_id (self (_handle_job_completion os job w)).
Proof.
  intros Hu Hne. pose proof Hu as (Ha & Hc & Hq).
  pose proof (handle_job_completion_static os job w) as (Hqueue & _).
  destruct (handle_job_completion_outcome os job w) as [r Hact _ Hcomp _|j' Hid ->].
  - split; [|split].
    + intros k j. rewrite Hact. intros [_ Hl]%lookup_delete_Some. by eapply Ha.
    + rewrite Hcomp. destruct r; [|done]. by rewrite lookup_insert_ne.
    + by rewrite Hqueue.
  - simpl. by apply unknown_write_back.
Qed.

Lemma unknown_register_job (job_id : string) (job : RenderJob.t) (m : t) :
  unknown job_id m ->
  RenderJob.id job <> job_id ->
  unknown job_id (register_job job m).
Proof.
  intros (Ha & Hc & Hq) Hne.
  split; [|done]. simpl. by apply strangers_insert.
Qed.

Lemma unknown_start_render_job (job_id : string) (os : OS)
    (job : RenderJob.t) (w : World) :
  unknown job_id (self w) ->
  RenderJob.id job <> job_id ->
  unknown job_id (self (_start_render_job os job w)).
Proof.
  intros Hu Hne. unfold _start_render_job.
  set (job1 := RenderJob.set_start_time _ _).
  assert (unknown job_id
            (set_current_renders (current_renders (self w) + 1)
               (register_job job1 (self w)))) as Hu1.
  { eapply unknown_ext; [..|by apply (unknown_register_job job_id job1)]; done. }
  destruct (bindE _ _) as [p|e]; simpl.
  - by apply (unknown_register_job job_id (RenderJob.set_process (Some p) job1)).
  - apply unknown_handle_job_completion; [|done].
    simpl. by apply (unknown_register_job job_id
      (RenderJob.set_error_message (Some (str_exc e))
         (RenderJob.set_status RenderStatus.FAILED job1))).
Qed.

Lemma unknown_start_pending_loop (job_id : string) (os : OS)
    (queue : list RenderJob.t) :
  forall w,
    unknown job_id (self w) ->
    (forall j, j ∈ queue -> RenderJob.id j <> job_id) ->
    unknown job_id (self (start_pending_loop os queue w).2).
Proof.
  induction queue as [|job rest IH]; intros w Hu Hqueue; simpl; [done|].
  destruct (_ <? _)%Z; simpl; [|done].
  destruct (start_pending_loop os rest _) as [started w'] eqn:Hloop. simpl.
  specialize (IH (_start_render_job os job (on_self (set_render_queue rest) w))).
  rewrite Hloop in IH. apply IH.
  - apply unknown_start_render_job; [|apply Hqueue; left].
    destruct Hu as (Ha & Hc & Hq). split; [done|]. split; [done|].
    simpl. intros j Hj. apply Hqueue. by right.
  - intros j Hj. apply Hqueue. by right.
Qed.

Lemma unknown_monitor_job (job_id : string) (os : OS) (w : World)
    (entry : string * RenderJob.t) :
  unknown job_id (self w) ->
  RenderJob.id entry.2 <> job_id ->
  unknown job_id (self (monitor_job os w entry)).
Proof.
  intros Hu Hne. unfold monitor_job.
  destruct (RenderJob.process _); [|done].
  destruct (proc_poll _ _).
  - by apply unknown_handle_job_completion.
  - simpl. by apply unknown_write_back.
Qed.

Lemma unknown_poll_fold (job_id : string) (os : OS)
    (entries : list (string * RenderJob.t)) :
  forall w,
    unknown job_id (self w) ->
    (forall e, e ∈ entries -> RenderJob.id e.2 <> job_id) ->
    unknown job_id (self (fold_left (monitor_job os) entries w)).
Proof.
  induction entries as [|e entries IH]; intros w Hu He; simpl; [done|].
  apply IH.
  - apply unknown_monitor_job; [done|]. apply He. left.
  - intros e' He'. apply He. by right.
Qed.

Lemma unknown_monitor_tick (job_id : string) (os : OS) (w : World) :
  unknown job_id (self w) -> unknown job_id (self (monitor_tick os w)).
Proof.
  intros Hu.
  assert (unknown job_id (self (poll_active_jobs os w))) as Hp.
  { apply unknown_poll_fold; [done|].
    intros [k j] Hel%elem_of_map_to_list. simpl.
    by destruct (proj1 Hu _ _ Hel). }
  unfold monitor_tick, _start_pending_jobs.
  apply unknown_start_pending_loop; [done|]. apply Hp.
Qed.

Lemma unknown_cancel_job (job_id : string) (os : OS) (other : string) (m : t) :
  unknown job_id m -> unknown job_id (cancel_job os other m).2.
Proof.
  intros Hu. pose proof Hu as (Ha & Hc & Hq).
  assert (unknown job_id (cancel_queued other m).2) as Hcq.
  { pose proof (cancel_queued_static other m) as (Hact & _ & _ & Hcomp & Hsub).
    split; [|split].
    - by rewrite Hact.
    - by rewrite Hcomp.
    - intros j Hj. apply Hq. by eapply sublist_subseteq. }
  unfold cancel_job.
  destruct (active_jobs m !! other) as [job|] eqn:Hjob; [|done].
  destruct (RenderJob.process job); [|done].
  destruct (proc_terminate os _); simpl; [|done].
  destruct (Ha _ _ Hjob) as [Hne1 Hne2].
  split; [|done]. simpl. by apply strangers_insert.
Qed.

Lemma unknown_step (job_id : string) (r : Run) (e : OS * Event) :
  unknown job_id (self (world r)) ->
  effective_id e <> Some job_id ->
  unknown job_id (self (world (step r e))).
Proof.
  intros Hu Hid. destruct e as [os ev]. unfold step. simpl.
  destruct ev as [scene_class config i|other| | |files]; simpl.
  - pose proof (submit_render_job_cases os scene_class config i (world r))
      as Hcases.
    destruct (submit_render_job _ _ _ _ _) as [[i'|e] w']; simpl in *.
    + destruct Hcases as (Heff & job & Hjob & _ & _ & ->).
      destruct Hu as (Ha & Hc & Hq). split; [done|]. split; [done|]. simpl.
      intros j [Hj|Hj%list_elem_of_singleton]%elem_of_app; [by apply Hq|].
      subst j. rewrite Hjob. intros ->. by rewrite Heff in Hid.
    + by subst w'.
  - by apply unknown_cancel_job.
  - by apply unknown_monitor_tick.
  - destruct Hu as (Ha & Hc & Hq). by split.
  - done.
Qed.

Lemma unknown_run (job_id : string) (events : list (OS * Event)) :
  forall r,
    unknown job_id (self (world r)) ->
    (forall e, e ∈ events -> effective_id e <> Some job_id) ->
    unknown job_id (self (world (run events r))).
Proof.
  induction events as [|e events IH]; intros r Hu He; simpl; [done|].
  apply IH.
  - apply unknown_step; [done|]. apply He. left.
  - intros e' He'. apply He. by right.
Qed.

End Unknown.

(** ** The claims about the supervisor *)

Section SupervisorClaims.
Import RenderManager Supervisor RenderScenario RenderScenarioMore.

Lemma C4_running_within_limit_fifo_launch_witness :
  let r :=
    run [ (os_all_running,
           Submit demo_scene RenderConfig.default (Some "job-c"));
          (os_all_running, Tick) ]
      busy_run in
  (* "job-a" is running, the one slot is taken, "job-b" and "job-c" wait *)
  (exists d,
     get_job_status (self (world r)) "job-a" = Some d
     /\ status_of d = "running")
  /\ current_renders (self (world r)) = 1%Z
  /\ max_concurrent_renders (self (world r)) = 1%Z
  /\ (RenderJob.id <$> render_queue (self (world r))) = ["job-b"; "job-c"]
  /\ launched r = ["job-a"]
  /\ (forall job_id d,
        get_job_status (self (world r)) job_id = Some d ->
        status_of d = "running" ->
        is_Some (active_jobs (self (world r)) !! job_id))
  /\ within_limit (self (world r))
  /\ launched r ++ (RenderJob.id <$> render_queue (self (world r)))
       `sublist_of` submitted r
  /\ forall os,
       started_by os (poll_active_jobs os (world r))
         ++ render_queue (self (monitor_tick os (world r)))
       = render_queue (self (world r)).
Proof.
  split; [eexists; split; vm_compute; reflexivity|].
  split; [vm_compute; reflexivity|].
  split; [vm_compute; reflexivity|].
  split; [vm_compute; reflexivity|].
  split; [vm_compute; reflexivity|].
  apply (C4_running_within_limit_fifo_launch busy_run
           [ (os_all_running,
              Submit demo_scene RenderConfig.default (Some "job-c"));
             (os_all_running, Tick) ]).
  - split; [split|].
    + intros k j Hl. unfold busy_run, busy_world in Hl. simpl in Hl.
      by apply lookup_singleton_Some in Hl as [<- <-].
    + unfold within_limit, busy_run, busy_world. simpl.
      rewrite map_size_singleton. lia.
    + reflexivity.
  - intros j Hj. unfold busy_run, busy_world in Hj. simpl in Hj.
    apply list_elem_of_singleton in Hj as ->. split; reflexivity.
Defined.

(** C5, as the claim states it, fails: "job-a" is queued, [cancel_job]
    returns [True], and the next status query answers [None] (not found)
    rather than a status of "cancelled". *)
Lemma C5_status_after_cancel_is_not_cancelled :
  (RenderJob.id <$> render_queue (self one_queued)) = ["job-a"]
  /\ (cancel_job os_all_exit_zero "job-a" (self one_queued)).1 = true
  /\ render_queue (cancel_job os_all_exit_zero "job-a" (self one_queued)).2 = []
  /\ ~ (exists d,
          get_job_status
            (cancel_job os_all_exit_zero "job-a" (self one_queued)).2 "job-a"
          = Some d
          /\ status_of d = "cancelled").
Proof.
  repeat split; try (vm_compute; reflexivity).
  intros (d & Hd & _). vm_compute in Hd. discriminate Hd.
Qed.

(** C5, amended: a queued job whose id names no other job of the supervisor
    is dropped from the queue by [cancel_job], which returns [True]; from
    then on the status query for that id answers [None] (not found, hence
    neither running nor cancelled), through every later event that does not
    submit a job under the same id again. *)
Theorem C5_cancel_queued_job_forgets_it
    (os : OS) (m : t) (job_id : string)
    (before after : list RenderJob.t) (job : RenderJob.t) :
  render_queue m = before ++ job :: after ->
  RenderJob.id job = job_id ->
  unknown job_id (set_render_queue (before ++ after) m) ->
  cancel_job os job_id m = (true, set_render_queue (before ++ after) m)
  /\ forall (r : Run) (events : list (OS * Event)),
       self (world r) = (cancel_job os job_id m).2 ->
       (forall e, e ∈ events -> effective_id e <> Some job_id) ->
       get_job_status (self (world (run events r))) job_id = None.
Proof.
  intros Hqueue Hid Hu.
  assert (cancel_job os job_id m = (true, set_render_queue (before ++ after) m))
    as Hcancel.
  { destruct Hu as (Ha & _ & Hq). simpl in Ha, Hq.
    unfold cancel_job.
    destruct (active_jobs m !! job_id) as [j|] eqn:Hj.
    { by destruct (Ha _ _ Hj). }
    unfold cancel_queued. rewrite Hqueue.
    rewrite (remove_queued_first job_id before after job); [done| |done].
    intros j' Hj'. apply Hq. apply elem_of_app. by left. }
  split; [exact Hcancel|].
  intros r events Hr Hevents.
  apply unknown_status, unknown_run; [|done].
  by rewrite Hr, Hcancel.
Qed.

Lemma C5_cancel_queued_job_forgets_it_witness :
  cancel_job os_all_exit_zero "job-a" (self one_queued)
  = (true, set_render_queue [] (self one_queued))
  /\ forall (r : Run) (events : list (OS * Event)),
       self (world r) = (cancel_job os_all_exit_zero "job-a" (self one_queued)).2 ->
       (forall e, e ∈ events -> effective_id e <> Some "job-a") ->
       get_job_status (self (world (run events r))) "job-a" = None.
Proof.
  apply (C5_cancel_queued_job_forgets_it os_all_exit_zero (self one_queued)
           "job-a" [] []
           (RenderJob.mk "job-a" demo_scene "/tmp/clipturbo_render/scene_job-a.py"
              RenderConfig.default "output/job-a.mp4" RenderStatus.PENDING 0
              None None None None)).
  - reflexivity.
  - reflexivity.
  - split; [|split].
    + intros k j Hl. vm_compute in Hl. discriminate Hl.
    + reflexivity.
    + intros j Hj. inversion Hj.
Defined.

(** What the [KeyError] of [_build_manim_command] does to a submitted job:
    the first pass of the monitor takes "job-a" from the queue, the launch
    fails before any process is spawned, and the job is released without a
    result; the supervisor does not know it any more. *)
Lemma launch_on_fresh_supervisor_loses_job :
  let w := monitor_tick os_all_exit_zero one_queued in
  started_by os_all_exit_zero (poll_active_jobs os_all_exit_zero one_queued)
  = render_queue (self one_queued)
  /\ render_queue (self w) = []
  /\ active_jobs (self w) = ∅
  /\ completed_jobs (self w) = ∅
  /\ current_renders (self w) = 0%Z
  /\ get_job_status (self w) "job-a" = None.
Proof. vm_compute. done. Qed.

(** *** Finalization *)

Lemma cleanup_removes_scene_file (temp : string) (job : RenderJob.t)
    (files : Files) :
  _cleanup_job_files temp job files !! RenderJob.scene_file job = None.
Proof.
  unfold _cleanup_job_files. apply map_lookup_filter_None. left.
  apply lookup_delete_eq.
Qed.

Lemma cleanup_removes_scratch (temp : string) (job : RenderJob.t)
    (files : Files) (path : string) :
  glob_matches temp (RenderJob.id job) path = true ->
  _cleanup_job_files temp job files !! path = None.
Proof.
  intros Hglob. unfold _cleanup_job_files. apply map_lookup_filter_None. right.
  intros size _. simpl. by rewrite Hglob.
Qed.

(** A nonzero exit releases the job: slot, table entry, script and scratch
    files, and a failed result is recorded. *)
Lemma handle_job_completion_failure_releases (os : OS) (job : RenderJob.t)
    (w : World) (p : Popen) :
  RenderJob.process job = Some p ->
  proc_poll os p <> Some 0%Z ->
  let w' := _handle_job_completion os job w in
  current_renders (self w') = (current_renders (self w) - 1)%Z
  /\ active_jobs (self w') !! RenderJob.id job = None
  /\ fs w' = _cleanup_job_files (temp_dir (self w)) job (fs w)
  /\ RenderResult.success <$> completed_jobs (self w') !! RenderJob.id job
     = Some false.
Proof.
  intros Hp Hrc. unfold _handle_job_completion. simpl. rewrite Hp.
  rewrite decide_False; [|done]. simpl.
  split; [done|]. split; [apply lookup_delete_eq|]. split; [done|].
  unfold record_result. simpl. by rewrite lookup_insert_eq.
Qed.

(** A zero exit with the output file on disk releases the job as well. *)
Lemma handle_job_completion_success_releases (os : OS) (job : RenderJob.t)
    (w : World) (p : Popen) (size : Z) :
  RenderJob.process job = Some p ->
  proc_poll os p = Some 0%Z ->
  fs w !! RenderJob.output_path job = Some size ->
  let w' := _handle_job_completion os job w in
  current_renders (self w') = (current_renders (self w) - 1)%Z
  /\ active_jobs (self w') !! RenderJob.id job = None
  /\ fs w' = _cleanup_job_files (temp_dir (self w)) job (fs w)
  /\ RenderResult.success <$> completed_jobs (self w') !! RenderJob.id job
     = Some true.
Proof.
  intros Hp Hrc Hfile. unfold _handle_job_completion. simpl. rewrite Hp.
  rewrite decide_True; [|done].
  unfold _create_render_result. simpl. rewrite Hfile.
  destruct (RenderJob.start_time job) as [s|]; simpl;
    [destruct (Qeq_bool s 0); simpl|];
    (split; [done|]; split; [apply lookup_delete_eq|]; split; [done|];
     unfold record_result; simpl; by rewrite lookup_insert_eq).
Qed.

(** C9, at the input where the code departs from the claim: the process of
    a registered job exited with code 0 but the expected output file is
    absent.  [_create_render_result] raises, the [except] clause of
    [_handle_job_completion] swallows the exception, and the statements that
    release the job are skipped: the counter is not decremented, the job
    stays in the active table (marked completed), and no file is deleted. *)
Theorem C9_zero_exit_without_output_releases_nothing
    (os : OS) (job : RenderJob.t) (w : World) (p : Popen) :
  RenderJob.process job = Some p ->
  proc_poll os p = Some 0%Z ->
  fs w !! RenderJob.output_path job = None ->
  active_jobs (self w) !! RenderJob.id job = Some job ->
  let w' := _handle_job_completion os job w in
  current_renders (self w') = current_renders (self w)
  /\ (RenderJob.status <$> active_jobs (self w') !! RenderJob.id job)
     = Some RenderStatus.COMPLETED
  /\ completed_jobs (self w') = completed_jobs (self w)
  /\ fs w' = fs w.
Proof.
  intros Hp Hrc Hfile Hreg. unfold _handle_job_completion. simpl. rewrite Hp.
  rewrite decide_True; [|done].
  unfold _create_render_result. simpl. rewrite Hfile. simpl.
  unfold write_back. simpl. rewrite Hreg. simpl.
  rewrite lookup_insert_eq. done.
Qed.

Lemma C9_zero_exit_without_output_releases_nothing_witness :
  let w' := _handle_job_completion os_all_exit_zero running_job one_running in
  current_renders (self w') = 1%Z
  /\ (RenderJob.status <$> active_jobs (self w') !! "job-a")
     = Some RenderStatus.COMPLETED
  /\ completed_jobs (self w') = ∅
  /\ fs w' = {[ "/tmp/clipturbo_render/scene_job-a.py" := 224%Z ]}.
Proof.
  apply (C9_zero_exit_without_output_releases_nothing os_all_exit_zero
           running_job one_running {| pid := 1 |}); reflexivity.
Defined.

End SupervisorClaims.

(** * Properties of the workflow scheduler *)

(** ** Steps are updated in place *)

Section StepStore.
Import WorkflowEngine.

Lemma update_step_shape (step_id : string) (f : WorkflowStep.t -> WorkflowStep.t)
    (w : WorkflowResult.t) :
  keeps_identity f ->
  Graph.shape (WorkflowResult.update_step step_id f w) = Graph.shape w.
Proof.
  intros Hf. unfold Graph.shape, WorkflowResult.update_step. simpl.
  rewrite <- list_fmap_compose. apply list_fmap_ext. intros _ s _. simpl.
  case_decide; [|done]. destruct (Hf s) as (-> & -> & _). done.
Qed.

Lemma shape_length (w w' : WorkflowResult.t) :
  Graph.shape w' = Graph.shape w ->
  length (WorkflowResult.steps w') = length (WorkflowResult.steps w).
Proof.
  unfold Graph.shape. intros H%(f_equal length). by rewrite !length_fmap in H.
Qed.

Lemma shape_ids (w : WorkflowResult.t) :
  (Graph.shape w).*1 = WorkflowStep.id <$> WorkflowResult.steps w.
Proof.
  unfold Graph.shape. rewrite <- list_fmap_compose. done.
Qed.

Lemma find_step_Some (step_id : string) (w : WorkflowResult.t)
    (s : WorkflowStep.t) :
  WorkflowResult.find_step step_id w = Some s ->
  s ∈ WorkflowResult.steps w /\ WorkflowStep.id s = step_id.
Proof.
  unfold WorkflowResult.find_step.
  intros [Hin Hid%bool_decide_eq_true]%find_some.
  by apply list_elem_of_In in Hin.
Qed.

Lemma find_step_is_Some (step_id : string) (w : WorkflowResult.t) :
  step_id ∈ (WorkflowStep.id <$> WorkflowResult.steps w) ->
  is_Some (WorkflowResult.find_step step_id w).
Proof.
  intros (s & -> & Hs)%list_elem_of_fmap.
  unfold WorkflowResult.find_step.
  destruct (find _ _) as [s'|] eqn:Hf; [by eexists|].
  apply list_elem_of_In in Hs.
  pose proof (find_none _ _ Hf s Hs) as Hnone. simpl in Hnone.
  by rewrite bool_decide_eq_false in Hnone.
Qed.

(** Reading a step after an attribute write on the same id. *)
Lemma find_step_update (step_id : string) (f : WorkflowStep.t -> WorkflowStep.t)
    (w : WorkflowResult.t) :
  keeps_identity f ->
  WorkflowResult.find_step step_id (WorkflowResult.update_step step_id f w)
  = f <$> WorkflowResult.find_step step_id w.
Proof.
  intros Hf. unfold WorkflowResult.find_step, WorkflowResult.update_step. simpl.
  induction (WorkflowResult.steps w) as [|s l IH]; simpl; [done|].
  destruct (decide (WorkflowStep.id s = step_id)) as [Heq|Hne].
  - rewrite !bool_decide_eq_true_2; [done|done|].
    by rewrite (proj1 (Hf s)).
  - rewrite !bool_decide_eq_false_2; done.
Qed.

(** ... and on another id. *)
Lemma find_step_update_ne (step_id other : string)
    (f : WorkflowStep.t -> WorkflowStep.t) (w : WorkflowResult.t) :
  keeps_identity f ->
  other <> step_id ->
  WorkflowResult.find_step other (WorkflowResult.update_step step_id f w)
  = WorkflowResult.find_step other w.
Proof.
  intros Hf Hne. unfold WorkflowResult.find_step, WorkflowResult.update_step.
  simpl.
  induction (WorkflowResult.steps w) as [|s l IH]; simpl; [done|].
  destruct (decide (WorkflowStep.id s = step_id)) as [Heq|Hne'].
  - rewrite !bool_decide_eq_false_2; [done|congruence|].
    rewrite (proj1 (Hf s)). congruence.
  - destruct (bool_decide _); done.
Qed.

Lemma started_keeps (now : Time) : keeps_identity (started now).
Proof. by intros s. Qed.

Lemma finished_keeps (run : HandlerRun) : keeps_identity (finished run).
Proof. intros s. unfold finished. by destruct (outcome run). Qed.

Lemma end_step_steps (run : HandlerRun) (step_id : string)
    (w : WorkflowResult.t) :
  WorkflowResult.steps (end_step run step_id w)
  = WorkflowResult.steps (WorkflowResult.update_step step_id (finished run) w).
Proof. unfold end_step. by destruct (WorkflowResult.context w). Qed.

Lemma end_step_status (run : HandlerRun) (step_id : string)
    (w : WorkflowResult.t) :
  WorkflowResult.status (end_step run step_id w) = WorkflowResult.status w.
Proof. unfold end_step. by destruct (WorkflowResult.context w). Qed.

Lemma finished_executed (run : HandlerRun) (s : WorkflowStep.t) :
  is_executed_status (WorkflowStep.status (finished run s)) = true.
Proof. unfold finished. by destruct (outcome run). Qed.

End StepStore.

(** ** One step, one pass *)

Section PassLemmas.
Import WorkflowEngine Pass.

Lemma execute_step_shape (handlers : Handlers) (now : Time) (step_id : string)
    (w : WorkflowResult.t) :
  Graph.shape (_execute_step handlers now step_id w) = Graph.shape w.
Proof.
  unfold _execute_step.
  assert (Graph.shape (begin_step now step_id w) = Graph.shape w) as Hb.
  { apply update_step_shape, started_keeps. }
  destruct (WorkflowResult.find_step _ _); [|done].
  rewrite <- Hb. unfold Graph.shape. rewrite end_step_steps.
  apply (update_step_shape step_id (finished _)), finished_keeps.
Qed.

Lemma execute_step_status (handlers : Handlers) (now : Time) (step_id : string)
    (w : WorkflowResult.t) :
  WorkflowResult.status (_execute_step handlers now step_id w)
  = WorkflowResult.status w.
Proof.
  unfold _execute_step.
  destruct (WorkflowResult.find_step _ _); [|done].
  by rewrite end_step_status.
Qed.

Lemma find_step_steps (step_id : string) (w w' : WorkflowResult.t) :
  WorkflowResult.steps w = WorkflowResult.steps w' ->
  WorkflowResult.find_step step_id w = WorkflowResult.find_step step_id w'.
Proof. unfold WorkflowResult.find_step. by intros ->. Qed.

(** The step an execution leaves behind. *)
Lemma execute_step_find (handlers : Handlers) (now : Time) (step_id : string)
    (w : WorkflowResult.t) (s : WorkflowStep.t) :
  WorkflowResult.find_step step_id w = Some s ->
  WorkflowResult.find_step step_id (_execute_step handlers now step_id w)
  = Some (finished
            (call_handler handlers (started now s) (begin_step now step_id w))
            (started now s)).
Proof.
  intros Hs. unfold _execute_step.
  assert (WorkflowResult.find_step step_id (begin_step now step_id w)
          = Some (started now s)) as Hb.
  { unfold begin_step. rewrite find_step_update; [|apply started_keeps].
    by rewrite Hs. }
  rewrite Hb.
  erewrite find_step_steps; [|apply end_step_steps].
  rewrite find_step_update; [|apply finished_keeps].
  by rewrite Hb.
Qed.

Lemma execute_step_find_ne (handlers : Handlers) (now : Time)
    (step_id other : string) (w : WorkflowResult.t) :
  other <> step_id ->
  WorkflowResult.find_step other (_execute_step handlers now step_id w)
  = WorkflowResult.find_step other w.
Proof.
  intros Hne. unfold _execute_step.
  assert (WorkflowResult.find_step other (begin_step now step_id w)
          = WorkflowResult.find_step other w) as Hb.
  { by apply find_step_update_ne; [apply started_keeps|]. }
  destruct (WorkflowResult.find_step step_id _); [|done].
  erewrite find_step_steps; [|apply end_step_steps].
  rewrite find_step_update_ne; [done|apply finished_keeps|done].
Qed.

Lemma execute_step_settles (handlers : Handlers) (now : Time) (step_id : string)
    (w : WorkflowResult.t) :
  is_Some (WorkflowResult.find_step step_id w) ->
  settled (_execute_step handlers now step_id w) step_id.
Proof.
  intros [s Hs]. eexists. split; [by apply execute_step_find|].
  apply finished_executed.
Qed.

Lemma execute_step_settled (handlers : Handlers) (now : Time)
    (step_id other : string) (w : WorkflowResult.t) :
  settled w other -> settled (_execute_step handlers now step_id w) other.
Proof.
  intros (s & Hs & Hex). destruct (decide (other = step_id)) as [->|Hne].
  - apply execute_step_settles. by eexists.
  - exists s. by rewrite execute_step_find_ne.
Qed.

Lemma execute_step_is_Some (handlers : Handlers) (now : Time)
    (step_id other : string) (w : WorkflowResult.t) :
  is_Some (WorkflowResult.find_step other w) ->
  is_Some (WorkflowResult.find_step other (_execute_step handlers now step_id w)).
Proof.
  intros [s Hs]. destruct (decide (other = step_id)) as [->|Hne].
  - erewrite execute_step_find; [|done]. by eexists.
  - rewrite execute_step_find_ne; [|done]. by eexists.
Qed.

Lemma run_tasks_shape (handlers : Handlers) (now : Time) (ready : list string) :
  forall w, Graph.shape (run_tasks handlers now ready w) = Graph.shape w.
Proof.
  induction ready as [|r ready IH]; intros w; simpl; [done|].
  unfold run_tasks in *. simpl. rewrite IH. apply execute_step_shape.
Qed.

Lemma run_tasks_status (handlers : Handlers) (now : Time) (ready : list string) :
  forall w, WorkflowResult.status (run_tasks handlers now ready w)
            = WorkflowResult.status w.
Proof.
  induction ready as [|r ready IH]; intros w; simpl; [done|].
  unfold run_tasks in *. simpl. rewrite IH. apply execute_step_status.
Qed.

Lemma execute_step_error_message (handlers : Handlers) (now : Time)
    (step_id : string) (w : WorkflowResult.t) :
  WorkflowResult.error_message (_execute_step handlers now step_id w)
  = WorkflowResult.error_message w.
Proof.
  unfold _execute_step. destruct (WorkflowResult.find_step _ _); [|done].
  unfold end_step. by destruct (WorkflowResult.context _).
Qed.

Lemma run_tasks_error_message (handlers : Handlers) (now : Time)
    (ready : list string) :
  forall w, WorkflowResult.error_message (run_tasks handlers now ready w)
            = WorkflowResult.error_message w.
Proof.
  induction ready as [|r ready IH]; intros w; simpl; [done|].
  unfold run_tasks in *. simpl. rewrite IH. apply execute_step_error_message.
Qed.

Lemma run_tasks_settled (handlers : Handlers) (now : Time) (ready : list string)
    (other : string) :
  forall w, settled w other -> settled (run_tasks handlers now ready w) other.
Proof.
  induction ready as [|r ready IH]; intros w Hs; simpl; [done|].
  unfold run_tasks in *. simpl. apply IH. by apply execute_step_settled.
Qed.

(** When the tasks of a pass are over, every step of the ready set is
    settled. *)
Lemma run_tasks_settles (handlers : Handlers) (now : Time) (ready : list string) :
  forall w,
    (forall r, r ∈ ready -> is_Some (WorkflowResult.find_step r w)) ->
    forall r, r ∈ ready -> settled (run_tasks handlers now ready w) r.
Proof.
  induction ready as [|r0 ready IH]; intros w Hreg r Hr; [inversion Hr|].
  unfold run_tasks in *. simpl.
  apply elem_of_cons in Hr as [->|Hr].
  - apply (run_tasks_settled handlers now ready r0).
    apply execute_step_settles, Hreg. left.
  - apply IH; [|done]. intros r' Hr'.
    apply execute_step_is_Some, Hreg. by right.
Qed.

Lemma mark_executed_spec (ready : list string) (w : WorkflowResult.t) (a : string) :
  forall executed,
    a ∈ mark_executed ready w executed
    <-> a ∈ executed \/ (a ∈ ready /\ settled w a).
Proof.
  unfold mark_executed.
  induction ready as [|r ready IH]; intros executed; simpl.
  - split; [by left|]. intros [? | [Hin _]]; [done|inversion Hin].
  - rewrite IH. clear IH.
    destruct (WorkflowResult.find_step r w) as [s|] eqn:Hs.
    + destruct (find_step_Some _ _ _ Hs) as [_ Hid].
      destruct (is_executed_status (WorkflowStep.status s)) eqn:Hex.
      * rewrite elem_of_union, elem_of_singleton, Hid, elem_of_cons.
        split.
        -- intros [[? | ->] | [? ?]]; [by left| |by right; split; [right|]].
           right. split; [by left|]. by exists s.
        -- intros [? | [[-> | ?] ?]]; [by left; left|by left; right|by right].
      * rewrite elem_of_cons. split.
        -- intros [? | [? ?]]; [by left|by right; split; [right|]].
        -- intros [? | [[-> | ?] Hset]]; [by left| |by right].
           destruct Hset as (s' & Hs' & Hex'). congruence.
    + rewrite elem_of_cons. split.
      * intros [? | [? ?]]; [by left|by right; split; [right|]].
      * intros [? | [[-> | ?] Hset]]; [by left| |by right].
        destruct Hset as (s' & Hs' & _). congruence.
Qed.

Lemma ready_steps_spec (w : WorkflowResult.t) (executed : gset string)
    (a : string) :
  a ∈ ready_steps w executed
  <-> exists s, s ∈ WorkflowResult.steps w
                /\ WorkflowStep.id s = a
                /\ (a ∉ executed)
                /\ WorkflowStep.status s = StepStatus.PENDING
                /\ forall d, d ∈ WorkflowStep.dependencies s -> d ∈ executed.
Proof.
  unfold ready_steps. rewrite list_elem_of_fmap. split.
  - intros (s & -> & Hs). apply list_elem_of_In, filter_In in Hs as [Hin Hr].
    apply list_elem_of_In in Hin.
    unfold is_ready in Hr.
    apply andb_true_iff in Hr as [Hr H3].
    apply andb_true_iff in Hr as [H1 H2].
    apply bool_decide_eq_true in H1, H2.
    exists s. repeat split; try done.
    intros d Hd. rewrite forallb_forall in H3.
    apply list_elem_of_In in Hd. by apply H3, bool_decide_eq_true in Hd.
  - intros (s & Hin & <- & H1 & H2 & H3). exists s. split; [done|].
    apply list_elem_of_In, filter_In. split; [by apply list_elem_of_In|].
    unfold is_ready. rewrite !andb_true_iff, !bool_decide_eq_true.
    repeat split; try done.
    rewrite forallb_forall. intros d Hd%list_elem_of_In.
    by apply bool_decide_eq_true, H3.
Qed.

Lemma ready_steps_registered (w : WorkflowResult.t) (executed : gset string)
    (a : string) :
  a ∈ ready_steps w executed -> is_Some (WorkflowResult.find_step a w).
Proof.
  intros (s & Hin & <- & _)%ready_steps_spec.
  apply find_step_is_Some, list_elem_of_fmap. by exists s.
Qed.

Lemma ready_steps_runnable (w : WorkflowResult.t) (executed : gset string)
    (a : string) :
  Graph.all_runnable (Graph.shape w) executed ->
  a ∈ ready_steps w executed ->
  Graph.runnable (Graph.shape w) a.
Proof.
  intros Hall (s & Hin & <- & _ & _ & Hdeps)%ready_steps_spec.
  apply (Graph.runnable_step _ _ (WorkflowStep.dependencies s)).
  - unfold Graph.shape. apply list_elem_of_fmap. by exists s.
  - intros d Hd. by apply Hall, Hdeps.
Qed.

Lemma loop_body_unfold (handlers : Handlers) (now : Time)
    (w : WorkflowResult.t) (executed : gset string) :
  loop_body handlers now w executed
  = match ready_steps w executed with
    | [] => Break (fail_no_ready w)
    | ready =>
        Continue (run_tasks handlers now ready w)
          (mark_executed ready (run_tasks handlers now ready w) executed)
    end.
Proof. unfold loop_body. by destruct (ready_steps w executed). Qed.

(** What a pass that goes on to the next one has done. *)
Lemma loop_body_continue (handlers : Handlers) (now : Time)
    (w w' : WorkflowResult.t) (executed executed' : gset string) :
  loop_body handlers now w executed = Continue w' executed' ->
  Graph.shape w' = Graph.shape w
  /\ WorkflowResult.status w' = WorkflowResult.status w
  /\ executed ⊆ executed'
  /\ (exists r, r ∈ executed' /\ r ∉ executed)
  /\ (Graph.all_runnable (Graph.shape w) executed ->
      Graph.all_runnable (Graph.shape w) executed').
Proof.
  rewrite loop_body_unfold.
  remember (ready_steps w executed) as rs eqn:Hready.
  destruct (decide (rs = [])) as [->|Hne]; [done|].
  assert (exists r, r ∈ rs) as [r Hr].
  { destruct rs as [|r rs]; [done|]. exists r. left. }
  pose proof (run_tasks_shape handlers now rs w) as Hshape.
  pose proof (run_tasks_status handlers now rs w) as Hstatus.
  assert (forall a, a ∈ rs -> settled (run_tasks handlers now rs w) a)
    as Hsettled.
  { apply run_tasks_settles. intros a Ha.
    apply (ready_steps_registered w executed). by rewrite <- Hready. }
  remember (run_tasks handlers now rs w) as w1 eqn:Hw1.
  intros Heq.
  assert (w' = w1 /\ executed' = mark_executed rs w1 executed) as [-> ->].
  { destruct rs; [done|]. cbv zeta in Heq. rewrite <- Hw1 in Heq.
    by injection Heq as <- <-. }
  split; [done|]. split; [done|]. split; [|split].
  - intros a Ha. apply mark_executed_spec. by left.
  - exists r. split.
    + apply mark_executed_spec. right. split; [done|by apply Hsettled].
    + rewrite Hready in Hr.
      apply ready_steps_spec in Hr as (s & _ & _ & Hnot & _). done.
  - intros Hall a [Ha | [Ha _]]%mark_executed_spec; [by apply Hall|].
    apply (ready_steps_runnable w executed); [done|]. by rewrite <- Hready.
Qed.

Lemma loop_body_break (handlers : Handlers) (now : Time)
    (w w' : WorkflowResult.t) (executed : gset string) :
  loop_body handlers now w executed = Break w' ->
  w' = fail_no_ready w /\ ready_steps w executed = [].
Proof.
  unfold loop_body.
  destruct (ready_steps w executed) as [|r ready]; [|done].
  by intros [= <-].
Qed.

End PassLemmas.

(** ** The dependency graph *)

Section GraphLemmas.
Import Graph.

Lemma runnable_in_graph (g : list (string * list string)) (a : string) :
  runnable g a -> a ∈ g.*1.
Proof.
  intros Hrun. inversion Hrun as [a' deps Hin _]; subst.
  apply list_elem_of_fmap. by exists (a, deps).
Qed.

(** In a [dict] a step id has one list of dependencies. *)
Lemma deps_unique (g : list (string * list string)) (a : string)
    (deps deps' : list string) :
  NoDup g.*1 -> (a, deps) ∈ g -> (a, deps') ∈ g -> deps = deps'.
Proof.
  intros Hnd H1 H2.
  induction g as [|[k v] g IH]; [inversion H1|].
  simpl in Hnd. apply NoDup_cons in Hnd as [Hk Hnd].
  apply elem_of_cons in H1 as [H1|H1]; apply elem_of_cons in H2 as [H2|H2].
  - congruence.
  - exfalso. apply Hk, list_elem_of_fmap. exists (a, deps').
    split; [|done]. simpl. congruence.
  - exfalso. apply Hk, list_elem_of_fmap. exists (a, deps).
    split; [|done]. simpl. congruence.
  - by apply IH.
Qed.

(** A runnable step is on no cycle. *)
Lemma runnable_acyclic (g : list (string * list string)) (a : string) :
  NoDup g.*1 -> runnable g a -> ~ tc (depends_on g) a a.
Proof.
  intros Hnd Hrun. induction Hrun as [a deps Hin Hdeps IH].
  intros Hcycle.
  assert (exists d, d ∈ deps /\ rtc (depends_on g) d a) as (d & Hd & Hda).
  { inversion Hcycle as [? ? (deps' & Hin' & Hd)|? d ? (deps' & Hin' & Hd) Htc];
      subst.
    - exists a. split; [|done]. by rewrite (deps_unique g a deps deps').
    - exists d. split; [by rewrite (deps_unique g a deps deps')|].
      by apply tc_rtc. }
  apply (IH d Hd).
  eapply tc_rtc_l; [exact Hda|].
  apply tc_once. by exists deps.
Qed.

(** A runnable step has no dependency outside the graph. *)
Lemma runnable_no_dangling (g : list (string * list string))
    (a d : string) (deps : list string) :
  NoDup g.*1 -> (a, deps) ∈ g -> d ∈ deps -> runnable g a -> d ∈ g.*1.
Proof.
  intros Hnd Hin Hd Hrun.
  inversion Hrun as [a' deps' Hin' Hdeps]; subst.
  rewrite (deps_unique g a deps deps') in Hd; [|done..].
  by apply runnable_in_graph, Hdeps.
Qed.

(** A graph with a cycle or with a dependency on a step outside of it has a
    step that can never be executed. *)
Lemma unsatisfiable_graph (w : WorkflowResult.t) :
  WorkflowResult.distinct_ids w ->
  has_cycle w \/ has_dangling_dependency w ->
  exists a, a ∈ (shape w).*1 /\ ~ runnable (shape w) a.
Proof.
  unfold WorkflowResult.distinct_ids. rewrite <- shape_ids. intros Hnd [Hc|Hd].
  - destruct Hc as [a Hcycle]. exists a. split.
    + inversion Hcycle as [? ? (deps & Hin & _)|? ? ? (deps & Hin & _) _]; subst;
        apply list_elem_of_fmap; by exists (a, deps).
    + intros Hrun. by apply (runnable_acyclic _ a Hnd Hrun).
  - destruct Hd as (a & deps & d & Hin & Hd & Hout). exists a. split.
    + apply list_elem_of_fmap. by exists (a, deps).
    + intros Hrun. apply Hout. by eapply runnable_no_dangling.
Qed.

(** As long as only runnable steps have been executed, a graph with a step
    that is not runnable has executed fewer steps than it has. *)
Lemma stuck_graph_never_done (w : WorkflowResult.t) (executed : gset string)
    (a : string) :
  WorkflowResult.distinct_ids w ->
  all_runnable (shape w) executed ->
  a ∈ (shape w).*1 ->
  ~ runnable (shape w) a ->
  (size executed < length (WorkflowResult.steps w))%nat.
Proof.
  intros Hnd Hall Ha Hnot.
  unfold WorkflowResult.distinct_ids in Hnd.
  rewrite <- (length_fmap WorkflowStep.id), <- (size_list_to_set (C:=gset string));
    [|done].
  apply subset_size. rewrite <- shape_ids. split.
  - intros x Hx. apply elem_of_list_to_set, runnable_in_graph, Hall, Hx.
  - intros Hsub. apply Hnot, Hall, Hsub. by apply elem_of_list_to_set.
Qed.

End GraphLemmas.

(** ** The loop ends *)

Section Termination.
Import WorkflowEngine Graph.

Lemma workflow_loop_unfold (handlers : Handlers) (clock : nat -> Time)
    (fuel n : nat) (w : WorkflowResult.t) (executed : gset string) :
  workflow_loop handlers clock fuel n w executed
  = if (size executed <? length (WorkflowResult.steps w))%nat then
      match fuel with
      | O => None
      | S fuel =>
          match loop_body handlers (clock n) w executed with
          | Break w => Some (w, S n)
          | Continue w executed =>
              workflow_loop handlers clock fuel (S n) w executed
          end
      end
    else Some (w, n).
Proof. by destruct fuel. Qed.

Lemma continue_grows (handlers : Handlers) (now : Time)
    (w w' : WorkflowResult.t) (executed executed' : gset string) :
  loop_body handlers now w executed = Continue w' executed' ->
  (size executed < size executed')%nat.
Proof.
  intros (_ & _ & Hsub & (r & Hr & Hnr) & _)%loop_body_continue.
  apply subset_size. split; [done|]. intros Hback. by apply Hnr, Hback.
Qed.

(** A pass executes at least one more step, so the loop makes at most as
    many passes as there are steps left. *)
Lemma workflow_loop_terminates (handlers : Handlers) (clock : nat -> Time)
    (fuel : nat) :
  forall n w executed,
    (length (WorkflowResult.steps w) <= fuel + size executed)%nat ->
    is_Some (workflow_loop handlers clock fuel n w executed).
Proof.
  induction fuel as [|fuel IH]; intros n w executed Hfuel;
    rewrite workflow_loop_unfold;
    destruct (_ <? _)%nat eqn:Hlt; try by eexists.
  - apply Nat.ltb_lt in Hlt. lia.
  - destruct (loop_body _ _ _ _) as [w'|w' executed'] eqn:Hbody; [by eexists|].
    apply IH.
    pose proof (continue_grows _ _ _ _ _ _ Hbody) as Hgrow.
    apply loop_body_continue in Hbody as (Hshape%shape_length & _).
    lia.
Qed.

(** On a graph with a step that cannot run the loop ends in the branch of
    the empty ready set. *)
Lemma workflow_loop_stuck (handlers : Handlers) (clock : nat -> Time)
    (fuel : nat) :
  forall n w executed,
    WorkflowResult.distinct_ids w ->
    all_runnable (shape w) executed ->
    (exists a, a ∈ (shape w).*1 /\ ~ runnable (shape w) a) ->
    (length (WorkflowResult.steps w) <= fuel + size executed)%nat ->
    exists w0 n',
      workflow_loop handlers clock fuel n w executed
      = Some (fail_no_ready w0, n').
Proof.
  induction fuel as [|fuel IH]; intros n w executed Hnd Hall (a & Ha & Hnot) Hfuel;
    pose proof (stuck_graph_never_done w executed a Hnd Hall Ha Hnot) as Hlt;
    rewrite workflow_loop_unfold;
    (rewrite (proj2 (Nat.ltb_lt _ _)); [|done]).
  - lia.
  - destruct (loop_body _ _ _ _) as [w'|w' executed'] eqn:Hbody.
    + apply loop_body_break in Hbody as [-> _]. by eexists _, _.
    + pose proof (continue_grows _ _ _ _ _ _ Hbody) as Hgrow.
      apply loop_body_continue in Hbody as (Hshape & _ & _ & _ & Hrun).
      apply IH.
      * unfold WorkflowResult.distinct_ids in *.
        by rewrite <- shape_ids, Hshape, shape_ids.
      * rewrite Hshape. by apply Hrun.
      * rewrite Hshape. by exists a.
      * apply shape_length in Hshape. lia.
Qed.

End Termination.

(** ** Satisfiable graphs: every step gets executed *)

Section SatisfiableGraphs.
Import WorkflowEngine Graph Pass.

(** Below a runnable step that has not been executed there is a step that
    has not been executed either and whose dependencies all have. *)
Lemma next_step_exists (g : list (string * list string))
    (executed : gset string) (a : string) :
  runnable g a ->
  a ∉ executed ->
  exists b deps,
    (b, deps) ∈ g /\ (b ∉ executed) /\ forall d, d ∈ deps -> d ∈ executed.
Proof.
  intros Hrun. induction Hrun as [a deps Hin Hdeps IH]. intros Ha.
  destruct (decide (Forall (fun d => d ∈ executed) deps)) as [Hall|Hsome].
  - exists a, deps. split; [done|]. split; [done|].
    by apply Forall_forall.
  - apply not_Forall_Exists in Hsome; [|apply _].
    apply Exists_exists in Hsome as (d & Hd & Hnot).
    by apply (IH d).
Qed.

Lemma unexecuted_step_exists (w : WorkflowResult.t) (executed : gset string) :
  WorkflowResult.distinct_ids w ->
  (size executed < length (WorkflowResult.steps w))%nat ->
  exists a, a ∈ (shape w).*1 /\ (a ∉ executed).
Proof.
  intros Hnd Hlt. rewrite shape_ids.
  destruct (decide (Forall (fun a => a ∈ executed)
                      (WorkflowStep.id <$> WorkflowResult.steps w)))
    as [Hall|Hsome].
  - exfalso.
    assert (list_to_set (WorkflowStep.id <$> WorkflowResult.steps w) ⊆ executed)
      as Hsub.
    { intros a Ha%elem_of_list_to_set. rewrite Forall_forall in Hall.
      by apply Hall. }
    apply subseteq_size in Hsub.
    rewrite size_list_to_set, length_fmap in Hsub; [lia|done].
  - apply not_Forall_Exists in Hsome; [|apply _].
    apply Exists_exists in Hsome as (a & Ha & Hnot). by exists a.
Qed.

(** On track and not done, the ready set is not empty. *)
Lemma on_track_ready (w : WorkflowResult.t) (executed : gset string) :
  on_track w executed ->
  (size executed < length (WorkflowResult.steps w))%nat ->
  ready_steps w executed <> [].
Proof.
  intros (Hnd & Hsat & Hsub & Hpending & _) Hlt.
  destruct (unexecuted_step_exists w executed Hnd Hlt) as (a & Ha & Hnot).
  destruct (next_step_exists _ executed a (Hsat a Ha) Hnot)
    as (b & deps & Hin & Hb & Hdeps).
  unfold shape in Hin. apply list_elem_of_fmap in Hin as (s & [= -> ->] & Hs).
  assert (WorkflowStep.id s ∈ ready_steps w executed) as Hready.
  { apply ready_steps_spec. exists s. repeat split; try done.
    by apply Hpending. }
  intros Hnil. rewrite Hnil in Hready. inversion Hready.
Qed.

Lemma find_step_distinct (w : WorkflowResult.t) (s : WorkflowStep.t) :
  WorkflowResult.distinct_ids w ->
  s ∈ WorkflowResult.steps w ->
  WorkflowResult.find_step (WorkflowStep.id s) w = Some s.
Proof.
  unfold WorkflowResult.distinct_ids, WorkflowResult.find_step.
  induction (WorkflowResult.steps w) as [|s0 l IH]; intros Hnd Hs;
    [inversion Hs|].
  simpl in *. apply NoDup_cons in Hnd as [Hs0 Hnd].
  apply elem_of_cons in Hs as [->|Hs].
  - by rewrite bool_decide_eq_true_2.
  - rewrite bool_decide_eq_false_2; [by apply IH|].
    intros Heq. apply Hs0. rewrite Heq. by apply list_elem_of_fmap_2.
Qed.

Lemma run_tasks_find_ne (handlers : Handlers) (now : Time)
    (ready : list string) (other : string) :
  other ∉ ready ->
  forall w,
    WorkflowResult.find_step other (run_tasks handlers now ready w)
    = WorkflowResult.find_step other w.
Proof.
  induction ready as [|r ready IH]; intros Hnot w; [done|].
  unfold run_tasks in *. simpl.
  apply not_elem_of_cons in Hnot as [Hne Hnot].
  rewrite IH; [|done]. by apply execute_step_find_ne.
Qed.

Lemma distinct_ids_shape (w w' : WorkflowResult.t) :
  shape w' = shape w ->
  WorkflowResult.distinct_ids w -> WorkflowResult.distinct_ids w'.
Proof.
  unfold WorkflowResult.distinct_ids. rewrite <- !shape_ids. by intros ->.
Qed.

Lemma on_track_continue (handlers : Handlers) (now : Time)
    (w w' : WorkflowResult.t) (executed executed' : gset string) :
  on_track w executed ->
  loop_body handlers now w executed = Continue w' executed' ->
  on_track w' executed'.
Proof.
  intros (Hnd & Hsat & Hsub & Hpending & Hdone) Hbody.
  pose proof (loop_body_continue _ _ _ _ _ _ Hbody) as (Hshape & _).
  rewrite loop_body_unfold in Hbody.
  remember (ready_steps w executed) as rs eqn:Hrs.
  assert (w' = run_tasks handlers now rs w
          /\ executed' = mark_executed rs w' executed) as [Hw' ->].
  { destruct rs; [done|]. cbv zeta in Hbody. by injection Hbody as <- <-. }
  assert (WorkflowResult.distinct_ids w') as Hnd'
    by (by apply (distinct_ids_shape w)).
  assert (forall a, a ∈ rs -> settled w' a) as Hsettled.
  { rewrite Hw'. apply run_tasks_settles. intros a Ha.
    apply (ready_steps_registered w executed). by rewrite <- Hrs. }
  assert (forall s, s ∈ WorkflowResult.steps w' -> WorkflowStep.id s ∉ rs ->
                    s ∈ WorkflowResult.steps w) as Hold.
  { intros s Hs Hnot.
    pose proof (find_step_distinct w' s Hnd' Hs) as Hfind.
    rewrite Hw', run_tasks_find_ne in Hfind; [|done].
    by apply find_step_Some in Hfind as [? _]. }
  split; [done|]. split; [|split; [|split]].
  - unfold satisfiable. by rewrite Hshape.
  - intros a [Ha | [Ha _]]%mark_executed_spec; rewrite Hshape; [by apply Hsub|].
    rewrite Hrs in Ha. apply ready_steps_spec in Ha as (s & Hs & <- & _).
    rewrite shape_ids. by apply list_elem_of_fmap_2.
  - intros s Hs Hnot.
    assert (WorkflowStep.id s ∉ rs) as Hnr.
    { intros Hin. apply Hnot, mark_executed_spec. right. split; [done|].
      by apply Hsettled. }
    apply Hpending; [by apply Hold|].
    intros Hin. apply Hnot, mark_executed_spec. by left.
  - intros s Hs Hin.
    destruct (decide (WorkflowStep.id s ∈ rs)) as [Hr|Hnr].
    + destruct (Hsettled _ Hr) as (s0 & Hfind & Hex).
      rewrite (find_step_distinct w' s Hnd' Hs) in Hfind. by injection Hfind as ->.
    + apply Hdone; [by apply Hold|].
      apply mark_executed_spec in Hin as [Hin | [Hin _]]; done.
Qed.

(** On a satisfiable graph the loop never takes the branch of the empty
    ready set: it ends when every step has been executed, with the status
    of the workflow as it was. *)
Lemma workflow_loop_on_track (handlers : Handlers) (clock : nat -> Time)
    (fuel : nat) :
  forall n w executed,
    on_track w executed ->
    (length (WorkflowResult.steps w) <= fuel + size executed)%nat ->
    exists w' n',
      workflow_loop handlers clock fuel n w executed = Some (w', n')
      /\ WorkflowResult.status w' = WorkflowResult.status w
      /\ WorkflowResult.error_message w' = WorkflowResult.error_message w
      /\ forall s, s ∈ WorkflowResult.steps w' ->
                   is_executed_status (WorkflowStep.status s) = true.
Proof.
  induction fuel as [|fuel IH]; intros n w executed Htrack Hfuel;
    rewrite workflow_loop_unfold;
    destruct (_ <? _)%nat eqn:Hlt.
  - apply Nat.ltb_lt in Hlt. lia.
  - apply Nat.ltb_ge in Hlt. eexists _, _. split; [done|].
    split; [done|]. split; [done|].
    destruct Htrack as (Hnd & _ & Hsub & _ & Hdone).
    intros s Hs. apply Hdone; [done|].
    assert (executed ≡ list_to_set (shape w).*1) as Heq.
    { apply set_subseteq_size_equiv.
      - intros a Ha. by apply elem_of_list_to_set, Hsub.
      - rewrite shape_ids, size_list_to_set, length_fmap; done. }
    apply Heq, elem_of_list_to_set. rewrite shape_ids.
    by apply list_elem_of_fmap_2.
  - apply Nat.ltb_lt in Hlt.
    pose proof (on_track_ready w executed Htrack Hlt) as Hready.
    destruct (loop_body _ _ _ _) as [w1|w1 executed1] eqn:Hbody.
    { by apply loop_body_break in Hbody as [_ ?]. }
    pose proof (continue_grows _ _ _ _ _ _ Hbody) as Hgrow.
    pose proof (on_track_continue _ _ _ _ _ _ Htrack Hbody) as Htrack1.
    assert (WorkflowResult.error_message w1 = WorkflowResult.error_message w)
      as Hmsg.
    { rewrite loop_body_unfold in Hbody.
      destruct (ready_steps w executed) as [|r rs]; [done|].
      cbv zeta in Hbody. injection Hbody as <- _.
      apply (run_tasks_error_message handlers (clock n) (r :: rs) w). }
    apply loop_body_continue in Hbody as (Hshape & Hstatus & _).
    destruct (IH (S n) w1 executed1 Htrack1) as (w' & n' & -> & Hst & Herr & Hall).
    { apply shape_length in Hshape. lia. }
    eexists _, _. split; [done|]. by rewrite Hst, Hstatus, Herr, Hmsg.
  - apply Nat.ltb_ge in Hlt. eexists _, _. split; [done|].
    split; [done|]. split; [done|].
    destruct Htrack as (Hnd & _ & Hsub & _ & Hdone).
    intros s Hs. apply Hdone; [done|].
    assert (executed ≡ list_to_set (shape w).*1) as Heq.
    { apply set_subseteq_size_equiv.
      - intros a Ha. by apply elem_of_list_to_set, Hsub.
      - rewrite shape_ids, size_list_to_set, length_fmap; done. }
    apply Heq, elem_of_list_to_set. rewrite shape_ids.
    by apply list_elem_of_fmap_2.
Qed.

(** Whatever the handlers do, a workflow on a satisfiable graph, started
    with all its steps pending, ends [COMPLETED], with every step executed
    (completed or failed) and no error message of its own. *)
Lemma satisfiable_graph_always_completed (handlers : Handlers)
    (clock : nat -> Time) (w : WorkflowResult.t) :
  WorkflowResult.distinct_ids w ->
  satisfiable w ->
  (forall s, s ∈ WorkflowResult.steps w ->
             WorkflowStep.status s = StepStatus.PENDING) ->
  exists w',
    _execute_workflow handlers clock (length (WorkflowResult.steps w)) w = Some w'
    /\ WorkflowResult.status w' = WorkflowStatus.COMPLETED
    /\ WorkflowResult.error_message w' = WorkflowResult.error_message w
    /\ forall s, s ∈ WorkflowResult.steps w' ->
                 is_executed_status (WorkflowStep.status s) = true.
Proof.
  intros Hnd Hsat Hpending. unfold _execute_workflow.
  destruct (workflow_loop_on_track handlers clock
              (length (WorkflowResult.steps w)) 0
              (WorkflowResult.set_status WorkflowStatus.RUNNING w) ∅)
    as (w' & n' & -> & Hst & Herr & Hall).
  - split; [done|]. split; [done|]. split; [set_solver|].
    split; [intros s Hs _; by apply Hpending|set_solver].
  - simpl. lia.
  - eexists. split; [done|]. unfold finish. simpl in *. rewrite Hst.
    rewrite decide_True; [|done]. simpl. done.
Qed.

(** The two graphs [create_video_workflow] builds are satisfiable. *)

Lemma new_workflow_on_track (now : Time) (content_input : ContentInput)
    (requirements : N) (workflow_id : string) :
  let w := new_workflow now content_input requirements workflow_id in
  WorkflowResult.distinct_ids w
  /\ satisfiable w
  /\ forall s, s ∈ WorkflowResult.steps w ->
               WorkflowStep.status s = StepStatus.PENDING.
Proof.
  destruct content_input; simpl; (split; [|split]).
  - apply (bool_decide_unpack _). vm_compute. exact I.
  - intros a Ha. unfold shape in *. simpl in *.
    repeat (apply elem_of_cons in Ha as [-> | Ha]; [solve_runnable|]).
    inversion Ha.
  - intros s Hs.
    repeat (apply elem_of_cons in Hs as [-> | Hs]; [done|]). inversion Hs.
  - apply (bool_decide_unpack _). vm_compute. exact I.
  - intros a Ha. unfold shape in *. simpl in *.
    repeat (apply elem_of_cons in Ha as [-> | Ha]; [solve_runnable|]).
    inversion Ha.
  - intros s Hs.
    repeat (apply elem_of_cons in Hs as [-> | Hs]; [done|]). inversion Hs.
Qed.

(** So every workflow the engine creates ends [COMPLETED] after six passes,
    whatever its handlers return or raise. *)
Lemma created_workflow_always_completed (handlers : Handlers)
    (clock : nat -> Time) (now : Time) (content_input : ContentInput)
    (requirements : N) (workflow_id : string) :
  exists w',
    _execute_workflow handlers clock 6
      (new_workflow now content_input requirements workflow_id) = Some w'
    /\ WorkflowResult.status w' = WorkflowStatus.COMPLETED
    /\ WorkflowResult.error_message w' = None.
Proof.
  destruct (new_workflow_on_track now content_input requirements workflow_id)
    as (Hnd & Hsat & Hpending).
  destruct (satisfiable_graph_always_completed handlers clock _ Hnd Hsat Hpending)
    as (w' & Hrun & Hst & Herr & _).
  exists w'. split; [|done].
  by destruct content_input.
Qed.

End SatisfiableGraphs.

(** ** The claims about the outcome of a workflow *)

Section OutcomeClaims.
Import WorkflowEngine Graph Scheduling WorkflowScenario.

Lemma fail_no_ready_spec (w : WorkflowResult.t) :
  WorkflowResult.status (fail_no_ready w) = WorkflowStatus.FAILED
  /\ WorkflowResult.steps (fail_no_ready w) = WorkflowResult.steps w
  /\ WorkflowResult.error_message (fail_no_ready w)
     = Some (match failed_steps w with
             | [] => deadlock_message
             | failed => failure_message failed
             end).
Proof.
  unfold fail_no_ready.
  change (failed_steps (WorkflowResult.set_status WorkflowStatus.FAILED w))
    with (failed_steps w).
  by destruct (failed_steps w).
Qed.

Lemma finish_failed (now : Time) (w : WorkflowResult.t) :
  WorkflowResult.status w = WorkflowStatus.FAILED ->
  WorkflowResult.status (finish now w) = WorkflowStatus.FAILED
  /\ WorkflowResult.steps (finish now w) = WorkflowResult.steps w
  /\ WorkflowResult.error_message (finish now w) = WorkflowResult.error_message w.
Proof.
  intros Hst. unfold finish. simpl. rewrite Hst.
  by rewrite decide_False.
Qed.

(** C1, at the input where the code departs from the claim: the workflow
    built for a topic, run with a content-generation handler that raises.
    The step ends [FAILED], the steps after it are executed all the same,
    the loop ends because every step has been executed, and the workflow is
    marked [COMPLETED].  The same happens when every handler raises: six
    failed steps, workflow [COMPLETED]. *)
Theorem C1_workflow_completed_despite_failed_step :
  (exists w',
     _execute_workflow generation_fails tick_clock 6 topic_workflow = Some w'
     /\ step_status "content_generation" w' = Some StepStatus.FAILED
     /\ WorkflowResult.status w' = WorkflowStatus.COMPLETED
     /\ WorkflowResult.error_message w' = None)
  /\ (exists w',
        _execute_workflow all_fail tick_clock 6 topic_workflow = Some w'
        /\ (WorkflowStep.status <$> WorkflowResult.steps w')
           = replicate 6 StepStatus.FAILED
        /\ WorkflowResult.status w' = WorkflowStatus.COMPLETED).
Proof.
  split; eexists; (split; [vm_compute; reflexivity|]); vm_compute; done.
Qed.

(** C2, at the input where the code departs from the claim: the scheduler
    task of the topic workflow launches the content-generation step, whose
    handler raises.  The failed step counts as executed, so at the head of
    the next pass the ready set is the step that depends on it; the step is
    launched (it is running while the scheduler awaits it) and, in the run
    to the end, executed. *)
Theorem C2_dependent_of_failed_step_is_launched :
  let failed_run :=
    failing_run "AI service unavailable" ∅
      (WorkflowStep.new "content_generation" "" "" "content_generation" []) in
  let s1 :=
    Scheduling.run [Resume 0%Q; HandlerDone "content_generation" failed_run]
      topic_system in
  let s2 := step s1 (Resume 1%Q) in
  (exists w1,
     workflow s1 = Some w1
     /\ step_status "content_generation" w1 = Some StepStatus.FAILED
     /\ mark_executed ["content_generation"] w1 ∅ = {[ "content_generation" ]}
     /\ ready_steps w1 {[ "content_generation" ]} = ["template_selection"])
  /\ (exists w2,
        workflow s2 = Some w2
        /\ pc (task s2) = AwaitGather ["template_selection"]
        /\ step_status "content_generation" w2 = Some StepStatus.FAILED
        /\ step_status "template_selection" w2 = Some StepStatus.RUNNING)
  /\ (exists w',
        _execute_workflow generation_fails tick_clock 6 topic_workflow = Some w'
        /\ step_status "content_generation" w' = Some StepStatus.FAILED
        /\ step_status "template_selection" w' = Some StepStatus.COMPLETED).
Proof.
  split; [|split]; eexists; (split; [vm_compute; reflexivity|]);
    vm_compute; done.
Qed.

(** C7, as the claim states it, fails: the graph has a cycle, the loop ends
    and the workflow is failed, but a step outside the cycle has failed
    before, and the error message is the list of failed steps, not the
    deadlock message. *)
Lemma C7_cycle_reported_as_step_failure :
  WorkflowResult.distinct_ids cyclic_workflow
  /\ has_cycle cyclic_workflow
  /\ exists w',
       _execute_workflow lone_fails tick_clock 3 cyclic_workflow = Some w'
       /\ WorkflowResult.status w' = WorkflowStatus.FAILED
       /\ WorkflowResult.error_message w' = Some "步骤失败: Lone"
       /\ WorkflowResult.error_message w' <> Some deadlock_message.
Proof.
  split; [|split].
  - apply (bool_decide_unpack _). vm_compute. exact I.
  - exists "ping". apply (tc_l _ _ "pong").
    + exists ["pong"]. split; [|set_solver].
      unfold shape. simpl. set_solver.
    + apply tc_once. exists ["ping"]. split; [|set_solver].
      unfold shape. simpl. set_solver.
  - eexists. split; [vm_compute; reflexivity|]. vm_compute. done.
Qed.

(** C7, amended: on a workflow whose dependency graph has a cycle or a
    dependency on a step outside the graph, the loop of the scheduler ends
    after at most as many passes as there are steps and the workflow is set
    to failed; the error message is the deadlock message when no step has
    failed, and the list of the failed steps otherwise. *)
Theorem C7_unsatisfiable_graph_ends_failed
    (handlers : Handlers) (clock : nat -> Time) (w : WorkflowResult.t) :
  WorkflowResult.distinct_ids w ->
  has_cycle w \/ has_dangling_dependency w ->
  exists w',
    _execute_workflow handlers clock (length (WorkflowResult.steps w)) w = Some w'
    /\ WorkflowResult.status w' = WorkflowStatus.FAILED
    /\ WorkflowResult.error_message w'
       = Some (match failed_steps w' with
               | [] => deadlock_message
               | failed => failure_message failed
               end).
Proof.
  intros Hnd Hbad.
  destruct (unsatisfiable_graph w Hnd Hbad) as (a & Ha & Hnot).
  unfold _execute_workflow.
  destruct (workflow_loop_stuck handlers clock (length (WorkflowResult.steps w)) 0
              (WorkflowResult.set_status WorkflowStatus.RUNNING w) ∅)
    as (w0 & n' & ->).
  - done.
  - intros x Hx. set_solver.
  - by exists a.
  - simpl. lia.
  - destruct (fail_no_ready_spec w0) as (Hst & Hsteps & Hmsg).
    destruct (finish_failed (clock n') _ Hst) as (Hst' & Hsteps' & Hmsg').
    eexists. split; [done|]. split; [done|].
    rewrite Hmsg', Hmsg. unfold failed_steps. by rewrite Hsteps', Hsteps.
Qed.

Lemma C7_unsatisfiable_graph_ends_failed_witness :
  exists w',
    _execute_workflow all_succeed tick_clock 3 cyclic_workflow = Some w'
    /\ WorkflowResult.status w' = WorkflowStatus.FAILED
    /\ WorkflowResult.error_message w'
       = Some (match failed_steps w' with
               | [] => deadlock_message
               | failed => failure_message failed
               end).
Proof.
  apply (C7_unsatisfiable_graph_ends_failed all_succeed tick_clock cyclic_workflow).
  - apply (bool_decide_unpack _). vm_compute. exact I.
  - left. exists "ping". apply (tc_l _ _ "pong").
    + exists ["pong"]. split; [|set_solver].
      unfold shape. simpl. set_solver.
    + apply tc_once. exists ["ping"]. split; [|set_solver].
      unfold shape. simpl. set_solver.
Defined.

End OutcomeClaims.

(** ** Failures of step handlers *)

Section HandlerFailure.
Import WorkflowEngine Scheduling WorkflowScenario.

(** The scheduler returns, whatever the handlers do. *)
Lemma execute_workflow_returns (handlers : Handlers) (clock : nat -> Time)
    (w : WorkflowResult.t) :
  is_Some (_execute_workflow handlers clock (length (WorkflowResult.steps w)) w).
Proof.
  unfold _execute_workflow.
  destruct (workflow_loop_terminates handlers clock
              (length (WorkflowResult.steps w)) 0
              (WorkflowResult.set_status WorkflowStatus.RUNNING w) ∅)
    as [[w' n] ->]; [simpl; lia|].
  by eexists.
Qed.

(** C8: when the handler of a step raises, [_execute_step] returns normally
    and leaves the step [FAILED], with the text of the exception as its
    error and the end time recorded; the workflow status is not touched by
    it, the scheduler itself returns whatever the handlers do, and a caller
    finds the failure in the report of [get_workflow_status]. *)
Theorem C8_handler_error_recorded_not_raised
    (handlers : Handlers) (clock : nat -> Time) (now : Time)
    (w : WorkflowResult.t) (step_id : string) (step : WorkflowStep.t)
    (e : PyExc) :
  WorkflowResult.find_step step_id w = Some step ->
  outcome (call_handler handlers (started now step) (begin_step now step_id w))
  = Raise e ->
  let run := call_handler handlers (started now step) (begin_step now step_id w) in
  let w' := _execute_step handlers now step_id w in
  (exists step',
     WorkflowResult.find_step step_id w' = Some step'
     /\ WorkflowStep.status step' = StepStatus.FAILED
     /\ WorkflowStep.error step' = Some (str_exc e)
     /\ WorkflowStep.end_time step' = Some (finished_at run))
  /\ WorkflowResult.status w' = WorkflowResult.status w
  /\ is_Some (_execute_workflow handlers clock
                (length (WorkflowResult.steps w)) w)
  /\ forall (engine : WorkflowEngine.t) (workflow_id : string),
       active_workflows engine !! workflow_id = Some w' ->
       exists report r,
         get_workflow_status engine workflow_id = Some report
         /\ (step_id, r) ∈ st_steps report
         /\ report_status r = "failed"
         /\ report_error r = Some (str_exc e).
Proof.
  intros Hstep Hraise run w'.
  assert (WorkflowResult.find_step step_id w' = Some (finished run (started now step)))
    as Hfind by (by apply execute_step_find).
  assert (WorkflowStep.status (finished run (started now step)) = StepStatus.FAILED
          /\ WorkflowStep.error (finished run (started now step))
             = Some (str_exc e)
          /\ WorkflowStep.end_time (finished run (started now step))
             = Some (finished_at run)) as (Hst & Herr & Hend).
  { unfold finished. subst run. by rewrite Hraise. }
  split; [by eexists|].
  split; [apply execute_step_status|].
  split; [apply execute_workflow_returns|].
  intros engine workflow_id Hreg.
  unfold get_workflow_status. rewrite Hreg. simpl.
  eexists _, _. split; [done|].
  destruct (find_step_Some _ _ _ Hfind) as [Hin Hid].
  split; [|split].
  - unfold report_of. simpl. apply list_elem_of_fmap.
    eexists. split; [|exact Hin]. by rewrite Hid.
  - simpl. by rewrite Hst.
  - simpl. by rewrite Herr.
Qed.

Lemma C8_handler_error_recorded_not_raised_witness :
  exists step',
    WorkflowResult.find_step "content_generation"
      (_execute_step generation_fails 1%Q "content_generation" topic_workflow)
    = Some step'
    /\ WorkflowStep.status step' = StepStatus.FAILED
    /\ WorkflowStep.error step' = Some "AI service unavailable"
    /\ WorkflowStep.end_time step' = Some 2%Q.
Proof.
  apply (C8_handler_error_recorded_not_raised generation_fails tick_clock 1%Q
           topic_workflow "content_generation"
           (WorkflowStep.new "content_generation" "内容生成" "使用AI生成视频内容"
              "content_generation" [])
           (Exception "AI service unavailable")); reflexivity.
Defined.

End HandlerFailure.

(** ** Cancellation *)

Section Cancellation.
Import WorkflowEngine Scheduling WorkflowScenario.

(** C10: [cancel_workflow] returns [True] for every registered workflow,
    whatever its state, completed and failed ones included: the state
    becomes [CANCELLED], the end time the time of the call and the total
    duration the time from the start to the call. *)
Theorem C10_cancel_overwrites_any_state
    (os : OS) (e : WorkflowEngine.t) (workflow_id : string)
    (w : WorkflowResult.t) :
  active_workflows e !! workflow_id = Some w ->
  (cancel_workflow os workflow_id e).1 = true
  /\ exists w',
       active_workflows (cancel_workflow os workflow_id e).2 !! workflow_id
       = Some w'
       /\ WorkflowResult.status w' = WorkflowStatus.CANCELLED
       /\ WorkflowResult.end_time w' = Some (time_now os)
       /\ WorkflowResult.total_duration w'
          = (time_now os - WorkflowResult.start_time w)%Q
       /\ WorkflowResult.steps w' = WorkflowResult.steps w.
Proof.
  intros Hreg. unfold cancel_workflow. rewrite Hreg. simpl.
  split; [done|]. eexists. split; [apply lookup_insert_eq|]. done.
Qed.

Lemma C10_cancel_overwrites_any_state_witness :
  WorkflowResult.status completed_workflow = WorkflowStatus.COMPLETED
  /\ (cancel_workflow RenderScenario.os_all_exit_zero "wf-1" completed_engine).1
     = true
  /\ exists w',
       active_workflows
         (cancel_workflow RenderScenario.os_all_exit_zero "wf-1"
            completed_engine).2 !! "wf-1"
       = Some w'
       /\ WorkflowResult.status w' = WorkflowStatus.CANCELLED
       /\ WorkflowResult.end_time w' = Some 100%Q
       /\ WorkflowResult.total_duration w'
          = (100 - WorkflowResult.start_time completed_workflow)%Q
       /\ WorkflowResult.steps w' = WorkflowResult.steps completed_workflow.
Proof.
  split; [vm_compute; reflexivity|].
  apply (C10_cancel_overwrites_any_state RenderScenario.os_all_exit_zero
           completed_engine "wf-1" completed_workflow).
  reflexivity.
Defined.

(** *** The scheduler goes by the steps alone *)

Lemma ready_steps_congr (w1 w2 : WorkflowResult.t) (executed : gset string) :
  WorkflowResult.steps w1 = WorkflowResult.steps w2 ->
  ready_steps w1 executed = ready_steps w2 executed.
Proof. unfold ready_steps. by intros ->. Qed.

Lemma update_step_congr (step_id : string)
    (f : WorkflowStep.t -> WorkflowStep.t) (w1 w2 : WorkflowResult.t) :
  WorkflowResult.steps w1 = WorkflowResult.steps w2 ->
  WorkflowResult.steps (WorkflowResult.update_step step_id f w1)
  = WorkflowResult.steps (WorkflowResult.update_step step_id f w2).
Proof. unfold WorkflowResult.update_step. simpl. by intros ->. Qed.

Lemma launch_congr (now : Time) (ready : list string) :
  forall w1 w2,
    WorkflowResult.steps w1 = WorkflowResult.steps w2 ->
    WorkflowResult.steps (launch now ready w1)
    = WorkflowResult.steps (launch now ready w2).
Proof.
  induction ready as [|r ready IH]; intros w1 w2 Hsteps; simpl; [done|].
  apply IH. by apply update_step_congr.
Qed.

Lemma finish_steps (now : Time) (w : WorkflowResult.t) :
  WorkflowResult.steps (finish now w) = WorkflowResult.steps w.
Proof. unfold finish. by destruct (decide _). Qed.

Lemma loop_head_congr (now : Time) (w1 w2 : WorkflowResult.t)
    (executed : gset string) :
  WorkflowResult.steps w1 = WorkflowResult.steps w2 ->
  WorkflowResult.steps (loop_head now w1 executed).1
  = WorkflowResult.steps (loop_head now w2 executed).1
  /\ (loop_head now w1 executed).2 = (loop_head now w2 executed).2.
Proof.
  intros Hsteps. unfold loop_head.
  rewrite (ready_steps_congr w1 w2 executed Hsteps), Hsteps.
  destruct (_ <? _)%nat; simpl.
  - destruct (ready_steps w2 executed) as [|r ready]; simpl.
    + rewrite !finish_steps.
      by rewrite (proj1 (proj2 (fail_no_ready_spec w1))),
                 (proj1 (proj2 (fail_no_ready_spec w2))).
    + split; [|done]. by apply (launch_congr now (r :: ready)).
  - by rewrite !finish_steps.
Qed.

Lemma mark_executed_congr (ready : list string) (w1 w2 : WorkflowResult.t) :
  WorkflowResult.steps w1 = WorkflowResult.steps w2 ->
  forall executed,
    mark_executed ready w1 executed = mark_executed ready w2 executed.
Proof.
  intros Hsteps. unfold mark_executed.
  induction ready as [|r ready IH]; intros executed; simpl; [done|].
  by rewrite (find_step_steps r w1 w2 Hsteps), IH.
Qed.

Lemma step_status_congr (step_id : string) (w1 w2 : WorkflowResult.t) :
  WorkflowResult.steps w1 = WorkflowResult.steps w2 ->
  step_status step_id w1 = step_status step_id w2.
Proof. intros Hsteps. unfold step_status. by rewrite (find_step_steps _ w1 w2). Qed.

Lemma gather_done_congr (ready : list string) (w1 w2 : WorkflowResult.t) :
  WorkflowResult.steps w1 = WorkflowResult.steps w2 ->
  gather_done ready w1 = gather_done ready w2.
Proof.
  intros Hsteps. unfold gather_done.
  induction ready as [|r ready IH]; simpl; [done|].
  by rewrite (step_status_congr r w1 w2 Hsteps), IH.
Qed.

Lemma resume_congr (now : Time) (w1 w2 : WorkflowResult.t) (t : Task) :
  WorkflowResult.steps w1 = WorkflowResult.steps w2 ->
  WorkflowResult.steps (resume now w1 t).1 = WorkflowResult.steps (resume now w2 t).1
  /\ (resume now w1 t).2 = (resume now w2 t).2.
Proof.
  intros Hsteps. unfold resume. destruct (pc t) as [|ready|]; [| |done].
  - destruct (loop_head_congr now
                (WorkflowResult.set_status WorkflowStatus.RUNNING w1)
                (WorkflowResult.set_status WorkflowStatus.RUNNING w2) ∅ Hsteps)
      as [H1 H2].
    destruct (loop_head now _ ∅) as [w1' pc1], (loop_head now _ ∅) as [w2' pc2].
    simpl in *. by subst.
  - rewrite (gather_done_congr ready w1 w2 Hsteps).
    destruct (gather_done ready w2); [|done].
    rewrite (mark_executed_congr ready w1 w2 Hsteps).
    destruct (loop_head_congr now w1 w2
                (mark_executed ready w2 (executed_steps t)) Hsteps) as [H1 H2].
    destruct (loop_head now w1 _) as [w1' pc1], (loop_head now w2 _) as [w2' pc2].
    simpl in *. by subst.
Qed.

Lemma handler_done_congr (step_id : string) (run : HandlerRun)
    (w1 w2 : WorkflowResult.t) (t : Task) :
  WorkflowResult.steps w1 = WorkflowResult.steps w2 ->
  WorkflowResult.steps (handler_done step_id run w1 t)
  = WorkflowResult.steps (handler_done step_id run w2 t).
Proof.
  intros Hsteps. unfold handler_done. destruct (pc t) as [|ready|]; try done.
  rewrite (step_status_congr step_id w1 w2 Hsteps).
  destruct (_ && _); [|done].
  rewrite !end_step_steps. by apply update_step_congr.
Qed.

Lemma schedule_view_eq (s1 s2 : System) :
  schedule_view s1 = schedule_view s2 <->
  task s1 = task s2
  /\ (WorkflowResult.steps <$> workflow s1) = (WorkflowResult.steps <$> workflow s2).
Proof.
  unfold schedule_view. split; [by intros [= -> ->]|by intros [-> ->]].
Qed.

Lemma cancel_workflow_lookup (os : OS) (i : string) (e : WorkflowEngine.t) :
  active_workflows (cancel_workflow os i e).2 !! i
  = mark_cancelled (time_now os) <$> active_workflows e !! i.
Proof.
  unfold cancel_workflow.
  destruct (active_workflows e !! i) as [w|] eqn:Hw; simpl; [|done].
  apply lookup_insert_eq.
Qed.

Lemma resume_workflow_id (now : Time) (w : WorkflowResult.t) (t : Task) :
  workflow_id (resume now w t).2 = workflow_id t.
Proof.
  unfold resume. destruct (pc t) as [|ready|]; [| |done].
  - by destruct (loop_head now _ ∅).
  - destruct (gather_done ready w); [|done].
    by destruct (loop_head now w _).
Qed.

(** Two systems that agree on the steps and on the scheduler task still do
    after the same event. *)
Lemma step_congr (s1 s2 : System) (ev : Event) :
  schedule_view s1 = schedule_view s2 ->
  schedule_view (step s1 ev) = schedule_view (step s2 ev).
Proof.
  rewrite !schedule_view_eq. unfold workflow.
  destruct s1 as [e1 t], s2 as [e2 t']. simpl. intros [<- Hsteps].
  unfold step. simpl.
  destruct ev as [now|step_id run|os].
  - destruct (active_workflows e1 !! workflow_id t) as [w1|] eqn:H1,
             (active_workflows e2 !! workflow_id t) as [w2|] eqn:H2;
      simpl in Hsteps; try done.
    + injection Hsteps as Hsteps.
      destruct (resume_congr now w1 w2 t Hsteps) as [Hw Ht].
      pose proof (resume_workflow_id now w1 t) as Hid1.
      destruct (resume now w1 t) as [w1' t1], (resume now w2 t) as [w2' t2].
      simpl in *. subst t2. split; [done|].
      rewrite Hid1, !lookup_insert_eq. simpl. by rewrite Hw.
    + simpl. by rewrite H1, H2.
  - destruct (active_workflows e1 !! workflow_id t) as [w1|] eqn:H1,
             (active_workflows e2 !! workflow_id t) as [w2|] eqn:H2;
      simpl in Hsteps; try done.
    + injection Hsteps as Hsteps. simpl. split; [done|].
      rewrite !lookup_insert_eq. simpl.
      by rewrite (handler_done_congr step_id run w1 w2 t Hsteps).
    + simpl. by rewrite H1, H2.
  - simpl. split; [done|].
    rewrite !cancel_workflow_lookup, <- !option_fmap_compose.
    destruct (active_workflows e1 !! workflow_id t),
             (active_workflows e2 !! workflow_id t); simpl in *; congruence.
Qed.

Lemma run_congr (events : list Event) :
  forall s1 s2,
    schedule_view s1 = schedule_view s2 ->
    schedule_view (Scheduling.run events s1)
    = schedule_view (Scheduling.run events s2).
Proof.
  induction events as [|ev events IH]; intros s1 s2 Hview; simpl; [done|].
  apply IH. by apply step_congr.
Qed.

(** A cancellation changes nothing the scheduler goes by. *)
Lemma cancel_schedule_view (os : OS) (s : System) :
  schedule_view (step s (CancelWorkflow os)) = schedule_view s.
Proof.
  apply schedule_view_eq. unfold workflow. simpl. split; [done|].
  rewrite cancel_workflow_lookup, <- option_fmap_compose.
  by destruct (active_workflows (engine s) !! _).
Qed.

(** C6, as the claim states it, fails: the scheduler task of the topic
    workflow has launched the first step when [cancel_workflow] is called;
    the workflow is marked cancelled, "template_selection" is pending.  The
    running handler returns, the scheduler is resumed, and
    "template_selection" is launched. *)
Lemma C6_pending_step_launched_after_cancel :
  let at_cancel :=
    Scheduling.run [Resume 0%Q; CancelWorkflow RenderScenario.os_all_exit_zero]
      topic_system in
  let later :=
    Scheduling.run
      [HandlerDone "content_generation"
         (ok_run ∅ (WorkflowStep.new "content_generation" "" "" "" []));
       Resume 1%Q]
      at_cancel in
  (exists w,
     workflow at_cancel = Some w
     /\ WorkflowResult.status w = WorkflowStatus.CANCELLED
     /\ step_status "content_generation" w = Some StepStatus.RUNNING
     /\ step_status "template_selection" w = Some StepStatus.PENDING)
  /\ (exists w,
        workflow later = Some w
        /\ WorkflowResult.status w = WorkflowStatus.CANCELLED
        /\ step_status "content_generation" w = Some StepStatus.COMPLETED
        /\ step_status "template_selection" w = Some StepStatus.RUNNING).
Proof.
  split; eexists; (split; [vm_compute; reflexivity|]); vm_compute; done.
Qed.

(** C6, amended: [cancel_workflow] marks the workflow cancelled and touches
    no step, so the step tasks that are running go on; the scheduler does
    not look at the mark: after the call, whatever happens next, the steps
    and the scheduler task are in the state they would be in without the
    call, so the steps that were pending are launched as their dependencies
    get executed. *)
Theorem C6_cancel_marks_but_scheduling_goes_on
    (os : OS) (s : System) (w : WorkflowResult.t) :
  workflow s = Some w ->
  (exists w',
     workflow (step s (CancelWorkflow os)) = Some w'
     /\ WorkflowResult.status w' = WorkflowStatus.CANCELLED
     /\ WorkflowResult.steps w' = WorkflowResult.steps w)
  /\ forall events,
       schedule_view (Scheduling.run events (step s (CancelWorkflow os)))
       = schedule_view (Scheduling.run events s).
Proof.
  intros Hw. split.
  - unfold workflow in *. simpl. rewrite cancel_workflow_lookup, Hw. simpl.
    by eexists.
  - intros events. apply run_congr, cancel_schedule_view.
Qed.

Lemma C6_cancel_marks_but_scheduling_goes_on_witness :
  let s := Scheduling.run [Resume 0%Q] topic_system in
  let s' := step s (CancelWorkflow RenderScenario.os_all_exit_zero) in
  let events :=
    [HandlerDone "content_generation"
       (ok_run ∅ (WorkflowStep.new "content_generation" "" "" "" []));
     Resume 1%Q] in
  schedule_view (Scheduling.run events s') = schedule_view (Scheduling.run events s).
Proof.
  intros s s' events.
  refine (proj2 (C6_cancel_marks_but_scheduling_goes_on
                   RenderScenario.os_all_exit_zero s
                   (default topic_workflow (workflow s)) _) events).
  vm_compute. reflexivity.
Defined.

End Cancellation.

(** * Further properties of the render supervisor *)

Section IdleSupervisor.
Import RenderManager Supervisor SupervisorMore RenderScenario RenderScenarioMore.

(** With the preset table of the constructor a launch fails before a
    process is spawned, and the job is gone without a trace. *)
Lemma start_render_job_idle (os : OS) (job : RenderJob.t) (w : World) :
  quality_presets (self w) = quality_presets_literal ->
  active_jobs (self w) = ∅ ->
  RenderJob.process job = None ->
  self (_start_render_job os job w) = self w.
Proof.
  intros Hpresets Hactive Hproc.
  unfold _start_render_job. cbv zeta.
  unfold _build_manim_command at 1, dict_getitem. simpl.
  rewrite Hpresets, quality_presets_literal_no_str_key. simpl.
  unfold _handle_job_completion. simpl. rewrite Hproc.
  unfold release_job. simpl.
  rewrite insert_insert_eq, delete_insert_eq, Hactive, delete_empty.
  destruct (self w) as [q a c mx cur od td qp]. simpl in *. subst.
  unfold set_current_renders, set_active_jobs, register_job. simpl.
  f_equal. lia.
Qed.

Lemma set_render_queue_same (m : t) :
  set_render_queue (render_queue m) m = m.
Proof. by destruct m. Qed.

Lemma start_pending_loop_idle (os : OS) (queue : list RenderJob.t) :
  forall w,
    quality_presets (self w) = quality_presets_literal ->
    active_jobs (self w) = ∅ ->
    (forall j, j ∈ queue -> RenderJob.process j = None) ->
    render_queue (self w) = queue ->
    self (start_pending_loop os queue w).2
    = set_render_queue
        (if (current_renders (self w) <? max_concurrent_renders (self w))%Z
         then [] else queue)
        (self w).
Proof.
  induction queue as [|job rest IH]; intros w Hpresets Hactive Hproc Hqueue;
    simpl.
  - rewrite <- Hqueue. destruct (_ <? _)%Z; [|apply eq_sym, set_render_queue_same].
    by rewrite Hqueue, <- Hqueue, set_render_queue_same.
  - destruct (_ <? _)%Z eqn:Hlt; simpl.
    + destruct (start_pending_loop os rest _) as [started w'] eqn:Hloop. simpl.
      pose proof (start_render_job_idle os job
                    (on_self (set_render_queue rest) w)) as Hstart.
      simpl in Hstart.
      specialize (Hstart Hpresets Hactive (Hproc job ltac:(left))).
      specialize (IH (_start_render_job os job (on_self (set_render_queue rest) w))).
      rewrite Hloop in IH. simpl in IH. rewrite IH; rewrite ?Hstart; simpl; try done.
      * rewrite Hlt. by destruct (self w).
      * intros j Hj. apply Hproc. by right.
    + rewrite <- Hqueue. apply eq_sym, set_render_queue_same.
Qed.

Lemma poll_active_jobs_empty (os : OS) (w : World) :
  active_jobs (self w) = ∅ -> poll_active_jobs os w = w.
Proof.
  intros Hactive. unfold poll_active_jobs.
  by rewrite Hactive, map_to_list_empty.
Qed.

Lemma monitor_tick_idle (os : OS) (w : World) :
  idle (self w) ->
  self (monitor_tick os w)
  = set_render_queue
      (if (0 <? max_concurrent_renders (self w))%Z then []
       else render_queue (self w))
      (self w).
Proof.
  intros (Hpresets & Hactive & Hcompleted & Hcur & Hwait).
  unfold monitor_tick, _start_pending_jobs.
  rewrite poll_active_jobs_empty; [|done].
  rewrite start_pending_loop_idle, Hcur; try done.
  intros j Hj. by apply Hwait.
Qed.

(** [idle] looks at the preset table, the two job tables, the counter and
    the jobs of the queue. *)
Lemma idle_ext (m m' : t) :
  quality_presets m' = quality_presets m ->
  active_jobs m' = active_jobs m ->
  completed_jobs m' = completed_jobs m ->
  current_renders m' = current_renders m ->
  (forall j, j ∈ render_queue m' ->
             j ∈ render_queue m
             \/ (RenderJob.status j = RenderStatus.PENDING
                 /\ RenderJob.process j = None)) ->
  idle m -> idle m'.
Proof.
  intros Hp Ha Hc Hn Hq (Hpresets & Hactive & Hcompleted & Hcur & Hwait).
  unfold idle. rewrite Hp, Ha, Hc, Hn.
  split; [done|]. split; [done|]. split; [done|]. split; [done|].
  intros j Hj. destruct (Hq j Hj) as [Hin|Hnew]; [by apply Hwait|done].
Qed.

Lemma cancel_job_idle (os : OS) (job_id : string) (m : t) :
  idle m -> idle (cancel_job os job_id m).2.
Proof.
  intros Hidle. pose proof Hidle as (_ & Hactive & _).
  unfold cancel_job. rewrite Hactive, lookup_empty.
  pose proof (cancel_queued_static job_id m) as (Ha & Hn & _ & Hc & Hsub).
  apply (idle_ext m); try done.
  - unfold cancel_queued. by destruct (remove_queued _ _).
  - intros j Hj. left. by eapply sublist_subseteq.
Qed.

Lemma step_idle (r : Run) (e : OS * Event) :
  idle (self (world r)) -> idle (self (world (step r e))).
Proof.
  intros Hidle. destruct e as [os ev]. unfold step. simpl.
  destruct ev as [scene_class config job_id|job_id| | |files]; simpl.
  - pose proof (submit_render_job_cases os scene_class config job_id (world r))
      as Hcases.
    destruct (submit_render_job _ _ _ _ _) as [[i|e] w']; simpl in *.
    + destruct Hcases as (_ & job & _ & Hst & Hproc & ->).
      apply (idle_ext (self (world r))); try done. simpl.
      intros j [Hj|Hj%list_elem_of_singleton]%elem_of_app; [by left|].
      right. by subst.
    + by subst w'.
  - by apply cancel_job_idle.
  - fold (monitor_tick os (world r)). rewrite monitor_tick_idle; [|done].
    apply (idle_ext (self (world r))); try done. simpl.
    intros j Hj. left. destruct (0 <? _)%Z; [inversion Hj|done].
  - apply (idle_ext (self (world r))); try done.
    + by destruct Hidle as (_ & _ & -> & _).
    + intros j Hj. by left.
  - done.
Qed.

Lemma run_idle (events : list (OS * Event)) :
  forall r, idle (self (world r)) -> idle (self (world (run events r))).
Proof.
  induction events as [|e events IH]; intros r Hr; simpl; [done|].
  apply IH. by apply step_idle.
Qed.

(** X1: a supervisor built by the constructor never renders anything.
    Whatever is submitted, cancelled and polled, and whatever the operating
    system does, after every sequence of events the active table is empty,
    no result has been recorded and the counter is zero; a status query
    answers "pending" or nothing; and when the limit is positive, a pass of
    the monitor empties the queue, after which every job is unknown. *)
Theorem fresh_supervisor_never_renders
    (config : Settings) (files : Files) (events : list (OS * Event)) :
  let r := run events (boot config files) in
  let m := self (world r) in
  active_jobs m = ∅
  /\ completed_jobs m = ∅
  /\ current_renders m = 0%Z
  /\ (forall job_id d,
        get_job_status m job_id = Some d -> status_of d = "pending")
  /\ (forall os job_id,
        (0 < max_concurrent_renders m)%Z ->
        render_queue (self (monitor_tick os (world r))) = []
        /\ get_job_status (self (monitor_tick os (world r))) job_id = None).
Proof.
  intros r m.
  assert (idle m) as Hidle.
  { apply run_idle. unfold idle. simpl.
    split; [done|]. split; [done|]. split; [done|]. split; [done|].
    intros j Hj. inversion Hj. }
  pose proof Hidle as (Hpresets & Hactive & Hcompleted & Hcur & Hwait).
  split; [done|]. split; [done|]. split; [done|]. split.
  - intros job_id d. unfold get_job_status.
    rewrite Hactive, Hcompleted, !lookup_empty. unfold find_queued.
    destruct (find _ _) as [job|] eqn:Hfind; [|done].
    apply find_some in Hfind as [Hin%list_elem_of_In _].
    destruct (Hwait job Hin) as [Hst _].
    intros [= <-]. simpl. by rewrite Hst.
  - intros os job_id Hmax. rewrite monitor_tick_idle; [|done].
    fold m. rewrite (proj2 (Z.ltb_lt _ _) Hmax). simpl. split; [done|].
    unfold get_job_status. simpl. fold m.
    by rewrite Hactive, Hcompleted, !lookup_empty.
Qed.

End IdleSupervisor.

Section Dispatch.
Import RenderManager Supervisor SupervisorMore RenderScenario RenderScenarioMore.

Lemma start_pending_loop_exhausts (os : OS) (queue : list RenderJob.t) :
  forall w,
    render_queue (self w) = queue ->
    render_queue (self (start_pending_loop os queue w).2) = []
    \/ (max_concurrent_renders (self (start_pending_loop os queue w).2)
        <= current_renders (self (start_pending_loop os queue w).2))%Z.
Proof.
  induction queue as [|job rest IH]; intros w Hqueue; simpl; [by left|].
  destruct (_ <? _)%Z eqn:Hlt; simpl.
  - destruct (start_pending_loop os rest _) as [started w'] eqn:Hloop. simpl.
    specialize (IH (_start_render_job os job (on_self (set_render_queue rest) w))).
    rewrite Hloop in IH. apply IH.
    by rewrite (proj1 (start_render_job_static os job _)).
  - right. by apply Z.ltb_ge.
Qed.

(** X2: a pass of the monitor leaves no job waiting while a slot is free:
    after it the queue is empty or the counter has reached the limit; on a
    supervisor that is within its limit the counter then equals it. *)
Theorem monitor_tick_leaves_no_free_slot (os : OS) (w : World) :
  let w' := monitor_tick os w in
  (render_queue (self w') = []
   \/ (max_concurrent_renders (self w') <= current_renders (self w'))%Z)
  /\ (well_kept (self w) ->
      render_queue (self w') <> [] ->
      current_renders (self w') = max_concurrent_renders (self w')).
Proof.
  intros w'.
  assert (render_queue (self w') = []
          \/ (max_concurrent_renders (self w') <= current_renders (self w'))%Z)
    as Hex by (by apply start_pending_loop_exhausts).
  split; [done|]. intros Hkept Hne.
  assert (well_kept (self w')) as [_ [_ Hle]].
  { by apply start_pending_loop_well_kept, poll_active_jobs_well_kept. }
  destruct Hex as [Hnil|Hfull]; [done|lia].
Qed.

Lemma busy_world_well_kept : well_kept (self busy_world).
Proof.
  split.
  - intros k j Hl. unfold busy_world in Hl. simpl in Hl.
    by apply lookup_singleton_Some in Hl as [<- <-].
  - unfold within_limit, busy_world. simpl. rewrite map_size_singleton. lia.
Qed.

Lemma monitor_tick_leaves_no_free_slot_witness :
  current_renders (self (monitor_tick os_all_running busy_world))
  = max_concurrent_renders (self (monitor_tick os_all_running busy_world)).
Proof.
  refine (proj2 (monitor_tick_leaves_no_free_slot os_all_running busy_world) _ _).
  - exact busy_world_well_kept.
  - vm_compute. discriminate.
Defined.

Lemma step_conserves (r : Run) (e : OS * Event) :
  is_cancel e = false ->
  launched r ++ (RenderJob.id <$> render_queue (self (world r))) = submitted r ->
  launched (step r e)
    ++ (RenderJob.id <$> render_queue (self (world (step r e))))
  = submitted (step r e).
Proof.
  intros Hnc Heq. destruct e as [os ev]. unfold step. simpl.
  destruct ev as [scene_class config job_id|job_id| | |files]; simpl;
    try done.
  - pose proof (submit_render_job_cases os scene_class config job_id (world r))
      as Hcases.
    destruct (submit_render_job _ _ _ _ _) as [[i|e] w']; simpl in *.
    + destruct Hcases as (_ & job & Hid & _ & _ & ->). simpl.
      by rewrite fmap_app, app_assoc, Heq, <- Hid.
    + by subst w'.
  - unfold _start_pending_jobs, started_by.
    pose proof (poll_fold_static os (map_to_list (active_jobs (self (world r))))
                  (world r)) as [Hq _].
    fold (poll_active_jobs os (world r)) in Hq.
    pose proof (start_pending_loop_prefix os _ (poll_active_jobs os (world r))
                  eq_refl) as Hpre.
    by rewrite <- app_assoc, <- fmap_app, Hpre, Hq.
Qed.

(** X3: as long as nobody cancels, no submission is lost, duplicated or
    reordered between the queue and the launches: the ids of the launched
    jobs, in launch order, followed by the ids still queued are exactly the
    ids of the accepted submissions, in submission order. *)
Theorem uncancelled_jobs_are_conserved
    (config : Settings) (files : Files) (events : list (OS * Event)) :
  (forall e, e ∈ events -> is_cancel e = false) ->
  let r := run events (boot config files) in
  launched r ++ (RenderJob.id <$> render_queue (self (world r))) = submitted r.
Proof.
  intros Hnc. simpl.
  assert (forall r0,
            launched r0 ++ (RenderJob.id <$> render_queue (self (world r0)))
            = submitted r0 ->
            launched (run events r0)
              ++ (RenderJob.id <$> render_queue (self (world (run events r0))))
            = submitted (run events r0)) as Hrun.
  { induction events as [|e events IH]; intros r0 Hr0; simpl; [done|].
    apply IH.
    - intros e' He'. apply Hnc. by right.
    - apply step_conserves; [|done]. apply Hnc. left. }
  by apply Hrun.
Qed.

Lemma uncancelled_jobs_are_conserved_witness :
  let r := run three_submissions (boot default_settings ∅) in
  launched r ++ (RenderJob.id <$> render_queue (self (world r))) = submitted r.
Proof.
  apply (uncancelled_jobs_are_conserved default_settings ∅ three_submissions).
  intros e He. unfold three_submissions in He.
  repeat (apply elem_of_cons in He as [-> | He]; [reflexivity|]).
  inversion He.
Defined.

Lemma find_append {A} (f : A -> bool) (l1 l2 : list A) :
  find f (l1 ++ l2)
  = match find f l1 with
    | Some x => Some x
    | None => find f l2
    end.
Proof.
  induction l1 as [|x l1 IH]; simpl; [done|]. by destruct (f x).
Qed.



(** X5: cancelling an id the supervisor does not know returns [False] and
    changes nothing. *)
Theorem cancel_unknown_job_is_refused (os : OS) (job_id : string) (m : t) :
  unknown job_id m -> cancel_job os job_id m = (false, m).
Proof.
  intros (Ha & _ & Hq). unfold cancel_job.
  destruct (active_jobs m !! job_id) as [j|] eqn:Hj.
  { by destruct (Ha _ _ Hj). }
  unfold cancel_queued.
  assert (remove_queued job_id (render_queue m) = None) as ->; [|done].
  induction (render_queue m) as [|j queue IH]; simpl; [done|].
  rewrite decide_False; [|apply Hq; left].
  rewrite IH; [done|]. intros j' Hj'. apply Hq. by right.
Qed.

Lemma cancel_unknown_job_is_refused_witness :
  cancel_job os_all_exit_zero "job-b" (self one_queued)
  = (false, self one_queued).
Proof.
  apply (cancel_unknown_job_is_refused os_all_exit_zero "job-b" (self one_queued)).
  split; [|split].
  - intros k j Hl. vm_compute in Hl. discriminate Hl.
  - reflexivity.
  - intros j Hj. unfold one_queued in Hj. simpl in Hj.
    apply list_elem_of_singleton in Hj as ->. simpl. discriminate.
Defined.

End Dispatch.

Section JobLifecycle.
Import RenderManager Supervisor SupervisorMore RenderScenario RenderScenarioMore.

(** X6: cancelling a running job.  When [terminate] raises, [cancel_job]
    returns [False] and changes nothing.  Otherwise it returns [True], the
    status query answers "cancelled", and the slot stays taken; when the
    monitor then finds the process gone with a nonzero exit code, the job is
    recorded as failed, with the text of standard error (or the default
    text) as its error: from then on the status query answers "failed", and
    the slot is free. *)
Theorem cancelled_running_job_ends_failed
    (os os' : OS) (w : World) (job_id : string) (job : RenderJob.t)
    (p : Popen) (rc : Z) :
  active_jobs (self w) !! job_id = Some job ->
  RenderJob.id job = job_id ->
  RenderJob.process job = Some p ->
  proc_poll os' p = Some rc ->
  rc <> 0%Z ->
  match proc_terminate os p with
  | Raise _ => cancel_job os job_id (self w) = (false, self w)
  | Return _ =>
      let m1 := (cancel_job os job_id (self w)).2 in
      let job1 := RenderJob.set_status RenderStatus.CANCELLED job in
      let w2 := monitor_job os' {| self := m1; fs := fs w |} (job_id, job1) in
      (cancel_job os job_id (self w)).1 = true
      /\ active_jobs m1 !! job_id = Some job1
      /\ get_job_status m1 job_id
         = Some (LiveStatus job_id "cancelled" (RenderJob.progress job)
                   (RenderJob.start_time job) (RenderJob.error_message job))
      /\ current_renders m1 = current_renders (self w)
      /\ get_job_status (self w2) job_id
         = Some (ResultStatus job_id "failed" 0 "" 0 0
                   (Some (str_or (proc_stderr os' p) "渲染进程异常退出")))
      /\ current_renders (self w2) = (current_renders (self w) - 1)%Z
  end.
Proof.
  intros Hjob Hid Hproc Hpoll Hrc.
  unfold cancel_job. rewrite Hjob, Hproc.
  destruct (proc_terminate os p) as [[]|e]; [|done].
  simpl. split; [done|].
  split; [apply lookup_insert_eq|].
  split.
  { unfold get_job_status. simpl. rewrite lookup_insert_eq. simpl.
    by rewrite Hid. }
  split; [done|].
  unfold monitor_job. simpl. rewrite Hproc, Hpoll.
  unfold _handle_job_completion. simpl. rewrite Hproc, Hpoll.
  rewrite decide_False; [|congruence].
  unfold release_job, record_result, get_job_status. simpl.
  rewrite Hid, lookup_delete_eq, lookup_insert_eq. simpl.
  by rewrite Hid.
Qed.

Lemma cancelled_running_job_ends_failed_witness :
  let m1 := (cancel_job os_all_running "job-a" (self busy_world)).2 in
  let job1 := RenderJob.set_status RenderStatus.CANCELLED running_job in
  let w2 :=
    monitor_job os_all_killed {| self := m1; fs := fs busy_world |}
      ("job-a", job1) in
  (cancel_job os_all_running "job-a" (self busy_world)).1 = true
  /\ active_jobs m1 !! "job-a" = Some job1
  /\ get_job_status m1 "job-a"
     = Some (LiveStatus "job-a" "cancelled" 0 (Some 90%Q) None)
  /\ current_renders m1 = 1%Z
  /\ get_job_status (self w2) "job-a"
     = Some (ResultStatus "job-a" "failed" 0 "" 0 0 (Some "terminated"))
  /\ current_renders (self w2) = (1 - 1)%Z.
Proof.
  apply (cancelled_running_job_ends_failed os_all_running os_all_killed
           busy_world "job-a" running_job {| pid := 1 |} (-15)%Z).
  - apply lookup_singleton_eq.
  - reflexivity.
  - reflexivity.
  - reflexivity.
  - discriminate.
Defined.

(** The command line does not depend on what a launch has written so far. *)
Lemma build_command_of_started (os : OS) (job : RenderJob.t) (m : t) :
  _build_manim_command
    (set_current_renders (current_renders m + 1)
       (register_job
          (RenderJob.set_start_time (Some (time_now os))
             (RenderJob.set_status RenderStatus.RUNNING job)) m))
    (RenderJob.set_start_time (Some (time_now os))
       (RenderJob.set_status RenderStatus.RUNNING job))
  = _build_manim_command m job.
Proof. reflexivity. Qed.

(** X7: a launch that fails, because the command cannot be built or the
    process cannot be spawned, leaves no trace of the job: nothing is
    recorded in the results, the counter is what it was, the scene script
    and the scratch files of the job are deleted, and the active table has
    lost the id of the job (an older running job of the same id with it). *)
Theorem failed_launch_leaves_no_trace
    (os : OS) (job : RenderJob.t) (w : World) (e : PyExc) :
  RenderJob.process job = None ->
  (cmd <-! _build_manim_command (self w) job; popen os cmd) = Raise e ->
  let w' := _start_render_job os job w in
  active_jobs (self w') = delete (RenderJob.id job) (active_jobs (self w))
  /\ completed_jobs (self w') = completed_jobs (self w)
  /\ current_renders (self w') = current_renders (self w)
  /\ render_queue (self w') = render_queue (self w)
  /\ fs w' = _cleanup_job_files (temp_dir (self w)) job (fs w).
Proof.
  intros Hproc Hraise. unfold _start_render_job. cbv zeta.
  simpl self. rewrite build_command_of_started, Hraise.
  unfold _handle_job_completion. simpl. rewrite Hproc.
  unfold release_job. simpl.
  rewrite insert_insert_eq, delete_insert_eq.
  repeat split; try done. lia.
Qed.

Lemma failed_launch_leaves_no_trace_witness :
  let w' := _start_render_job os_all_exit_zero (queued_job "job-b") busy_world in
  active_jobs (self w') = delete "job-b" (active_jobs (self busy_world))
  /\ completed_jobs (self w') = completed_jobs (self busy_world)
  /\ current_renders (self w') = current_renders (self busy_world)
  /\ render_queue (self w') = render_queue (self busy_world)
  /\ fs w'
     = _cleanup_job_files (temp_dir (self busy_world)) (queued_job "job-b")
         (fs busy_world).
Proof.
  apply (failed_launch_leaves_no_trace os_all_exit_zero (queued_job "job-b")
           busy_world (KeyError "medium_quality")); reflexivity.
Defined.

End JobLifecycle.

Section Progress.
Import RenderManager Supervisor SupervisorMore RenderScenario RenderScenarioMore.

Lemma capped_insert (a : gmap string RenderJob.t) (k : string)
    (j : RenderJob.t) :
  capped a ->
  (RenderJob.status j = RenderStatus.RUNNING -> (RenderJob.progress j <= 95)%Q) ->
  capped (<[k := j]> a).
Proof.
  intros Ha Hj k' j'. rewrite lookup_insert. case_decide.
  - intros [= <-]. done.
  - exact (Ha k' j').
Qed.

Lemma capped_delete (a : gmap string RenderJob.t) (k : string) :
  capped a -> capped (delete k a).
Proof. intros Ha k' j' [_ Hl]%lookup_delete_Some. exact (Ha k' j' Hl). Qed.

Lemma capped_write_back (job : RenderJob.t) (m : t) :
  capped (active_jobs m) ->
  (RenderJob.status job = RenderStatus.RUNNING ->
   (RenderJob.progress job <= 95)%Q) ->
  capped (active_jobs (write_back job m)).
Proof.
  intros Ha Hj. unfold write_back.
  destruct (active_jobs m !! RenderJob.id job); [|done].
  by apply capped_insert.
Qed.

Lemma handle_job_completion_capped (os : OS) (job : RenderJob.t) (w : World) :
  capped (active_jobs (self w)) ->
  capped (active_jobs (self (_handle_job_completion os job w))).
Proof.
  intros Ha. unfold _handle_job_completion, release_job.
  destruct (RenderJob.process _) as [p|]; [|simpl; by apply capped_delete].
  destruct (decide _); [|simpl; by apply capped_delete].
  destruct (_create_render_result _ _); [simpl; by apply capped_delete|].
  simpl. by apply capped_write_back.
Qed.

Lemma update_job_progress_capped (os : OS) (job : RenderJob.t) :
  (RenderJob.status job = RenderStatus.RUNNING ->
   (RenderJob.progress job <= 95)%Q) ->
  RenderJob.status (_update_job_progress os job) = RenderStatus.RUNNING ->
  (RenderJob.progress (_update_job_progress os job) <= 95)%Q.
Proof.
  unfold _update_job_progress.
  destruct (RenderJob.process job); [|done].
  destruct (RenderJob.start_time job) as [s|]; [|done].
  destruct (Qeq_bool s 0); [done|].
  intros _ _. simpl. apply Q.le_min_r.
Qed.

Lemma monitor_job_capped (os : OS) (w : World) (entry : string * RenderJob.t) :
  capped (active_jobs (self w)) ->
  (RenderJob.status entry.2 = RenderStatus.RUNNING ->
   (RenderJob.progress entry.2 <= 95)%Q) ->
  capped (active_jobs (self (monitor_job os w entry))).
Proof.
  intros Ha Hentry. unfold monitor_job.
  destruct (RenderJob.process _) eqn:Hp; [|done].
  destruct (proc_poll _ _).
  - by apply handle_job_completion_capped.
  - simpl. apply capped_write_back; [done|].
    by apply update_job_progress_capped.
Qed.

Lemma poll_fold_capped (os : OS) (entries : list (string * RenderJob.t)) :
  forall w,
    capped (active_jobs (self w)) ->
    (forall e, e ∈ entries ->
               RenderJob.status e.2 = RenderStatus.RUNNING ->
               (RenderJob.progress e.2 <= 95)%Q) ->
    capped (active_jobs (self (fold_left (monitor_job os) entries w))).
Proof.
  induction entries as [|e entries IH]; intros w Ha He; simpl; [done|].
  apply IH.
  - apply monitor_job_capped; [done|]. apply (He e). left.
  - intros e' He'. apply (He e'). by right.
Qed.

Lemma start_render_job_capped (os : OS) (job : RenderJob.t) (w : World) :
  capped (active_jobs (self w)) ->
  (RenderJob.progress job <= 95)%Q ->
  capped (active_jobs (self (_start_render_job os job w))).
Proof.
  intros Ha Hjob. unfold _start_render_job. cbv zeta.
  destruct (bindE _ _) as [p|e]; simpl.
  - by repeat apply capped_insert.
  - apply handle_job_completion_capped. simpl.
    by repeat apply capped_insert.
Qed.

Lemma start_pending_loop_capped (os : OS) (queue : list RenderJob.t) :
  forall w,
    capped (active_jobs (self w)) ->
    (forall j, j ∈ queue -> (RenderJob.progress j <= 95)%Q) ->
    capped (active_jobs (self (start_pending_loop os queue w).2)).
Proof.
  induction queue as [|job rest IH]; intros w Ha Hq; simpl; [done|].
  destruct (_ <? _)%Z; simpl; [|done].
  destruct (start_pending_loop os rest _) as [started w'] eqn:Hloop. simpl.
  specialize (IH (_start_render_job os job (on_self (set_render_queue rest) w))).
  rewrite Hloop in IH. apply IH.
  - apply start_render_job_capped; [done|]. apply (Hq job). left.
  - intros j Hj. apply (Hq j). by right.
Qed.

(** X8: the progress estimate stays capped.  If no running job of the
    active table and no queued job shows more than 95 percent, this is
    still so after any submission, cancellation, pass of the monitor,
    clearing of the results or change of the disk: a job shows 100 percent
    only once it is no longer running. *)
Theorem progress_stays_capped (r : Run) (e : OS * Event) :
  progress_capped (self (world r)) ->
  progress_capped (self (world (step r e))).
Proof.
  intros [Ha Hq]. destruct e as [os ev]. unfold step. simpl.
  destruct ev as [scene_class config job_id|job_id| | |files]; simpl.
  - unfold submit_render_job, _create_scene_file.
    destruct (scene_source scene_class); simpl; [|done].
    split; [done|]. simpl.
    intros j [Hj|Hj%list_elem_of_singleton]%elem_of_app; [exact (Hq j Hj)|].
    by subst.
  - split.
    + unfold cancel_job.
      destruct (active_jobs _ !! job_id) as [job|] eqn:Hjob;
        [destruct (RenderJob.process job);
           [destruct (proc_terminate os _); simpl; [by apply capped_insert|done]|]|];
        by rewrite (proj1 (cancel_queued_static job_id _)).
    + intros j Hj. apply (Hq j).
      by eapply sublist_subseteq; [apply (cancel_job_queue os job_id)|].
  - pose proof (poll_fold_static os (map_to_list (active_jobs (self (world r))))
                  (world r)) as [Hqueue _].
    fold (poll_active_jobs os (world r)) in Hqueue.
    assert (capped (active_jobs (self (poll_active_jobs os (world r))))) as Hp.
    { apply poll_fold_capped; [done|].
      intros [k j] Hel%elem_of_map_to_list. exact (Ha k j Hel). }
    unfold _start_pending_jobs. split.
    + apply start_pending_loop_capped; [done|].
      intros j Hj. apply (Hq j). by rewrite <- Hqueue.
    + pose proof (start_pending_loop_prefix os _ (poll_active_jobs os (world r))
                    eq_refl) as Hpre.
      intros j Hj. apply (Hq j). rewrite <- Hqueue, <- Hpre.
      apply elem_of_app. by right.
  - done.
  - done.
Qed.

Lemma progress_stays_capped_witness :
  progress_capped (self (world (step busy_run (os_all_running, Tick)))).
Proof.
  apply (progress_stays_capped busy_run (os_all_running, Tick)).
  split.
  - intros k j Hl _. unfold busy_run, busy_world in Hl. simpl in Hl.
    apply lookup_singleton_Some in Hl as [_ <-]. vm_compute. discriminate.
  - intros j Hj. unfold busy_run, busy_world in Hj. simpl in Hj.
    apply list_elem_of_singleton in Hj as ->. vm_compute. discriminate.
Defined.

(** X9: the progress of a running job does not go back as long as the
    clock does not.  Of two successive updates, the second at a clock
    reading that is not before the first, the second leaves a progress that
    is not below the one the first left. *)
Theorem progress_does_not_go_back (os1 os2 : OS) (job : RenderJob.t) :
  (time_now os1 <= time_now os2)%Q ->
  (RenderJob.progress (_update_job_progress os1 job)
   <= RenderJob.progress
        (_update_job_progress os2 (_update_job_progress os1 job)))%Q.
Proof.
  intros Hclock. unfold _update_job_progress.
  destruct (RenderJob.process job) as [p|] eqn:Hp; simpl;
    [|rewrite Hp; apply Qle_refl].
  destruct (RenderJob.start_time job) as [s|] eqn:Hs; simpl;
    [|rewrite Hp, Hs; apply Qle_refl].
  destruct (Qeq_bool s 0) eqn:Hz; simpl; rewrite Hp, Hs, Hz; simpl;
    [apply Qle_refl|].
  apply Q.min_le_compat_r.
  apply Qmult_le_compat_r; [|done].
  apply Qmult_le_compat_r; [|done].
  apply Qplus_le_compat; [done|apply Qle_refl].
Qed.

Lemma progress_does_not_go_back_witness :
  (RenderJob.progress (_update_job_progress os_all_running running_job)
   <= RenderJob.progress
        (_update_job_progress os_all_killed
           (_update_job_progress os_all_running running_job)))%Q.
Proof.
  apply (progress_does_not_go_back os_all_running os_all_killed running_job).
  vm_compute. discriminate.
Defined.

End Progress.

Section Cleanup.
Import RenderManager Supervisor SupervisorMore RenderScenario RenderScenarioMore.

Lemma prefix_append (d x : string) : String.prefix d (d +:+ x) = true.
Proof.
  induction d as [|c d IH]; simpl; [by destruct x|].
  by destruct (Ascii.ascii_dec c c).
Qed.

Lemma substring_drop (d x : string) (n : nat) :
  String.substring (String.length d) n (d +:+ x) = String.substring 0 n x.
Proof. induction d as [|c d IH]; simpl; [done|]. apply IH. Qed.

Lemma substring_whole (x y : string) :
  String.substring 0 (String.length x) (x +:+ y) = x.
Proof.
  induction x as [|c x IH]; simpl; [by destruct y|]. by rewrite IH.
Qed.

Lemma length_append (x y : string) :
  String.length (x +:+ y) = (String.length x + String.length y)%nat.
Proof. induction x as [|c x IH]; simpl; [done|]. by rewrite IH. Qed.

Lemma substring_all (x : string) :
  String.substring 0 (String.length x) x = x.
Proof. induction x as [|c x IH]; simpl; [done|]. by rewrite IH. Qed.

Lemma append_assoc' (x y z : string) : (x +:+ y) +:+ z = x +:+ y +:+ z.
Proof.
  induction x as [|c x IH]; [reflexivity|].
  change (String c ((x +:+ y) +:+ z) = String c (x +:+ y +:+ z)).
  by rewrite IH.
Qed.

(** A string occurs in every string it is a part of. *)
Lemma index_infix (a i b : string) :
  i <> "" -> String.index 0 i (a +:+ i +:+ b) <> None.
Proof.
  intros Hne Hnone.
  apply (String.index_correct3 0 (String.length a) i (a +:+ i +:+ b) Hnone Hne);
    [lia|].
  by rewrite substring_drop, substring_whole.
Qed.

Lemma dir_entry_join (dir name : string) :
  String.index 0 "/" name = None ->
  dir_entry dir (path_join dir name) = Some name.
Proof.
  intros Hslash. unfold dir_entry, path_join.
  rewrite <- append_assoc'. generalize (dir +:+ "/"). intros d.
  rewrite prefix_append, substring_drop, length_append.
  replace (String.length d + String.length name - String.length d)%nat
    with (String.length name) by lia.
  by rewrite substring_all, Hslash.
Qed.



Lemma glob_literal_nonempty (job_id : string) :
  glob_literal job_id = true -> job_id <> "".
Proof. by intros Hlit ->. Qed.

(** X11: the clean-up of a job goes by substring.  For a job whose id
    [Path.glob] reads literally (not empty, no wildcard character, no path
    separator), finalizing the job deletes the scene script of every other
    job whose id contains that id, whether the other job is queued, running
    or not yet launched. *)
Theorem cleanup_deletes_scripts_of_longer_ids
    (temp : string) (job : RenderJob.t) (files : Files) (a b : string) :
  glob_literal (RenderJob.id job) = true ->
  String.index 0 "/" ("scene_" +:+ (a +:+ RenderJob.id job +:+ b) +:+ ".py") = None ->
  _cleanup_job_files temp job files
    !! path_join temp ("scene_" +:+ (a +:+ RenderJob.id job +:+ b) +:+ ".py")
  = None.
Proof.
  intros Hid%glob_literal_nonempty Hslash. apply cleanup_removes_scratch.
  unfold glob_matches. rewrite dir_entry_join; [|done].
  destruct (String.index 0 (RenderJob.id job) _) eqn:Hindex; [done|].
  exfalso. revert Hindex.
  replace ("scene_" +:+ (a +:+ RenderJob.id job +:+ b) +:+ ".py")
    with (("scene_" +:+ a) +:+ RenderJob.id job +:+ (b +:+ ".py")).
  - by apply index_infix.
  - by rewrite !append_assoc'.
Qed.

Lemma cleanup_deletes_scripts_of_longer_ids_witness :
  _cleanup_job_files "/tmp/clipturbo_render" (queued_job "job-1")
    {[ "/tmp/clipturbo_render/scene_job-12.py" := 224%Z ]}
    !! "/tmp/clipturbo_render/scene_job-12.py"
  = None.
Proof.
  apply (cleanup_deletes_scripts_of_longer_ids "/tmp/clipturbo_render"
           (queued_job "job-1")
           {[ "/tmp/clipturbo_render/scene_job-12.py" := 224%Z ]} "" "2").
  - reflexivity.
  - reflexivity.
Defined.

End Cleanup.

Section BlockedSlot.
Import RenderManager Supervisor SupervisorMore RenderScenario RenderScenarioMore.

Lemma monitor_tick_blocked (os : OS) (job_id : string) (p : Popen)
    (output : string) (w : World) :
  blocked job_id p output w ->
  proc_poll os p = Some 0%Z ->
  let w' := monitor_tick os w in
  blocked job_id p output w'
  /\ render_queue (self w') = render_queue (self w)
  /\ completed_jobs (self w') = completed_jobs (self w)
  /\ current_renders (self w') = current_renders (self w)
  /\ max_concurrent_renders (self w') = max_concurrent_renders (self w)
  /\ (RenderJob.status <$> active_jobs (self w') !! job_id)
     = Some RenderStatus.COMPLETED.
Proof.
  intros ((job & Hact & Hid & Hp & Hout) & Hfile & Hfull) Hpoll.
  unfold monitor_tick, poll_active_jobs. rewrite Hact, map_to_list_singleton.
  simpl. unfold monitor_job. simpl. rewrite Hp, Hpoll.
  unfold _handle_job_completion. simpl. rewrite Hp, Hpoll.
  rewrite decide_True; [|done].
  unfold _create_render_result. simpl. rewrite Hout, Hfile. simpl.
  unfold on_self, write_back. simpl.
  rewrite Hid, Hact, lookup_singleton_eq. simpl.
  rewrite insert_singleton_eq.
  unfold _start_pending_jobs. simpl.
  assert (forall (queue : list RenderJob.t) (w0 : World),
             (max_concurrent_renders (self w0) <= current_renders (self w0))%Z ->
             (start_pending_loop os queue w0).2 = w0) as Hidle.
  { intros [|j q] w0 Hw0; [done|].
    simpl. by rewrite (proj2 (Z.ltb_ge _ _) Hw0). }
  rewrite Hidle; [|done]. simpl.
  split; [|by rewrite lookup_singleton_eq].
  split; [|done]. eexists. split; [reflexivity|]. done.
Qed.

(** X12: a job whose process exits with code 0 without having written its
    output file is never released.  When such a job is the one registered
    job and the slots are used up, then however often the monitor runs the
    job stays registered (reported as completed), no result is recorded for
    it, the counter keeps its value and the queue keeps every waiting job. *)
Theorem job_without_output_blocks_the_queue
    (oss : list OS) (job_id : string) (p : Popen) (output : string) (w : World) :
  blocked job_id p output w ->
  Forall (fun os => proc_poll os p = Some 0%Z) oss ->
  oss <> [] ->
  let w' := ticks oss w in
  dom (active_jobs (self w')) = {[ job_id ]}
  /\ (RenderJob.status <$> active_jobs (self w') !! job_id)
     = Some RenderStatus.COMPLETED
  /\ completed_jobs (self w') = completed_jobs (self w)
  /\ current_renders (self w') = current_renders (self w)
  /\ render_queue (self w') = render_queue (self w).
Proof.
  intros Hb Hall Hne. simpl.
  assert (blocked job_id p output (ticks oss w)
          /\ render_queue (self (ticks oss w)) = render_queue (self w)
          /\ completed_jobs (self (ticks oss w)) = completed_jobs (self w)
          /\ current_renders (self (ticks oss w)) = current_renders (self w)
          /\ (oss <> [] ->
              (RenderJob.status <$> active_jobs (self (ticks oss w)) !! job_id)
              = Some RenderStatus.COMPLETED)) as (Hb' & Hq & Hc & Hn & Hs).
  { clear Hne. induction oss as [|os oss IH] using rev_ind; [done|].
    apply Forall_app in Hall as [Hall Hos%Forall_inv].
    destruct (IH Hall) as (Hb' & Hq & Hc & Hn & _).
    unfold ticks in *. rewrite fold_left_app. simpl.
    destruct (monitor_tick_blocked os job_id p output _ Hb' Hos)
      as (Hb'' & Hq' & Hc' & Hn' & _ & Hs').
    split; [done|]. split; [congruence|]. split; [congruence|].
    split; [congruence|]. done. }
  destruct Hb' as ((job & Hact & _) & _).
  split; [by rewrite Hact, dom_singleton_L|]. eauto.
Qed.

Lemma job_without_output_blocks_the_queue_witness :
  let w' := ticks [os_all_exit_zero; os_all_exit_zero] busy_world in
  dom (active_jobs (self w')) = {[ "job-a" ]}
  /\ (RenderJob.status <$> active_jobs (self w') !! "job-a")
     = Some RenderStatus.COMPLETED
  /\ completed_jobs (self w') = ∅
  /\ current_renders (self w') = 1%Z
  /\ render_queue (self w') = [queued_job "job-b"].
Proof.
  apply (job_without_output_blocks_the_queue
           [os_all_exit_zero; os_all_exit_zero] "job-a" {| pid := 1 |}
           "output/job-a.mp4" busy_world).
  - split; [|split; [reflexivity|simpl; lia]].
    exists running_job. done.
  - repeat constructor.
  - discriminate.
Defined.

End BlockedSlot.

Section Shutdown.
Import RenderManager Supervisor SupervisorMore RenderScenario RenderScenarioMore.

Lemma cancel_all_spec (os : OS) (keys : list string) (m : t) :
  terminable os (active_jobs m) ->
  (forall k, k ∈ keys -> is_Some (active_jobs m !! k)) ->
  let m' := cancel_all os keys m in
  render_queue m' = render_queue m
  /\ completed_jobs m' = completed_jobs m
  /\ current_renders m' = current_renders m
  /\ max_concurrent_renders m' = max_concurrent_renders m
  /\ temp_dir m' = temp_dir m
  /\ forall k,
       active_jobs m' !! k
       = if decide (k ∈ keys)
         then RenderJob.set_status RenderStatus.CANCELLED <$> active_jobs m !! k
         else active_jobs m !! k.
Proof.
  revert m. induction keys as [|k0 keys IH]; intros m Hterm Hkeys; simpl.
  { done. }
  destruct (Hkeys k0) as [j Hj]; [left|].
  destruct (Hterm _ _ Hj) as (p & Hp & Hkill).
  assert ((cancel_job os k0 m).2
          = set_active_jobs
              (<[k0 := RenderJob.set_status RenderStatus.CANCELLED j]>
                 (active_jobs m)) m) as Hstep.
  { unfold cancel_job. by rewrite Hj, Hp, Hkill. }
  rewrite Hstep. clear Hstep.
  set (m1 := set_active_jobs _ m).
  destruct (IH m1) as (Hq & Hc & Hn & Hmax & Htmp & Ha).
  - intros k j' Hl. unfold m1 in Hl. simpl in Hl.
    destruct (decide (k = k0)) as [->|Hne].
    + rewrite lookup_insert_eq in Hl. injection Hl as <-. by exists p.
    + rewrite lookup_insert_ne in Hl; [|done]. by eapply Hterm.
  - intros k Hk. unfold m1. simpl.
    destruct (decide (k = k0)) as [->|Hne].
    + rewrite lookup_insert_eq. by eexists.
    + rewrite lookup_insert_ne; [|done]. apply Hkeys. by right.
  - repeat (split; [done|]). intros k. rewrite Ha. unfold m1. simpl.
    destruct (decide (k = k0)) as [->|Hne].
    + rewrite lookup_insert_eq, Hj, (decide_True (P := k0 ∈ k0 :: keys));
        [|left]. by case_decide.
    + rewrite lookup_insert_ne; [|done].
      destruct (decide (k ∈ keys)) as [Hin|Hnin].
      * rewrite decide_True; [done|by right].
      * rewrite decide_False; [done|].
        intros [?|?]%elem_of_cons; done.
Qed.

(** X13: [shutdown] marks the active jobs cancelled and empties the scratch
    directory, and that is all.  When every active job has a process that
    accepts the termination request, each of them is still registered
    afterwards with status CANCELLED; the counter of running renders, the
    queue and the recorded results are as before; no file is left below
    [temp_dir], and every other file is kept. *)
Theorem shutdown_cancels_and_releases_nothing (os : OS) (w : World) :
  terminable os (active_jobs (self w)) ->
  let w' := shutdown os w in
  active_jobs (self w')
  = (RenderJob.set_status RenderStatus.CANCELLED <$> active_jobs (self w))
  /\ current_renders (self w') = current_renders (self w)
  /\ render_queue (self w') = render_queue (self w)
  /\ completed_jobs (self w') = completed_jobs (self w)
  /\ forall path,
       fs w' !! path
       = if String.prefix (temp_dir (self w) +:+ "/") path then None
         else fs w !! path.
Proof.
  intros Hterm. simpl.
  destruct (cancel_all_spec os (map_to_list (active_jobs (self w))).*1 (self w))
    as (Hq & Hc & Hn & _ & _ & Ha); [done| |].
  { intros k ((k' & j) & -> & Hin%elem_of_map_to_list)%list_elem_of_fmap.
    by eexists. }
  split; [|split; [done|split; [done|split; [done|]]]].
  - apply map_eq. intros k. rewrite Ha, lookup_fmap.
    case_decide as Hin; [done|].
    destruct (active_jobs (self w) !! k) as [j|] eqn:Hj; [|done].
    destruct Hin. apply list_elem_of_fmap. exists (k, j).
    split; [done|]. by apply elem_of_map_to_list.
  - intros path. unfold rmtree.
    destruct (String.prefix _ path) eqn:Hpre.
    + apply map_lookup_filter_None. right. intros size _. simpl. by rewrite Hpre.
    + destruct (fs w !! path) as [size|] eqn:Hpath.
      * apply map_lookup_filter_Some. done.
      * apply map_lookup_filter_None. by left.
Qed.

Lemma shutdown_cancels_and_releases_nothing_witness :
  let w' := shutdown os_all_running busy_world in
  active_jobs (self w')
  = (RenderJob.set_status RenderStatus.CANCELLED <$> active_jobs (self busy_world))
  /\ current_renders (self w') = 1%Z
  /\ render_queue (self w') = [queued_job "job-b"]
  /\ completed_jobs (self w') = ∅
  /\ forall path,
       fs w' !! path
       = if String.prefix ("/tmp/clipturbo_render" +:+ "/") path then None
         else fs busy_world !! path.
Proof.
  apply (shutdown_cancels_and_releases_nothing os_all_running busy_world).
  intros k j Hl. unfold busy_world in Hl. simpl in Hl.
  apply lookup_singleton_Some in Hl as [_ <-].
  exists {| pid := 1 |}. split; reflexivity.
Defined.

End Shutdown.

Section Preview.
Import RenderManager Supervisor SupervisorMore RenderScenario RenderScenarioMore.

(** X14: the id of a preview is the clock in milliseconds.  Two previews
    requested within one millisecond are queued under the same id and the
    same scene script, and the script on disk is the one of the second
    request: the first job, too, will render the second scene. *)
Theorem previews_within_a_millisecond_share_id_and_script
    (os1 os2 : OS) (scene1 scene2 : SceneClass)
    (config1 config2 : option RenderConfig.t) (source1 source2 : string)
    (w : World) :
  py_int (time_now os1 * 1000) = py_int (time_now os2 * 1000) ->
  scene_source scene1 = Some source1 ->
  scene_source scene2 = Some source2 ->
  exists job_id w1 w2 job1 job2,
    render_preview os1 scene1 config1 w = (Return job_id, w1)
    /\ render_preview os2 scene2 config2 w1 = (Return job_id, w2)
    /\ render_queue (self w2) = render_queue (self w) ++ [job1; job2]
    /\ RenderJob.id job1 = job_id /\ RenderJob.id job2 = job_id
    /\ RenderJob.scene_class job1 = scene1
    /\ RenderJob.scene_class job2 = scene2
    /\ RenderJob.scene_file job1 = RenderJob.scene_file job2
    /\ fs w2 !! RenderJob.scene_file job1
       = Some (Z.of_nat (String.length (scene_code scene2 source2))).
Proof.
  intros Hclock Hsrc1 Hsrc2.
  unfold render_preview, submit_render_job, _create_scene_file.
  rewrite Hsrc1, Hsrc2, Hclock. simpl.
  do 5 eexists. split; [reflexivity|]. split; [reflexivity|].
  unfold on_self, set_fs. simpl.
  split; [by rewrite <- app_assoc|]. simpl.
  repeat (split; [reflexivity|]). apply lookup_insert_eq.
Qed.

Lemma previews_within_a_millisecond_share_id_and_script_witness :
  exists job_id w1 w2 job1 job2,
    render_preview os_all_running demo_scene None busy_world = (Return job_id, w1)
    /\ render_preview os_all_running other_scene None w1 = (Return job_id, w2)
    /\ render_queue (self w2) = render_queue (self busy_world) ++ [job1; job2]
    /\ RenderJob.id job1 = job_id /\ RenderJob.id job2 = job_id
    /\ RenderJob.scene_class job1 = demo_scene
    /\ RenderJob.scene_class job2 = other_scene
    /\ RenderJob.scene_file job1 = RenderJob.scene_file job2
    /\ fs w2 !! RenderJob.scene_file job1
       = Some (Z.of_nat (String.length
                 (scene_code other_scene "class OtherScene(Scene): pass"))).
Proof.
  apply (previews_within_a_millisecond_share_id_and_script
           os_all_running os_all_running demo_scene other_scene None None
           "class Demo(Scene): pass" "class OtherScene(Scene): pass" busy_world);
    reflexivity.
Defined.

End Preview.

(** * Further properties of the workflow engine *)

Section RenderingStep.
Import RenderManager Supervisor SupervisorMore WorkflowEngine WorkflowMore
  RenderScenario RenderScenarioMore.

Lemma idle_status (m : RenderManager.t) (job_id : string) :
  idle m ->
  get_job_status m job_id = None
  \/ get_job_status m job_id = Some (LiveStatus job_id "pending" 0 None None).
Proof.
  intros (_ & Hactive & Hcompleted & _ & Hwait). unfold get_job_status.
  rewrite Hactive, Hcompleted, !lookup_empty. unfold find_queued.
  destruct (find _ _) as [job|] eqn:Hfind; [|by left].
  apply find_some in Hfind as [Hin%list_elem_of_In Hid%bool_decide_eq_true].
  destruct (Hwait job Hin) as [Hst _]. right. by rewrite Hst, Hid.
Qed.

Lemma wait_for_render_idle (job_id : string) (sleeps : list (list (OS * Event)))
    (context : Context) :
  forall progress r,
    idle (self (world r)) ->
    match wait_for_render job_id sleeps context progress r with
    | Some rendering =>
        rendering_outcome rendering
        = Raise (Exception ("渲染任务不存在: " +:+ job_id))
        /\ rendering_context rendering = context
    | None => True
    end.
Proof.
  induction sleeps as [|events sleeps IH]; intros progress r Hidle; simpl;
    destruct (idle_status (self (world r)) job_id Hidle) as [-> | ->]; simpl;
    try done.
  apply IH. by apply run_idle.
Qed.

Lemma wait_for_render_pending (job_id : string) (events : list (OS * Event))
    (sleeps : list (list (OS * Event))) (context : Context) (progress : Q)
    (r : Run) :
  get_job_status (self (world r)) job_id
  = Some (LiveStatus job_id "pending" 0 None None) ->
  wait_for_render job_id (events :: sleeps) context progress r
  = wait_for_render job_id sleeps context 0 (run events r).
Proof. intros Hst. simpl. by rewrite Hst. Qed.

Lemma wait_for_render_unknown (job_id : string)
    (sleeps : list (list (OS * Event))) (context : Context) (progress : Q)
    (r : Run) :
  get_job_status (self (world r)) job_id = None ->
  wait_for_render job_id sleeps context progress r
  = Some {| rendering_outcome := Raise (Exception ("渲染任务不存在: " +:+ job_id));
            rendering_context := context;
            rendering_progress := progress;
            rendering_run := r |}.
Proof. intros Hst. destruct sleeps; simpl; by rewrite Hst. Qed.

Lemma step_idle_limit (r : Run) (e : OS * Event) :
  idle (self (world r)) ->
  max_concurrent_renders (self (world (step r e)))
  = max_concurrent_renders (self (world r)).
Proof.
  intros Hidle. destruct e as [os ev]. unfold step. simpl.
  destruct ev as [scene_class config job_id|job_id| | |files]; simpl; try done.
  - pose proof (submit_render_job_cases os scene_class config job_id (world r))
      as Hcases.
    destruct (submit_render_job _ _ _ _ _) as [[i|e] w']; simpl in *.
    + destruct Hcases as (_ & job & _ & _ & _ & ->). done.
    + by subst w'.
  - destruct Hidle as (_ & Hactive & _).
    unfold cancel_job. rewrite Hactive, lookup_empty.
    by destruct (cancel_queued_static job_id (self (world r))) as (_ & _ & -> & _).
  - fold (monitor_tick os (world r)). by rewrite monitor_tick_idle.
Qed.

Lemma run_idle_limit (events : list (OS * Event)) :
  forall r,
    idle (self (world r)) ->
    max_concurrent_renders (self (world (run events r)))
    = max_concurrent_renders (self (world r)).
Proof.
  induction events as [|e events IH]; intros r Hr; simpl; [done|].
  rewrite IH; [|by apply step_idle]. by apply step_idle_limit.
Qed.

Lemma boot_idle (config : Settings) (files : Files) :
  idle (self (world (boot config files))).
Proof.
  unfold idle. simpl.
  split; [done|]. split; [done|]. split; [done|]. split; [done|].
  intros j Hj. inversion Hj.
Qed.

(** X15: on a supervisor built by the constructor the rendering step of a
    workflow cannot succeed.  Whatever happened to the supervisor before
    and whatever happens while the handler sleeps, the handler never
    returns an output file: it is still waiting, or it has raised, and then
    without having written 'render_job_id' to the context. *)
Theorem rendering_step_never_succeeds
    (config : Settings) (files : Files) (events : list (OS * Event))
    (os : OS) (scene_class : SceneClass) (render_config : RenderConfig.t)
    (sleeps : list (list (OS * Event))) (context : Context) (progress : Q) :
  match
    _handle_video_rendering os scene_class render_config sleeps context
      progress (run events (boot config files))
  with
  | Some rendering =>
      (exists e, rendering_outcome rendering = Raise e)
      /\ rendering_context rendering = context
  | None => True
  end.
Proof.
  pose proof (run_idle events _ (boot_idle config files)) as Hidle.
  set (r := run events (boot config files)) in *.
  unfold _handle_video_rendering.
  pose proof (step_idle r (os, Submit scene_class render_config None) Hidle)
    as Hstep.
  unfold step in Hstep. simpl in Hstep.
  destruct (submit_render_job os scene_class render_config None (world r))
    as [[job_id|e] w']; simpl in *.
  - pose proof (wait_for_render_idle job_id sleeps context progress
                  {| world := w'; submitted := submitted r ++ [job_id];
                     launched := launched r |} Hstep) as Hwait.
    destruct (wait_for_render _ _ _ _ _) as [rendering|]; [|done].
    destruct Hwait as [-> ->]. split; [by eexists|done].
  - split; [by eexists|done].
Qed.

(** X16: and it fails as soon as the monitor has made a pass.  When the
    scene source can be read, the limit of the supervisor is positive and
    the first sleep of the handler ends with a pass of the monitor, the
    handler raises "job does not exist" for the job it has just submitted:
    the launch has failed and the supervisor has forgotten the job. *)
Theorem rendering_step_fails_after_monitor_pass
    (config : Settings) (files : Files) (events : list (OS * Event))
    (os os' : OS) (scene_class : SceneClass) (render_config : RenderConfig.t)
    (first : list (OS * Event)) (sleeps : list (list (OS * Event)))
    (context : Context) (progress : Q) :
  is_Some (scene_source scene_class) ->
  (0 < default 2 (cfg_max_concurrent_renders config))%Z ->
  exists rendering,
    _handle_video_rendering os scene_class render_config
      ((first ++ [(os', Tick)]) :: sleeps) context progress
      (run events (boot config files))
    = Some rendering
    /\ rendering_outcome rendering
       = Raise (Exception ("渲染任务不存在: render_"
                           +:+ pretty (py_int (time_now os * 1000))))
    /\ rendering_context rendering = context
    /\ rendering_progress rendering = 0%Q.
Proof.
  intros [source Hsource] Hmax.
  pose proof (run_idle events _ (boot_idle config files)) as Hidle.
  pose proof (run_idle_limit events _ (boot_idle config files)) as Hlimit.
  simpl in Hlimit.
  set (r := run events (boot config files)) in *.
  unfold _handle_video_rendering.
  pose proof (step_idle r (os, Submit scene_class render_config None) Hidle)
    as Hidle1.
  pose proof (step_idle_limit r (os, Submit scene_class render_config None) Hidle)
    as Hlimit1.
  unfold step in Hidle1, Hlimit1. simpl in Hidle1, Hlimit1.
  pose proof (submit_render_job_cases os scene_class render_config None (world r))
    as Hcases.
  assert (exists w', submit_render_job os scene_class render_config None (world r)
                     = (Return ("render_" +:+ pretty (py_int (time_now os * 1000))),
                        w')) as [w' Hsubmit].
  { unfold submit_render_job, _create_scene_file. rewrite Hsource. by eexists. }
  rewrite Hsubmit in Hcases, Hidle1, Hlimit1 |- *. simpl in *.
  destruct Hcases as (_ & job & Hid & _ & _ & Hself).
  set (job_id := "render_" +:+ pretty (py_int (time_now os * 1000))) in *.
  set (r1 := {| world := w'; submitted := submitted r ++ [job_id];
                launched := launched r |}) in *.
  assert (get_job_status (self (world r1)) job_id
          = Some (LiveStatus job_id "pending" 0 None None)) as Hfirst.
  { destruct (idle_status (self (world r1)) job_id Hidle1) as [Hnone|Hsome];
      [|done].
    exfalso. revert Hnone. unfold get_job_status.
    change (world r1) with w'.
    destruct Hidle1 as (_ & -> & -> & _). rewrite !lookup_empty.
    rewrite Hself. simpl. unfold find_queued. rewrite find_append.
    destruct (find _ (render_queue (self (world r)))); [done|].
    simpl. by rewrite bool_decide_eq_true_2. }
  change (world r1) with w' in Hfirst. rewrite Hfirst. simpl.
  unfold run at 1. rewrite fold_left_app. simpl.
  fold (run first r1).
  pose proof (run_idle first r1 Hidle1) as Hidle2.
  pose proof (run_idle_limit first r1 Hidle1) as Hlimit2.
  set (r2 := run first r1) in *.
  assert (get_job_status (self (world (step r2 (os', Tick)))) job_id = None)
    as Hgone.
  { unfold step. simpl. fold (monitor_tick os' (world r2)).
    rewrite monitor_tick_idle; [|done].
    rewrite (proj2 (Z.ltb_lt _ _));
      [|rewrite Hlimit2; simpl; by rewrite Hlimit1, Hlimit].
    unfold get_job_status. simpl.
    destruct Hidle2 as (_ & -> & -> & _). by rewrite !lookup_empty. }
  rewrite (wait_for_render_unknown _ _ _ _ _ Hgone). by eexists.
Qed.

Lemma rendering_step_fails_after_monitor_pass_witness :
  exists rendering,
    _handle_video_rendering os_all_running demo_scene RenderConfig.default
      (([] ++ [(os_all_running, Tick)]) :: []) ∅ 0
      (run three_submissions (boot default_settings ∅))
    = Some rendering
    /\ rendering_outcome rendering
       = Raise (Exception ("渲染任务不存在: render_"
                           +:+ pretty (py_int (time_now os_all_running * 1000))))
    /\ rendering_context rendering = ∅
    /\ rendering_progress rendering = 0%Q.
Proof.
  apply (rendering_step_fails_after_monitor_pass default_settings ∅
           three_submissions os_all_running os_all_running demo_scene
           RenderConfig.default [] [] ∅ 0).
  - by eexists.
  - simpl. lia.
Defined.

Lemma wait_for_render_sleeps (job_id : string) (events : list (OS * Event))
    (sleeps : list (list (OS * Event))) (context : Context) (progress : Q)
    (r : Run) (status : JobStatus) :
  get_job_status (self (world r)) job_id = Some status ->
  status_of status <> "completed" ->
  status_of status <> "failed" ->
  wait_for_render job_id (events :: sleeps) context progress r
  = wait_for_render job_id sleeps context (progress_of status) (run events r).
Proof.
  intros Hst Hc Hf. simpl. rewrite Hst.
  rewrite decide_False; [|done]. by rewrite decide_False.
Qed.

Lemma wait_for_render_result (job_id : string)
    (sleeps : list (list (OS * Event))) (context : Context) (progress : Q)
    (r : Run) (i output_file : string) (pr duration : Q) (size : Z)
    (e : option string) :
  get_job_status (self (world r)) job_id
  = Some (ResultStatus i "completed" pr output_file duration size e) ->
  wait_for_render job_id sleeps context progress r
  = Some {| rendering_outcome := Return (VStr output_file);
            rendering_context := <["render_job_id" := VStr job_id]> context;
            rendering_progress := pr;
            rendering_run := r |}.
Proof. intros Hst. destruct sleeps; simpl; by rewrite Hst. Qed.

(** The pass of the monitor that finds the process of the one job exited
    with code 0 and the video on disk. *)
Lemma tick_finalizes (os : OS) (job : RenderJob.t) (p : Popen) (size : Z)
    (r : Run) :
  renders_alone job p (world r) ->
  proc_poll os p = Some 0%Z ->
  fs (world r) !! RenderJob.output_path job = Some size ->
  let m' := self (world (step r (os, Tick))) in
  active_jobs m' = ∅
  /\ render_queue m' = []
  /\ exists result,
       completed_jobs m'
       = <[RenderJob.id job := result]> (completed_jobs (self (world r)))
       /\ RenderResult.success result = true
       /\ RenderResult.output_file result = RenderJob.output_path job.
Proof.
  intros (Hact & Hp & _ & Hq) Hpoll Hfile.
  unfold step. simpl. unfold poll_active_jobs.
  rewrite Hact, map_to_list_singleton. simpl.
  unfold monitor_job. simpl. rewrite Hp, Hpoll.
  unfold _handle_job_completion. simpl. rewrite Hp, Hpoll.
  rewrite decide_True; [|done].
  unfold _create_render_result. simpl. rewrite Hfile.
  unfold _start_pending_jobs.
  destruct (RenderJob.start_time job) as [s|]; simpl;
    [destruct (Qeq_bool s 0); simpl|];
    rewrite Hq; simpl; rewrite Hact, delete_singleton_eq;
    (split; [done|]; split; [done|]; eexists; split; [reflexivity|]; done).
Qed.

(** X17: the handler returns the video of a job that ends well.  When the
    job it waits for is the one job of the supervisor and, while the
    handler sleeps, the monitor finds the process exited with code 0 and
    the video on disk, the next poll returns the path of the video, sets
    the progress of the step to 100 and writes the id of the job to
    'render_job_id'. *)
Theorem rendering_step_returns_finished_video
    (os : OS) (job : RenderJob.t) (p : Popen) (size : Z)
    (sleeps : list (list (OS * Event))) (context : Context) (progress : Q)
    (r : Run) :
  renders_alone job p (world r) ->
  proc_poll os p = Some 0%Z ->
  fs (world r) !! RenderJob.output_path job = Some size ->
  wait_for_render (RenderJob.id job) ([(os, Tick)] :: sleeps) context progress r
  = Some {| rendering_outcome := Return (VStr (RenderJob.output_path job));
            rendering_context :=
              <["render_job_id" := VStr (RenderJob.id job)]> context;
            rendering_progress := 100;
            rendering_run := step r (os, Tick) |}.
Proof.
  intros Halone Hpoll Hfile.
  destruct (tick_finalizes os job p size r Halone Hpoll Hfile)
    as (Hact' & Hq' & result & Hcomp' & Hsucc & Hout).
  destruct Halone as (Hact & Hp & Hst & Hq).
  assert (get_job_status (self (world r)) (RenderJob.id job)
          = Some (LiveStatus (RenderJob.id job) "running" (RenderJob.progress job)
                    (RenderJob.start_time job) (RenderJob.error_message job)))
    as Hfirst.
  { unfold get_job_status. by rewrite Hact, lookup_singleton_eq, Hst. }
  rewrite (wait_for_render_sleeps _ _ _ _ _ _ _ Hfirst); [|done|done].
  assert (get_job_status (self (world (step r (os, Tick)))) (RenderJob.id job)
          = Some (ResultStatus (RenderResult.job_id result) "completed" 100
                    (RenderJob.output_path job) (RenderResult.duration result)
                    (RenderResult.file_size result)
                    (RenderResult.error_message result))) as Hdone.
  { unfold get_job_status.
    rewrite Hact', lookup_empty, Hcomp', lookup_insert_eq, Hsucc, Hout. done. }
  change (run [(os, Tick)] r) with (step r (os, Tick)).
  by rewrite (wait_for_render_result _ _ _ _ _ _ _ _ _ _ _ Hdone).
Qed.

Lemma rendering_step_returns_finished_video_witness :
  wait_for_render (RenderJob.id running_job) ([(os_all_exit_zero, Tick)] :: [])
    ∅ 0 rendered_run
  = Some {| rendering_outcome := Return (VStr (RenderJob.output_path running_job));
            rendering_context :=
              <["render_job_id" := VStr (RenderJob.id running_job)]> ∅;
            rendering_progress := 100;
            rendering_run := step rendered_run (os_all_exit_zero, Tick) |}.
Proof.
  apply (rendering_step_returns_finished_video os_all_exit_zero running_job
           {| pid := 1 |} 1000%Z [] ∅ 0 rendered_run).
  - split; [|split; [|split]]; reflexivity.
  - reflexivity.
  - reflexivity.
Defined.

(** X18: but a result cleared in the meantime is lost to the handler.  In
    the same situation, when [clear_completed_jobs] is called after the
    pass of the monitor and before the handler wakes up, the handler raises
    "job does not exist" although the video has been rendered, and
    'render_job_id' is not written. *)
Theorem cleared_result_fails_the_rendering_step
    (os os' : OS) (job : RenderJob.t) (p : Popen) (size : Z)
    (sleeps : list (list (OS * Event))) (context : Context) (progress : Q)
    (r : Run) :
  renders_alone job p (world r) ->
  proc_poll os p = Some 0%Z ->
  fs (world r) !! RenderJob.output_path job = Some size ->
  exists rendering,
    wait_for_render (RenderJob.id job)
      ([(os, Tick); (os', ClearCompleted)] :: sleeps) context progress r
    = Some rendering
    /\ rendering_outcome rendering
       = Raise (Exception ("渲染任务不存在: " +:+ RenderJob.id job))
    /\ rendering_context rendering = context.
Proof.
  intros Halone Hpoll Hfile.
  pose proof (tick_finalizes os job p size r Halone Hpoll Hfile) as Hfin.
  cbv zeta in Hfin. remember (step r (os, Tick)) as r1 eqn:Hr1.
  destruct Hfin as (Hact' & Hq' & _).
  destruct Halone as (Hact & Hp & Hst & Hq).
  assert (get_job_status (self (world r)) (RenderJob.id job)
          = Some (LiveStatus (RenderJob.id job) "running" (RenderJob.progress job)
                    (RenderJob.start_time job) (RenderJob.error_message job)))
    as Hfirst.
  { unfold get_job_status. by rewrite Hact, lookup_singleton_eq, Hst. }
  rewrite (wait_for_render_sleeps _ _ _ _ _ _ _ Hfirst); [|done|done].
  change (run [(os, Tick); (os', ClearCompleted)] r)
    with (step (step r (os, Tick)) (os', ClearCompleted)).
  rewrite <- Hr1.
  set (r' := step r1 (os', ClearCompleted)).
  assert (get_job_status (self (world r')) (RenderJob.id job) = None) as Hgone.
  { unfold r', get_job_status, step. simpl.
    rewrite Hact', lookup_empty, Hq'. done. }
  rewrite (wait_for_render_unknown _ _ _ _ _ Hgone).
  eexists. split; [reflexivity|]. done.
Qed.

Lemma cleared_result_fails_the_rendering_step_witness :
  exists rendering,
    wait_for_render (RenderJob.id running_job)
      ([(os_all_exit_zero, Tick); (os_all_exit_zero, ClearCompleted)] :: [])
      ∅ 0 rendered_run
    = Some rendering
    /\ rendering_outcome rendering
       = Raise (Exception ("渲染任务不存在: " +:+ RenderJob.id running_job))
    /\ rendering_context rendering = ∅.
Proof.
  apply (cleared_result_fails_the_rendering_step os_all_exit_zero
           os_all_exit_zero running_job {| pid := 1 |} 1000%Z [] ∅ 0
           rendered_run).
  - split; [|split; [|split]]; reflexivity.
  - reflexivity.
  - reflexivity.
Defined.

End RenderingStep.

(** ** The table of workflows *)

Section Registry.
Import RenderManager WorkflowEngine WorkflowMore WorkflowScenario.

Lemma list_active_workflows_spec (e : WorkflowEngine.t) (entry : ActiveEntry) :
  entry ∈ list_active_workflows e
  <-> exists i w,
        active_workflows e !! i = Some w
        /\ is_active_status (WorkflowResult.status w) = true
        /\ entry
           = {| entry_id := i;
                entry_status := WorkflowStatus.value (WorkflowResult.status w);
                entry_start_time := WorkflowResult.start_time w;
                entry_total_duration := WorkflowResult.total_duration w |}.
Proof.
  unfold list_active_workflows. rewrite list_elem_of_fmap. split.
  - intros ([i w] & -> & Hin). apply list_elem_of_In, filter_In in Hin as [Hin Hact].
    apply list_elem_of_In, elem_of_map_to_list in Hin. by exists i, w.
  - intros (i & w & Hl & Hact & ->). exists (i, w). split; [done|].
    apply list_elem_of_In, filter_In. split; [|done].
    by apply list_elem_of_In, elem_of_map_to_list.
Qed.

(** X19: a workflow is registered under the id [create_video_workflow]
    returns (the given one, or "workflow_" and the clock in milliseconds)
    and can be queried at once: it is reported as created at the time of the
    call, without an end time, with six steps, all pending at progress 0,
    and it is among the active workflows.  The reports of the workflows
    under other ids and the render manager are as before. *)
Theorem created_workflow_is_reported
    (now : Time) (content_input : ContentInput) (requirements : N)
    (workflow_id : option string) (e : WorkflowEngine.t) :
  let res := create_video_workflow now content_input requirements workflow_id e in
  res.1 = default ("workflow_" +:+ pretty (py_int (now * 1000))) workflow_id
  /\ (exists report,
        get_workflow_status res.2 res.1 = Some report
        /\ st_id report = res.1
        /\ st_status report = "created"
        /\ st_start_time report = now
        /\ st_end_time report = None
        /\ st_error_message report = None
        /\ length (st_steps report) = 6%nat
        /\ Forall (fun s => report_status s.2 = "pending"
                            /\ report_progress s.2 = 0%Q
                            /\ report_error s.2 = None) (st_steps report))
  /\ (exists entry,
        entry ∈ list_active_workflows res.2
        /\ entry_id entry = res.1 /\ entry_status entry = "created")
  /\ (forall other,
        other <> res.1 ->
        get_workflow_status res.2 other = get_workflow_status e other)
  /\ render_manager res.2 = render_manager e.
Proof.
  simpl. split; [by destruct workflow_id|].
  set (i := match workflow_id with Some i => i | None => _ end).
  unfold get_workflow_status. simpl. split; [|split; [|split; [|done]]].
  - rewrite lookup_insert_eq. simpl. eexists. split; [reflexivity|].
    repeat (split; [reflexivity|]). simpl.
    destruct content_input; simpl; (split; [reflexivity|]);
      repeat constructor.
  - eexists. split.
    + apply list_active_workflows_spec. simpl. eexists i, _.
      split; [apply lookup_insert_eq|]. split; [|reflexivity]. done.
    + done.
  - intros other Hother. by rewrite lookup_insert_ne.
Qed.

(** X20: a cancelled workflow is no longer among the active workflows, but
    it stays registered: the status query reports it as cancelled, with the
    time of the call as its end.  The entries of the other workflows in the
    list are as before. *)
Theorem cancelled_workflow_is_unlisted_but_reported
    (os : OS) (workflow_id : string) (e : WorkflowEngine.t)
    (w : WorkflowResult.t) :
  active_workflows e !! workflow_id = Some w ->
  let e' := (cancel_workflow os workflow_id e).2 in
  (forall entry, entry ∈ list_active_workflows e' ->
                 entry_id entry <> workflow_id)
  /\ (forall entry, entry_id entry <> workflow_id ->
                    entry ∈ list_active_workflows e'
                    <-> entry ∈ list_active_workflows e)
  /\ exists report,
       get_workflow_status e' workflow_id = Some report
       /\ st_status report = "cancelled"
       /\ st_end_time report = Some (time_now os).
Proof.
  intros Hreg. unfold cancel_workflow. rewrite Hreg. simpl.
  split; [|split].
  - intros entry (i & w' & Hl & Hact & ->)%list_active_workflows_spec Hi.
    simpl in *. subst i. rewrite lookup_insert_eq in Hl.
    injection Hl as <-. done.
  - intros entry Hne. rewrite !list_active_workflows_spec. simpl.
    split; intros (i & w' & Hl & Hact & ->); simpl in Hne;
      exists i, w'; (split; [|done]).
    + by rewrite lookup_insert_ne in Hl.
    + by rewrite lookup_insert_ne.
  - unfold get_workflow_status. simpl. rewrite lookup_insert_eq. simpl.
    eexists. split; [reflexivity|]. done.
Qed.

Lemma cancelled_workflow_is_unlisted_but_reported_witness :
  let e' := (cancel_workflow RenderScenario.os_all_exit_zero "wf-1" topic_engine).2 in
  (forall entry, entry ∈ list_active_workflows e' -> entry_id entry <> "wf-1")
  /\ (forall entry, entry_id entry <> "wf-1" ->
                    entry ∈ list_active_workflows e'
                    <-> entry ∈ list_active_workflows topic_engine)
  /\ exists report,
       get_workflow_status e' "wf-1" = Some report
       /\ st_status report = "cancelled"
       /\ st_end_time report = Some (time_now RenderScenario.os_all_exit_zero).
Proof.
  apply (cancelled_workflow_is_unlisted_but_reported
           RenderScenario.os_all_exit_zero "wf-1" topic_engine topic_workflow).
  reflexivity.
Defined.

Lemma cleanup_lookup (now : Time) (max_age_hours : Z) (e : WorkflowEngine.t)
    (i : string) :
  active_workflows (cleanup_completed_workflows now max_age_hours e) !! i
  = match active_workflows e !! i with
    | Some w =>
        if to_remove (now - inject_Z max_age_hours * 3600)%Q w then None
        else Some w
    | None => None
    end.
Proof.
  unfold cleanup_completed_workflows. simpl.
  destruct (active_workflows e !! i) as [w|] eqn:Hl.
  - destruct (to_remove _ w) eqn:Hrm.
    + apply map_lookup_filter_None. right. intros w' Hw'. simpl.
      rewrite Hl in Hw'. injection Hw' as <-. by rewrite Hrm.
    + by apply map_lookup_filter_Some.
  - apply map_lookup_filter_None. by left.
Qed.

(** X21: the clean-up removes finished workflows only, and never alters
    one.  The list of active workflows is the same before and after, every
    report is either unchanged or gone, and a workflow without an end time,
    or with one that is not older than the maximal age, keeps its report. *)
Theorem cleanup_keeps_active_and_recent_workflows
    (now : Time) (max_age_hours : Z) (e : WorkflowEngine.t) :
  let e' := cleanup_completed_workflows now max_age_hours e in
  (forall entry, entry ∈ list_active_workflows e'
                 <-> entry ∈ list_active_workflows e)
  /\ (forall i, get_workflow_status e' i = None
                \/ get_workflow_status e' i = get_workflow_status e i)
  /\ (forall i w,
        active_workflows e !! i = Some w ->
        match WorkflowResult.end_time w with
        | Some t => (now - inject_Z max_age_hours * 3600 <= t)%Q
        | None => True
        end ->
        get_workflow_status e' i = get_workflow_status e i)
  /\ render_manager e' = render_manager e.
Proof.
  simpl. split; [|split; [|split; [|done]]].
  - intros entry. rewrite !list_active_workflows_spec.
    split; intros (i & w & Hl & Hact & ->); exists i, w; (split; [|done]).
    + rewrite cleanup_lookup in Hl.
      destruct (active_workflows e !! i) as [w'|]; [|done].
      by destruct (to_remove _ w').
    + rewrite cleanup_lookup, Hl. unfold to_remove.
      by destruct (WorkflowResult.status w).
  - intros i. unfold get_workflow_status. rewrite cleanup_lookup.
    destruct (active_workflows e !! i) as [w|]; [|by left].
    destruct (to_remove _ w); [by left|by right].
  - intros i w Hl Hrecent. unfold get_workflow_status.
    rewrite cleanup_lookup, Hl. unfold to_remove.
    destruct (WorkflowResult.end_time w) as [t|]; [|by rewrite andb_false_r].
    destruct (Qlt_le_dec t _) as [Hlt|Hle]; [|by rewrite !andb_false_r].
    exfalso. by apply (Qlt_not_le _ _ Hlt).
Qed.

(** X22: a cancelled workflow is forgotten once it is older than the
    maximal age.  After a cancellation at a time [t] other than 0, a
    clean-up at [now] removes the workflow when [t] is before
    [now - 3600 * max_age_hours], and the status query then answers [None];
    a clean-up before that leaves the report, with status cancelled. *)
Theorem cancelled_workflow_is_forgotten_after_max_age
    (os : OS) (now : Time) (max_age_hours : Z) (workflow_id : string)
    (e : WorkflowEngine.t) (w : WorkflowResult.t) :
  active_workflows e !! workflow_id = Some w ->
  ~ (time_now os == 0)%Q ->
  let e' :=
    cleanup_completed_workflows now max_age_hours
      (cancel_workflow os workflow_id e).2 in
  ((time_now os < now - inject_Z max_age_hours * 3600)%Q ->
   get_workflow_status e' workflow_id = None)
  /\ ((now - inject_Z max_age_hours * 3600 <= time_now os)%Q ->
      exists report,
        get_workflow_status e' workflow_id = Some report
        /\ st_status report = "cancelled").
Proof.
  intros Hreg Hnz. simpl. unfold get_workflow_status.
  rewrite cleanup_lookup. unfold cancel_workflow. rewrite Hreg. simpl.
  rewrite lookup_insert_eq. unfold to_remove. simpl.
  assert (Qeq_bool (time_now os) 0 = false) as ->.
  { destruct (Qeq_bool _ 0) eqn:Heq; [|done]. by apply Qeq_bool_eq in Heq. }
  simpl. destruct (Qlt_le_dec _ _) as [Hlt|Hle]; simpl.
  - split; [done|]. intros Hle. exfalso. by apply (Qlt_not_le _ _ Hlt).
  - split; [|by eexists]. intros Hlt. exfalso. by apply (Qlt_not_le _ _ Hlt).
Qed.

Lemma cancelled_workflow_is_forgotten_after_max_age_witness :
  let e' :=
    cleanup_completed_workflows 90000%Q 24
      (cancel_workflow RenderScenario.os_all_exit_zero "wf-1" topic_engine).2 in
  ((100 < 90000 - inject_Z 24 * 3600)%Q ->
   get_workflow_status e' "wf-1" = None)
  /\ ((90000 - inject_Z 24 * 3600 <= 100)%Q ->
      exists report,
        get_workflow_status e' "wf-1" = Some report
        /\ st_status report = "cancelled").
Proof.
  apply (cancelled_workflow_is_forgotten_after_max_age
           RenderScenario.os_all_exit_zero 90000%Q 24 "wf-1" topic_engine
           topic_workflow).
  - reflexivity.
  - vm_compute. discriminate.
Defined.

End Registry.

(** ** The scheduler on any workflow *)

Section SchedulerRuns.
Import WorkflowEngine Graph Pass WorkflowScenario WorkflowScenarioMore.






Lemma ready_steps_NoDup (w : WorkflowResult.t) (executed : gset string) :
  WorkflowResult.distinct_ids w -> NoDup (ready_steps w executed).
Proof.
  unfold WorkflowResult.distinct_ids, ready_steps.
  induction (WorkflowResult.steps w) as [|s l IH]; simpl; [constructor|].
  intros [Hs Hl]%NoDup_cons. destruct (is_ready executed s); simpl; [|by apply IH].
  apply NoDup_cons. split; [|by apply IH].
  intros (s' & Hid & Hin)%list_elem_of_fmap.
  apply list_elem_of_In, filter_In in Hin.
  apply Hs. rewrite Hid. apply list_elem_of_fmap_2, list_elem_of_In. tauto.
Qed.

(** What the tasks of a pass leave of a step of the ready set. *)
Lemma run_tasks_find (handlers : Handlers) (now : Time) (ready : list string) :
  NoDup ready ->
  forall w r s,
    r ∈ ready ->
    WorkflowResult.find_step r w = Some s ->
    exists run,
      WorkflowResult.find_step r (run_tasks handlers now ready w)
      = Some (finished run (started now s)).
Proof.
  induction ready as [|r0 ready IH]; intros Hnd w r s Hr Hs; [inversion Hr|].
  apply NoDup_cons in Hnd as [Hr0 Hnd].
  unfold run_tasks in *. simpl.
  apply elem_of_cons in Hr as [->|Hr].
  - fold (run_tasks handlers now ready (_execute_step handlers now r0 w)).
    rewrite run_tasks_find_ne; [|done].
    eexists. by apply execute_step_find.
  - apply IH; [done|done|].
    rewrite execute_step_find_ne; [done|]. by intros ->.
Qed.

(** X24: a pass of the scheduler runs the ready steps and nothing else.
    Every step of the workflow is, after the pass, either exactly as it was,
    or it was pending, not yet executed, with all its dependencies
    executed; in that case it has been started at the time of the pass, has
    ended completed or failed, and is counted as executed.  So no step is
    run twice, and none before its dependencies. *)
Theorem pass_runs_ready_steps_only
    (handlers : Handlers) (now : Time) (w w' : WorkflowResult.t)
    (executed executed' : gset string) (s : WorkflowStep.t) :
  WorkflowResult.distinct_ids w ->
  loop_body handlers now w executed = Continue w' executed' ->
  s ∈ WorkflowResult.steps w ->
  WorkflowResult.find_step (WorkflowStep.id s) w' = Some s
  \/ (WorkflowStep.status s = StepStatus.PENDING
      /\ (WorkflowStep.id s ∉ executed)
      /\ (forall d, d ∈ WorkflowStep.dependencies s -> d ∈ executed)
      /\ WorkflowStep.id s ∈ executed'
      /\ exists s',
           WorkflowResult.find_step (WorkflowStep.id s) w' = Some s'
           /\ WorkflowStep.start_time s' = Some now
           /\ (WorkflowStep.status s' = StepStatus.COMPLETED
               \/ WorkflowStep.status s' = StepStatus.FAILED)).
Proof.
  intros Hnd Hbody Hs.
  rewrite loop_body_unfold in Hbody.
  remember (ready_steps w executed) as rs eqn:Hrs.
  assert (w' = run_tasks handlers now rs w
          /\ executed' = mark_executed rs w' executed) as [Hw' ->].
  { destruct rs; [done|]. cbv zeta in Hbody. by injection Hbody as <- <-. }
  pose proof (find_step_distinct w s Hnd Hs) as Hfind.
  destruct (decide (WorkflowStep.id s ∈ rs)) as [Hin|Hnot].
  - right. pose proof Hin as Hready. rewrite Hrs in Hready.
    apply ready_steps_spec in Hready as (s0 & Hs0 & Hid & Hnex & Hpending & Hdeps).
    assert (s0 = s) as ->.
    { pose proof (find_step_distinct w s0 Hnd Hs0) as Hfind0.
      rewrite Hid, Hfind in Hfind0. by injection Hfind0. }
    assert (NoDup rs) as Hnodup by (rewrite Hrs; by apply ready_steps_NoDup).
    destruct (run_tasks_find handlers now rs Hnodup
                w (WorkflowStep.id s) s Hin Hfind) as [run Hafter].
    rewrite <- Hw' in Hafter.
    split; [done|]. split; [done|]. split; [done|]. split.
    + apply mark_executed_spec. right. split; [done|].
      eexists. split; [done|]. apply finished_executed.
    + eexists. split; [done|]. unfold finished, started.
      destruct (outcome run); simpl; split; auto.
  - left. by rewrite Hw', run_tasks_find_ne.
Qed.

Lemma pass_runs_ready_steps_only_witness :
  exists w' executed',
    loop_body all_fail 7%Q topic_workflow ∅ = Continue w' executed'
    /\ (WorkflowResult.find_step (WorkflowStep.id generation_step) w'
        = Some generation_step
        \/ (WorkflowStep.status generation_step = StepStatus.PENDING
            /\ (WorkflowStep.id generation_step ∉ (∅ : gset string))
            /\ (forall d, d ∈ WorkflowStep.dependencies generation_step ->
                          d ∈ (∅ : gset string))
            /\ WorkflowStep.id generation_step ∈ executed'
            /\ exists s',
                 WorkflowResult.find_step (WorkflowStep.id generation_step) w'
                 = Some s'
                 /\ WorkflowStep.start_time s' = Some 7%Q
                 /\ (WorkflowStep.status s' = StepStatus.COMPLETED
                     \/ WorkflowStep.status s' = StepStatus.FAILED))).
Proof.
  eexists _, _. split; [reflexivity|].
  apply (pass_runs_ready_steps_only all_fail 7%Q topic_workflow _ ∅ _
           generation_step).
  - apply (bool_decide_unpack _). vm_compute. exact I.
  - reflexivity.
  - apply list_elem_of_here.
Defined.

End SchedulerRuns.

(** ** The workflows the engine builds *)

Section BuiltInWorkflows.
Import WorkflowEngine Graph Pass Chain WorkflowScenario WorkflowScenarioMore.









End BuiltInWorkflows.
